(** * RC5 and RC6 with a build-time word size: a shallow embedding of rc6.c

    The C file fixes the word type at compile time ([WORD_SZ], one of
    8/16/32/64/128) and offers a key schedule ([setup], reached through
    [rc5_setup] and [rc6_setup]) and the four block functions.  The
    embedding keeps that shape:

    - a [WORD] is a [Z] in [0, 2^WORD_SZ); every arithmetic result is
      reduced with [to_WORD], which is what unsigned arithmetic does in the
      32, 64 and 128 bit builds.  In the 8 and 16 bit builds C computes in
      [int] and converts back to [WORD] on assignment, with the same value
      modulo [2^WORD_SZ] (the 16 bit products and shifts that leave the
      range of [int] taken as wrapping);
    - buffers reached through [void *] or [char *] are lists of bytes, read
      and written as words in the byte order of the host;
    - the expanded key table is an array of words walked by a pointer; a
      walk records every index it dereferences;
    - an access outside an array is [None]: every function returns an
      [option], and [Some] means that the run stayed inside its buffers;
    - an [int] is a [Z]: the run-time requirements keep [r] and [b] in
      [0,255], far from the ends of [int]. *)

From Stdlib Require Import Strings.String Strings.Ascii.
From Stdlib Require DecimalString.
From Stdlib Require Import ZArith List Lia Bool.
From Stdlib Require Import Strings.Byte.
Import ListNotations.
Local Open Scope Z_scope.

(** ** Build configuration *)

(** The five branches of the [#if WORD_SZ==...] chain. *)
Inductive word_size : Set := W8 | W16 | W32 | W64 | W128.

(** What the union in [bswap_if_be] finds out about the machine. *)
Inductive endianness : Set := LittleEndian | BigEndian.

Definition WORD_SZ (ws : word_size) : Z :=
  match ws with W8 => 8 | W16 => 16 | W32 => 32 | W64 => 64 | W128 => 128 end.

Definition LGW (ws : word_size) : Z :=
  match ws with W8 => 3 | W16 => 4 | W32 => 5 | W64 => 6 | W128 => 7 end.

Definition P (ws : word_size) : Z :=
  match ws with
  | W8 => 0xb7
  | W16 => 0xb7e1
  | W32 => 0xb7e15163
  | W64 => 0xb7e151628aed2a6b
  | W128 => Z.lor (Z.shiftl 0xb7e151628aed2a6a 64) 0xbf7158809cf4f3c7
  end.

Definition Q (ws : word_size) : Z :=
  match ws with
  | W8 => 0x9f
  | W16 => 0x9e37
  | W32 => 0x9e3779b9
  | W64 => 0x9e3779b97f4a7c15
  | W128 => Z.lor (Z.shiftl 0x9e3779b97f4a7c15 64) 0xf39cc0605cedc835
  end.

(** [sizeof(WORD)]. *)
Definition sizeof_WORD (ws : word_size) : Z :=
  match ws with W8 => 1 | W16 => 2 | W32 => 4 | W64 => 8 | W128 => 16 end.

(** ** Fallible steps *)

Notation "x <- c ;; k" :=
  (match c with Some x => k | None => None end)
  (at level 61, c at next level, right associativity).
Notation "' p <- c ;; k" :=
  (match c with Some p => k | None => None end)
  (at level 61, p pattern, c at next level, right associativity).

(** [a[i]] as an rvalue: no value outside the array. *)
Definition peek {A : Type} (a : list A) (i : Z) : option A :=
  if i <? 0 then None else nth_error a (Z.to_nat i).

(** [a[i] = v]: no array after a store outside it. *)
Definition poke {A : Type} (a : list A) (i : Z) (v : A) : option (list A) :=
  if (0 <=? i) && (i <? Z.of_nat (length a))
  then Some (firstn (Z.to_nat i) a ++ v :: skipn (S (Z.to_nat i)) a)
  else None.

(** [n] passes through a loop body, the counter starting at [i]. *)
Fixpoint for_loop {St : Type} (n : nat) (i : Z)
    (body : Z -> St -> option St) (s : St) : option St :=
  match n with
  | O => Some s
  | S n' => s' <- body i s ;; for_loop n' (i + 1) body s'
  end.

(** [for (i = lo; i < hi; i++) body]. *)
Definition for_range {St : Type} (lo hi : Z)
    (body : Z -> St -> option St) (s : St) : option St :=
  for_loop (Z.to_nat (hi - lo)) lo body s.

(** ** Bytes *)

Definition byte_val (b : byte) : Z := Z.of_N (Byte.to_N b).

Definition byte_of (z : Z) : byte :=
  match Byte.of_N (Z.to_N (z mod 256)) with Some b => b | None => x00 end.

(** Value of a byte string whose first byte is the least significant. *)
Fixpoint le_decode (bs : list byte) : Z :=
  match bs with
  | [] => 0
  | b :: t => byte_val b + 256 * le_decode t
  end.

(** The [n] low bytes of [x], least significant first. *)
Fixpoint le_encode (n : nat) (x : Z) : list byte :=
  match n with
  | O => []
  | S n' => byte_of x :: le_encode n' (x / 256)
  end.

(** A word as it lies in the memory of the host. *)
Definition decode (host : endianness) (bs : list byte) : Z :=
  match host with
  | LittleEndian => le_decode bs
  | BigEndian => le_decode (rev bs)
  end.

Definition encode (host : endianness) (n : nat) (x : Z) : list byte :=
  match host with
  | LittleEndian => le_encode n x
  | BigEndian => rev (le_encode n x)
  end.

(** The [n] low bytes of [x] in the opposite order: what the compiler's
    [__builtin_bswap32] and [__builtin_bswap64] return on 4 and 8 bytes. *)
Fixpoint swap_bytes (n : nat) (x : Z) : Z :=
  match n with
  | O => 0
  | S n' => (x mod 256) * 256 ^ Z.of_nat n' + swap_bytes n' (x / 256)
  end.

Definition builtin_bswap32 (x : Z) : Z := swap_bytes 4 (x mod 2 ^ 32).
Definition builtin_bswap64 (x : Z) : Z := swap_bytes 8 (x mod 2 ^ 64).

(** Where the pointer into the key table stands, and every index it has
    been dereferenced at, oldest first. *)
Record cursor : Set := Cursor { at_index : Z; visited : list Z }.

(** State of the mixing loop of [setup]. *)
Record mixer : Set := Mixer {
  mix_S : list Z; mix_L : list Z;
  mix_A : Z; mix_B : Z;
  mix_i : Z; mix_j : Z
}.

(** ** Sample inputs

    The key and block patterns of the test-vector driver (bytes 0, 1, 2,
    ...), an automatic array full of [0xff], and unwritten tables. *)

Definition ramp (n : nat) : list byte := map (fun k => byte_of (Z.of_nat k)) (seq 0 n).
Definition stack_ff : nat -> byte := fun _ => xff.
Definition blank (n : nat) : list Z := repeat 0 n.

(** ** Standard output of the driver (main.c)

    The text a run of the driver sends to standard output is the list of
    the strings its [printf] calls write, in order. *)

(** What [printf] writes for [%d]. *)
Definition printf_d (n : Z) : string :=
  DecimalString.NilZero.string_of_int (Z.to_int n).

Definition hex_digit (n : Z) : ascii :=
  match n with
  | 0 => "0" | 1 => "1" | 2 => "2" | 3 => "3" | 4 => "4" | 5 => "5"
  | 6 => "6" | 7 => "7" | 8 => "8" | 9 => "9" | 10 => "A" | 11 => "B"
  | 12 => "C" | 13 => "D" | 14 => "E" | _ => "F"
  end%char.

(** What [printf] writes for [%02X] given an [unsigned char]. *)
Definition printf_02X (c : byte) : string :=
  String (hex_digit (byte_val c / 16))
         (String (hex_digit (byte_val c mod 16)) EmptyString).

(** The string ["\n"]. *)
Definition newline : string := String (ascii_of_nat 10) EmptyString.

(** The digit a character of [hex_digit] stands for. *)
Definition hex_value (c : ascii) : Z :=
  match find (fun n => Ascii.eqb (hex_digit n) c)
             [0; 1; 2; 3; 4; 5; 6; 7; 8; 9; 10; 11; 12; 13; 14; 15] with
  | Some n => n
  | None => 0
  end.

(** [pbuf(p, len, s)]: the label unless [s] is null, [len] bytes of [p] in
    hexadecimal, a newline. *)
Definition pbuf (p : list byte) (len : Z) (s : option string)
    : option (list string) :=
  let out := match s with Some label => [label] | None => [] end in
  out <- for_range 0 len
           (fun i out => c <- peek p i ;; Some (out ++ [printf_02X c])) out ;;
  Some (out ++ [newline]).

(** Words stored at the start of a buffer that is read and written in
    place. *)
Definition overwrite (buf out : list byte) : list byte :=
  out ++ skipn (length out) buf.

Section Engine.

Variable ws : word_size.

(** [sizeof(WORD)] as a count of bytes. *)
Definition wbytes : nat := Z.to_nat (sizeof_WORD ws).

(** ** Words *)

(** Conversion to [WORD]. *)
Definition to_WORD (x : Z) : Z := x mod 2 ^ WORD_SZ ws.

(** The values a [WORD] can hold. *)
Definition is_WORD (x : Z) : Prop := 0 <= x < 2 ^ WORD_SZ ws.

Definition add (x y : Z) : Z := to_WORD (x + y).
Definition sub (x y : Z) : Z := to_WORD (x - y).
Definition mul (x y : Z) : Z := to_WORD (x * y).

Definition max (a b : Z) : Z := if a >? b then a else b.

(** [(x<<d)|(x>>(WORD_SZ-d))].  At [d = 0] the right operand shifts by the
    whole width, which C leaves open; the value here is zero, and the other
    answer machines give, [x] itself, yields the same result [x]. *)
Definition rotl (x d : Z) : Z :=
  to_WORD (Z.lor (Z.shiftl x d) (Z.shiftr x (WORD_SZ ws - d))).

Definition rotr (x d : Z) : Z :=
  to_WORD (Z.lor (Z.shiftr x d) (Z.shiftl x (WORD_SZ ws - d))).

Definition bswap (x : Z) : Z :=
  match ws with
  | W8 => x
  | W16 => to_WORD (Z.lor (Z.shiftl x 8) (Z.shiftr x 8))
  | W32 => builtin_bswap32 x
  | W64 => builtin_bswap64 x
  | W128 => Z.lor (builtin_bswap64 (Z.shiftr x 64))
                  (Z.shiftl (builtin_bswap64 x) 64)
  end.

Definition bswap_if_be (host : endianness) (x : Z) : Z :=
  match host with LittleEndian => x | BigEndian => bswap x end.

(** ** Word access to byte buffers *)

(** The bytes of [m] that word [k] of it occupies. *)
Definition chunk (m : list byte) (k : nat) : list byte :=
  firstn wbytes (skipn (k * wbytes) m).

(** [((WORD * )m)[i]] as an rvalue. *)
Definition load (host : endianness) (m : list byte) (i : Z) : option Z :=
  if i <? 0 then None
  else
    let bs := chunk m (Z.to_nat i) in
    if (length bs =? wbytes)%nat then Some (decode host bs) else None.

(** The bytes a store of the word [x] leaves in memory. *)
Definition store (host : endianness) (x : Z) : list byte :=
  encode host wbytes x.

(** [((WORD * )m)[i] = x]. *)
Definition store_at (host : endianness) (m : list byte) (i : Z) (x : Z)
    : option (list byte) :=
  if (0 <=? i) && ((Z.to_nat i + 1) * wbytes <=? length m)%nat
  then Some (firstn (Z.to_nat i * wbytes) m ++ store host x
             ++ skipn ((Z.to_nat i + 1) * wbytes) m)
  else None.

(** The array [m] seen as words: all the whole words it holds. *)
Definition words_of (host : endianness) (m : list byte) : list Z :=
  map (fun k => decode host (chunk m k)) (seq 0 (length m / wbytes)).

(** ** Key schedule *)

Definition L_words_of (b : Z) : Z :=
  max 1 ((b + sizeof_WORD ws - 1) / sizeof_WORD ws).

(** The first three loops of [setup]'s [else] branch: [L], an automatic
    array of 256 bytes whose first contents are whatever [junk] the stack
    holds, gets its last used word cleared, then the key copied in byte by
    byte, then its used words put in little-endian reading. *)
Definition key_words (host : endianness) (junk : nat -> byte)
    (b : Z) (key : list byte) : option (list Z) :=
  let L_words := L_words_of b in
  let L := map junk (seq 0 256) in
  L <- store_at host L (L_words - 1) 0 ;;
  L <- for_range 0 b (fun i L => c <- peek key i ;; poke L i c) L ;;
  for_range 0 L_words
    (fun i L => x <- peek L i ;; poke L i (bswap_if_be host x))
    (words_of host L).

(** One pass through the body of the mixing loop, with its [i++, j++]. *)
Definition mix_body (S_words L_words : Z) (m : mixer) : option mixer :=
  let i := if mix_i m =? S_words then 0 else mix_i m in
  let j := if mix_j m =? L_words then 0 else mix_j m in
  s <- peek (mix_S m) i ;;
  let A := rotl (add (add s (mix_A m)) (mix_B m)) 3 in
  S1 <- poke (mix_S m) i A ;;
  l <- peek (mix_L m) j ;;
  let B := rotl (add (add l A) (mix_B m)) (add A (mix_B m) mod WORD_SZ ws) in
  L1 <- poke (mix_L m) j B ;;
  Some (Mixer S1 L1 A B (i + 1) (j + 1)).

(** [setup]: the return value and the table it leaves behind. *)
Definition setup (host : endianness) (junk : nat -> byte)
    (S : list Z) (S_words : Z) (w r b : Z) (key : list byte)
    : option (Z * list Z) :=
  if negb (WORD_SZ ws =? w) || (b <? 0) || (b >? 255)
     || (r <? 0) || (r >? 255) || negb (Z.rem r 4 =? 0)
  then Some (-1, S)
  else
    let L_words := L_words_of b in
    L <- key_words host junk b key ;;
    S1 <- poke S 0 (P ws) ;;
    S2 <- for_range 1 S_words
           (fun i T => x <- peek T (i - 1) ;; poke T i (add x (Q ws))) S1 ;;
    m <- for_range 0 (3 * max L_words S_words)
           (fun _ => mix_body S_words L_words) (Mixer S2 L 0 0 0 0) ;;
    Some (0, mix_S m).

Definition rc5_setup (host : endianness) (junk : nat -> byte)
    (rkey : list Z) (w r b : Z) (key : list byte) : option (Z * list Z) :=
  setup host junk rkey (2 * r + 2) w r b key.

Definition rc6_setup (host : endianness) (junk : nat -> byte)
    (rkey : list Z) (w r b : Z) (key : list byte) : option (Z * list Z) :=
  setup host junk rkey (2 * r + 4) w r b key.

(** ** Walking the key table *)

(** [*(S++)], [*(S--)] and [*S]. *)
Definition deref_inc (rkey : list Z) (sp : cursor) : option (Z * cursor) :=
  k <- peek rkey (at_index sp) ;;
  Some (k, Cursor (at_index sp + 1) (visited sp ++ [at_index sp])).

Definition deref_dec (rkey : list Z) (sp : cursor) : option (Z * cursor) :=
  k <- peek rkey (at_index sp) ;;
  Some (k, Cursor (at_index sp - 1) (visited sp ++ [at_index sp])).

Definition deref (rkey : list Z) (sp : cursor) : option (Z * cursor) :=
  k <- peek rkey (at_index sp) ;;
  Some (k, Cursor (at_index sp) (visited sp ++ [at_index sp])).

(** ** RC5 *)

Definition rc5_encrypt_round (rkey : list Z) (st : Z * Z * cursor)
    : option (Z * Z * cursor) :=
  let '(A, B, sp) := st in
  '(k, sp) <- deref_inc rkey sp ;;
  let A := add (rotl (Z.lxor A B) (B mod WORD_SZ ws)) k in
  '(k, sp) <- deref_inc rkey sp ;;
  let B := add (rotl (Z.lxor B A) (A mod WORD_SZ ws)) k in
  Some (A, B, sp).

(** The ciphertext bytes and the walk over the table. *)
Definition rc5_encrypt (host : endianness) (rkey : list Z) (w r : Z)
    (pt : list byte) : option (list byte * cursor) :=
  let sp := Cursor 0 [] in
  p0 <- load host pt 0 ;;
  '(k, sp) <- deref_inc rkey sp ;;
  let A := add (bswap_if_be host p0) k in
  p1 <- load host pt 1 ;;
  '(k, sp) <- deref_inc rkey sp ;;
  let B := add (bswap_if_be host p1) k in
  '(A, B, sp) <- for_range 0 (Z.quot r 4)
      (fun _ => for_range 0 4 (fun _ => rc5_encrypt_round rkey)) (A, B, sp) ;;
  Some (store host (bswap_if_be host A) ++ store host (bswap_if_be host B), sp).

Definition rc5_decrypt_round (rkey : list Z) (st : Z * Z * cursor)
    : option (Z * Z * cursor) :=
  let '(A, B, sp) := st in
  '(k, sp) <- deref_dec rkey sp ;;
  let B := Z.lxor (rotr (sub B k) (A mod WORD_SZ ws)) A in
  '(k, sp) <- deref_dec rkey sp ;;
  let A := Z.lxor (rotr (sub A k) (B mod WORD_SZ ws)) B in
  Some (A, B, sp).

Definition rc5_decrypt (host : endianness) (rkey : list Z) (w r : Z)
    (ct : list byte) : option (list byte * cursor) :=
  let sp := Cursor (2 * r + 1) [] in
  c1 <- load host ct 1 ;;
  let B := bswap_if_be host c1 in
  c0 <- load host ct 0 ;;
  let A := bswap_if_be host c0 in
  '(A, B, sp) <- for_range 0 (Z.quot r 4)
      (fun _ => for_range 0 4 (fun _ => rc5_decrypt_round rkey)) (A, B, sp) ;;
  '(k, sp) <- deref_dec rkey sp ;;
  let p1 := store host (bswap_if_be host (sub B k)) in
  '(k, sp) <- deref rkey sp ;;
  let p0 := store host (bswap_if_be host (sub A k)) in
  Some (p0 ++ p1, sp).

(** ** RC6 *)

Definition rc6_encrypt_round (rkey : list Z) (st : Z * Z * Z * Z * cursor)
    : option (Z * Z * Z * Z * cursor) :=
  let '(A, B, C, D, sp) := st in
  let t := rotl (mul B (add (mul 2 B) 1)) (LGW ws) in
  let u := rotl (mul D (add (mul 2 D) 1)) (LGW ws) in
  '(k, sp) <- deref_inc rkey sp ;;
  let A := add (rotl (Z.lxor A t) (u mod WORD_SZ ws)) k in
  '(k, sp) <- deref_inc rkey sp ;;
  let C := add (rotl (Z.lxor C u) (t mod WORD_SZ ws)) k in
  Some (B, C, D, A, sp).

Definition rc6_encrypt (host : endianness) (rkey : list Z) (w r : Z)
    (pt : list byte) : option (list byte * cursor) :=
  let sp := Cursor 0 [] in
  p0 <- load host pt 0 ;;
  let A := bswap_if_be host p0 in
  p1 <- load host pt 1 ;;
  '(k, sp) <- deref_inc rkey sp ;;
  let B := add (bswap_if_be host p1) k in
  p2 <- load host pt 2 ;;
  let C := bswap_if_be host p2 in
  p3 <- load host pt 3 ;;
  '(k, sp) <- deref_inc rkey sp ;;
  let D := add (bswap_if_be host p3) k in
  '(A, B, C, D, sp) <- for_range 0 (Z.quot r 4)
      (fun _ => for_range 0 4 (fun _ => rc6_encrypt_round rkey))
      (A, B, C, D, sp) ;;
  '(k, sp) <- deref_inc rkey sp ;;
  let c0 := store host (bswap_if_be host (add A k)) in
  let c1 := store host (bswap_if_be host B) in
  '(k, sp) <- deref rkey sp ;;
  let c2 := store host (bswap_if_be host (add C k)) in
  let c3 := store host (bswap_if_be host D) in
  Some (c0 ++ c1 ++ c2 ++ c3, sp).

Definition rc6_decrypt_round (rkey : list Z) (st : Z * Z * Z * Z * cursor)
    : option (Z * Z * Z * Z * cursor) :=
  let '(A, B, C, D, sp) := st in
  let '(A, B, C, D) := (D, A, B, C) in
  let u := rotl (mul D (add (mul 2 D) 1)) (LGW ws) in
  let t := rotl (mul B (add (mul 2 B) 1)) (LGW ws) in
  '(k, sp) <- deref_dec rkey sp ;;
  let C := Z.lxor (rotr (sub C k) (t mod WORD_SZ ws)) u in
  '(k, sp) <- deref_dec rkey sp ;;
  let A := Z.lxor (rotr (sub A k) (u mod WORD_SZ ws)) t in
  Some (A, B, C, D, sp).

Definition rc6_decrypt (host : endianness) (rkey : list Z) (w r : Z)
    (ct : list byte) : option (list byte * cursor) :=
  let sp := Cursor (2 * r + 3) [] in
  c3 <- load host ct 3 ;;
  let D := bswap_if_be host c3 in
  c2 <- load host ct 2 ;;
  '(k, sp) <- deref_dec rkey sp ;;
  let C := sub (bswap_if_be host c2) k in
  c1 <- load host ct 1 ;;
  let B := bswap_if_be host c1 in
  c0 <- load host ct 0 ;;
  '(k, sp) <- deref_dec rkey sp ;;
  let A := sub (bswap_if_be host c0) k in
  '(A, B, C, D, sp) <- for_range 0 (Z.quot r 4)
      (fun _ => for_range 0 4 (fun _ => rc6_decrypt_round rkey))
      (A, B, C, D, sp) ;;
  '(k, sp) <- deref_dec rkey sp ;;
  let p3 := store host (bswap_if_be host (sub D k)) in
  let p2 := store host (bswap_if_be host C) in
  '(k, sp) <- deref rkey sp ;;
  let p1 := store host (bswap_if_be host (sub B k)) in
  let p0 := store host (bswap_if_be host A) in
  Some (p0 ++ p1 ++ p2 ++ p3, sp).

(** ** The block functions by subkey index

    The same computations written the way the specification words them:
    rounds numbered from 0, subkeys named by their index in the table,
    block words as they are on the wire (least significant byte first). *)

(** [S[i]] where the table is known to hold it. *)
Definition S_at (rkey : list Z) (i : Z) : Z := nth (Z.to_nat i) rkey 0.

(** Word [k] of a buffer on the wire, and a word put on the wire. *)
Definition wire_word (m : list byte) (k : nat) : Z := le_decode (chunk m k).
Definition wire (x : Z) : list byte := le_encode wbytes x.

(** [n] rounds numbered [round], [round + 1], ... *)
Fixpoint rounds {St : Type} (n : nat) (round : Z)
    (step : Z -> St -> St) (s : St) : St :=
  match n with
  | O => s
  | S n' => rounds n' (round + 1) step (step round s)
  end.

(** [n] rounds numbered [round - 1], [round - 2], ... *)
Fixpoint rounds_back {St : Type} (n : nat) (round : Z)
    (step : Z -> St -> St) (s : St) : St :=
  match n with
  | O => s
  | S n' => rounds_back n' (round - 1) step (step (round - 1) s)
  end.

Definition rc5_round_spec (rkey : list Z) (round : Z) (s : Z * Z) : Z * Z :=
  let '(A, B) := s in
  let A := add (rotl (Z.lxor A B) (B mod WORD_SZ ws)) (S_at rkey (2 * round + 2)) in
  let B := add (rotl (Z.lxor B A) (A mod WORD_SZ ws)) (S_at rkey (2 * round + 3)) in
  (A, B).

Definition rc5_encrypt_spec (rkey : list Z) (r : Z) (p0 p1 : Z) : Z * Z :=
  rounds (Z.to_nat r) 0 (rc5_round_spec rkey)
         (add p0 (S_at rkey 0), add p1 (S_at rkey 1)).

(** The decryption round that undoes round number [round]. *)
Definition rc5_round_back (rkey : list Z) (round : Z) (s : Z * Z) : Z * Z :=
  let '(A, B) := s in
  let B := Z.lxor (rotr (sub B (S_at rkey (2 * round + 3))) (A mod WORD_SZ ws)) A in
  let A := Z.lxor (rotr (sub A (S_at rkey (2 * round + 2))) (B mod WORD_SZ ws)) B in
  (A, B).

(** [f(x) = rotateLeft(x * (2x + 1), log2(W))]. *)
Definition f (x : Z) : Z :=
  rotl (mul x (add (mul 2 x) 1)) (Z.log2 (WORD_SZ ws)).

Definition rc6_round_spec (rkey : list Z) (round : Z) (s : Z * Z * Z * Z)
    : Z * Z * Z * Z :=
  let '(A, B, C, D) := s in
  let t := f B in
  let u := f D in
  let A := add (rotl (Z.lxor A t) (u mod WORD_SZ ws)) (S_at rkey (2 * round + 2)) in
  let C := add (rotl (Z.lxor C u) (t mod WORD_SZ ws)) (S_at rkey (2 * round + 3)) in
  (B, C, D, A).

Definition rc6_encrypt_spec (rkey : list Z) (r : Z) (p0 p1 p2 p3 : Z)
    : Z * Z * Z * Z :=
  let B := add p1 (S_at rkey 0) in
  let D := add p3 (S_at rkey 1) in
  let A := p0 in
  let C := p2 in
  let '(A, B, C, D) := rounds (Z.to_nat r) 0 (rc6_round_spec rkey) (A, B, C, D) in
  (add A (S_at rkey (2 * r + 2)), B, add C (S_at rkey (2 * r + 3)), D).

Definition rc6_round_back (rkey : list Z) (round : Z) (s : Z * Z * Z * Z)
    : Z * Z * Z * Z :=
  let '(A, B, C, D) := s in
  let '(A, B, C, D) := (D, A, B, C) in
  let u := f D in
  let t := f B in
  let C := Z.lxor (rotr (sub C (S_at rkey (2 * round + 3))) (t mod WORD_SZ ws)) u in
  let A := Z.lxor (rotr (sub A (S_at rkey (2 * round + 2))) (u mod WORD_SZ ws)) t in
  (A, B, C, D).

(** The indices [lo], [lo + 1], ... and [hi], [hi - 1], ..., [n] of each. *)
Fixpoint upward (n : nat) (lo : Z) : list Z :=
  match n with O => [] | S n' => lo :: upward n' (lo + 1) end.

Fixpoint downward (n : nat) (hi : Z) : list Z :=
  match n with O => [] | S n' => hi :: downward n' (hi - 1) end.

(** Register files that hold words. *)
Definition word_pair (s : Z * Z) : Prop := is_WORD (fst s) /\ is_WORD (snd s).

Definition word_quad (s : Z * Z * Z * Z) : Prop :=
  let '(A, B, C, D) := s in is_WORD A /\ is_WORD B /\ is_WORD C /\ is_WORD D.

(** What the run-time requirements of the C file ask of [r]. *)
Definition valid_rounds (r : Z) : Prop := 0 <= r <= 255 /\ Z.rem r 4 = 0.

(** ** The key schedule as the specification words it *)

(** [ceil(a / b)]. *)
Definition ceil_div (a b : Z) : Z :=
  if a mod b =? 0 then a / b else a / b + 1.

Definition L_words_spec (b : Z) : Z := Z.max 1 (ceil_div b (sizeof_WORD ws)).

(** The key bytes packed least significant byte first into [L_words]
    words, the bytes of the last word that the key does not reach zero. *)
Definition key_material_spec (b : Z) (key : list byte) : list Z :=
  let n := Z.to_nat (L_words_spec b) in
  let padded := firstn (Z.to_nat b) key ++ repeat x00 (n * wbytes - Z.to_nat b) in
  map (wire_word padded) (seq 0 n).

(** [S[0] = s], then [S[i] = S[i-1] + Q], [n] words in all. *)
Fixpoint S_fill (n : nat) (s : Z) : list Z :=
  match n with
  | O => []
  | S n' => s :: S_fill n' (add s (Q ws))
  end.

(** [a] with [a[i]] replaced, for [i] inside [a]. *)
Definition upd (a : list Z) (i : Z) (v : Z) : list Z :=
  firstn (Z.to_nat i) a ++ v :: skipn (S (Z.to_nat i)) a.

(** One mixing iteration. *)
Definition mix_spec (S_words L_words : Z) (m : mixer) : mixer :=
  let i := if mix_i m =? S_words then 0 else mix_i m in
  let j := if mix_j m =? L_words then 0 else mix_j m in
  let A := rotl (add (add (S_at (mix_S m) i) (mix_A m)) (mix_B m)) 3 in
  let B := rotl (add (add (S_at (mix_L m) j) A) (mix_B m))
                (add A (mix_B m) mod WORD_SZ ws) in
  Mixer (upd (mix_S m) i A) (upd (mix_L m) j B) A B (i + 1) (j + 1).

(** The table of [S_words] words for a key of [b] bytes. *)
Definition key_schedule_spec (S_words b : Z) (key : list byte) : list Z :=
  let L_words := L_words_spec b in
  mix_S (rounds (Z.to_nat (3 * Z.max L_words S_words)) 0
                (fun _ => mix_spec S_words L_words)
                (Mixer (S_fill (Z.to_nat S_words) (P ws))
                       (key_material_spec b key) 0 0 0 0)).

(** The mixing state of the C code: the arrays of [m] followed by the
    memory that lies behind the used part of each. *)
Definition framed (behind_S behind_L : list Z) (m : mixer) : mixer :=
  Mixer (mix_S m ++ behind_S) (mix_L m ++ behind_L)
        (mix_A m) (mix_B m) (mix_i m) (mix_j m).

(** Cursors inside their arrays, or one past the end before they wrap. *)
Definition mix_ok (S_words L_words : Z) (m : mixer) : Prop :=
  Z.of_nat (length (mix_S m)) = S_words /\ Z.of_nat (length (mix_L m)) = L_words
  /\ 0 <= mix_i m <= S_words /\ 0 <= mix_j m <= L_words.

(** What [setup] rejects. *)
Definition unsupported (w r b : Z) : Prop :=
  w <> WORD_SZ ws \/ b < 0 \/ b > 255 \/ r < 0 \/ r > 255 \/ Z.rem r 4 <> 0.

(** ** The driver's vectors (main.c)

    [malloc] is taken to succeed for every size that is not negative and to
    give no memory for a negative one.  The loops [key[j]=j] and [buf[j]=j]
    write every byte of their buffers before anything reads them; the table
    [rkey] starts as whatever [heap] holds, seen as the whole words that fit
    in its allocation.  The block functions read their input block before
    they store the output, so the calls with [pt == ct] put the output at the
    start of [buf]. *)

Definition print_vector6 (host : endianness) (junk : nat -> byte)
    (heap : nat -> Z) (w r b : Z) : option (list string) :=
  let bpw := Z.quot w 8 in
  let bpb := 4 * bpw in
  let rkey := map heap (seq 0 (Z.to_nat ((2 * r + 4) * bpw) / wbytes)) in
  let key := ramp (Z.to_nat b) in
  let buf := ramp (Z.to_nat bpb) in
  let out := [("RC6-" ++ printf_d w ++ "/" ++ printf_d r ++ "/" ++ printf_d b
               ++ newline)%string] in
  o <- pbuf key b (Some "Key:          "%string) ;;
  let out := out ++ o in
  o <- pbuf buf bpb (Some "Block input:  "%string) ;;
  let out := out ++ o in
  '(ret, rkey) <- rc6_setup host junk rkey w r b key ;;
  '(out, buf) <-
     (if negb (ret =? 0)
      then Some (out ++ [("Unsupported w/r/b: " ++ printf_d w ++ "/" ++ printf_d r
                          ++ "/" ++ printf_d b ++ newline)%string], buf)
      else '(ct, _) <- rc6_encrypt host rkey w r buf ;;
           Some (out, overwrite buf ct)) ;;
  o <- pbuf buf bpb (Some "Block output: "%string) ;;
  let out := out ++ o in
  '(pt, _) <- rc6_decrypt host rkey w r buf ;;
  let buf := overwrite buf pt in
  o <- pbuf buf bpb (Some "Block input:  "%string) ;;
  Some (out ++ o).

Definition print_vector5 (host : endianness) (junk : nat -> byte)
    (heap : nat -> Z) (w r b : Z) : option (list string) :=
  let bpw := Z.quot w 8 in
  let bpb := 2 * bpw in
  let rkey := map heap (seq 0 (Z.to_nat ((2 * r + 2) * bpw) / wbytes)) in
  let key := ramp (Z.to_nat b) in
  let buf := ramp (Z.to_nat bpb) in
  let out := [("RC5-" ++ printf_d w ++ "/" ++ printf_d r ++ "/" ++ printf_d b
               ++ newline)%string] in
  o <- pbuf key b (Some "Key:          "%string) ;;
  let out := out ++ o in
  o <- pbuf buf bpb (Some "Block input:  "%string) ;;
  let out := out ++ o in
  '(ret, rkey) <- rc5_setup host junk rkey w r b key ;;
  '(out, buf) <-
     (if negb (ret =? 0)
      then Some (out ++ [("Unsupported w/r/b: " ++ printf_d w ++ "/" ++ printf_d r
                          ++ "/" ++ printf_d b ++ newline)%string], buf)
      else '(ct, _) <- rc5_encrypt host rkey w r buf ;;
           Some (out, overwrite buf ct)) ;;
  o <- pbuf buf bpb (Some "Block output: "%string) ;;
  let out := out ++ o in
  '(pt, _) <- rc5_decrypt host rkey w r buf ;;
  let buf := overwrite buf pt in
  o <- pbuf buf bpb (Some "Block input:  "%string) ;;
  Some (out ++ o).

(** [main]: what it writes and what it returns.  Each call has its own
    stack and heap contents, numbered in call order. *)
Definition main (host : endianness) (junk : nat -> nat -> byte)
    (heap : nat -> nat -> Z) : option (list string * Z) :=
  o1 <- print_vector5 host (junk 0%nat) (heap 0%nat) 64 16 16 ;;
  o2 <- print_vector6 host (junk 1%nat) (heap 1%nat) 64 20 16 ;;
  o3 <- print_vector5 host (junk 2%nat) (heap 2%nat) 64 252 255 ;;
  o4 <- print_vector6 host (junk 3%nat) (heap 3%nat) 64 252 255 ;;
  Some (o1 ++ o2 ++ o3 ++ o4, 0).

(** The lines of a vector that was accepted: header, key, block, the block
    encrypted, the block again. *)
Definition vector_lines (name : string) (w r b : Z) (key blk ct : list byte)
    : list string :=
  [(name ++ printf_d w ++ "/" ++ printf_d r ++ "/" ++ printf_d b ++ newline)%string]
  ++ ("Key:          "%string :: map printf_02X key ++ [newline])
  ++ ("Block input:  "%string :: map printf_02X blk ++ [newline])
  ++ ("Block output: "%string :: map printf_02X ct ++ [newline])
  ++ ("Block input:  "%string :: map printf_02X blk ++ [newline]).

(** The lines of a vector that setup rejected: the block is printed as it
    was, then as decryption leaves it. *)
Definition rejected_lines (name : string) (w r b : Z) (key blk last : list byte)
    : list string :=
  [(name ++ printf_d w ++ "/" ++ printf_d r ++ "/" ++ printf_d b ++ newline)%string]
  ++ ("Key:          "%string :: map printf_02X key ++ [newline])
  ++ ("Block input:  "%string :: map printf_02X blk ++ [newline])
  ++ [("Unsupported w/r/b: " ++ printf_d w ++ "/" ++ printf_d r ++ "/" ++ printf_d b
       ++ newline)%string]
  ++ ("Block output: "%string :: map printf_02X blk ++ [newline])
  ++ ("Block input:  "%string :: map printf_02X last ++ [newline]).

(** ** The specification in plain arithmetic

    The ciphers and the key schedule once more, word for word as the
    specification states them and with nothing taken from the code: sums and
    products are integer sums and products reduced modulo [2^WORD_SZ], and a
    left rotation is written out as the low bits moved up and the high bits
    moved down. *)

(** [rotateLeft(x, d)] for a word [x] and [0 <= d < WORD_SZ]: the low
    [WORD_SZ - d] bits of [x] times [2^d], plus its high [d] bits. *)
Definition rotate_left (x d : Z) : Z :=
  (x mod 2 ^ (WORD_SZ ws - d)) * 2 ^ d + x / 2 ^ (WORD_SZ ws - d).

Definition rc5_round_arith (rkey : list Z) (round : Z) (s : Z * Z) : Z * Z :=
  let '(A, B) := s in
  let A := (rotate_left (Z.lxor A B) (B mod WORD_SZ ws)
            + S_at rkey (2 * round + 2)) mod 2 ^ WORD_SZ ws in
  let B := (rotate_left (Z.lxor B A) (A mod WORD_SZ ws)
            + S_at rkey (2 * round + 3)) mod 2 ^ WORD_SZ ws in
  (A, B).

Definition rc5_encrypt_arith (rkey : list Z) (r : Z) (p0 p1 : Z) : Z * Z :=
  rounds (Z.to_nat r) 0 (rc5_round_arith rkey)
         ((p0 + S_at rkey 0) mod 2 ^ WORD_SZ ws,
          (p1 + S_at rkey 1) mod 2 ^ WORD_SZ ws).

(** [f(x) = rotateLeft(x * (2x + 1), log2(W))]. *)
Definition f_arith (x : Z) : Z :=
  rotate_left ((x * (2 * x + 1)) mod 2 ^ WORD_SZ ws) (Z.log2 (WORD_SZ ws)).

Definition rc6_round_arith (rkey : list Z) (round : Z) (s : Z * Z * Z * Z)
    : Z * Z * Z * Z :=
  let '(A, B, C, D) := s in
  let t := f_arith B in
  let u := f_arith D in
  let A := (rotate_left (Z.lxor A t) (u mod WORD_SZ ws)
            + S_at rkey (2 * round + 2)) mod 2 ^ WORD_SZ ws in
  let C := (rotate_left (Z.lxor C u) (t mod WORD_SZ ws)
            + S_at rkey (2 * round + 3)) mod 2 ^ WORD_SZ ws in
  (B, C, D, A).

Definition rc6_encrypt_arith (rkey : list Z) (r : Z) (p0 p1 p2 p3 : Z)
    : Z * Z * Z * Z :=
  let B := (p1 + S_at rkey 0) mod 2 ^ WORD_SZ ws in
  let D := (p3 + S_at rkey 1) mod 2 ^ WORD_SZ ws in
  let A := p0 in
  let C := p2 in
  let '(A, B, C, D) := rounds (Z.to_nat r) 0 (rc6_round_arith rkey) (A, B, C, D) in
  ((A + S_at rkey (2 * r + 2)) mod 2 ^ WORD_SZ ws, B,
   (C + S_at rkey (2 * r + 3)) mod 2 ^ WORD_SZ ws, D).

(** [S[0] = s], then [S[i] = S[i-1] + Q] with wraparound, [n] words in all. *)
Fixpoint S_fill_arith (n : nat) (s : Z) : list Z :=
  match n with
  | O => []
  | S n' => s :: S_fill_arith n' ((s + Q ws) mod 2 ^ WORD_SZ ws)
  end.

(** One mixing iteration: the cursors wrap, then
    [A = S[i] = rotateLeft(S[i] + A + B, 3)] and
    [B = L[j] = rotateLeft(L[j] + A + B, (A + B) mod W)], then both cursors
    advance. *)
Definition mix_arith (S_words L_words : Z) (m : mixer) : mixer :=
  let i := if mix_i m =? S_words then 0 else mix_i m in
  let j := if mix_j m =? L_words then 0 else mix_j m in
  let A := rotate_left ((S_at (mix_S m) i + mix_A m + mix_B m) mod 2 ^ WORD_SZ ws) 3 in
  let B := rotate_left ((S_at (mix_L m) j + A + mix_B m) mod 2 ^ WORD_SZ ws)
                       ((A + mix_B m) mod WORD_SZ ws) in
  Mixer (upd (mix_S m) i A) (upd (mix_L m) j B) A B (i + 1) (j + 1).

(** The table of [S_words] words for a key of [b] bytes: the fill from [P]
    by [Q], then exactly [3 * max(L_words, S_words)] mixing iterations from
    [A = B = 0] and [i = j = 0]. *)
Definition key_schedule_arith (S_words b : Z) (key : list byte) : list Z :=
  let L_words := L_words_spec b in
  mix_S (rounds (Z.to_nat (3 * Z.max L_words S_words)) 0
                (fun _ => mix_arith S_words L_words)
                (Mixer (S_fill_arith (Z.to_nat S_words) (P ws))
                       (key_material_spec b key) 0 0 0 0)).

(** The range of [int] where the source compiles (GCC with [__int128]). *)
Definition int_range (x : Z) : Prop := - 2 ^ 31 <= x <= 2 ^ 31 - 1.

(** Every [int] the driver and the functions it calls compute from
    [w], [r] and [b] is the integer it stands for: the arguments, [2*r],
    the table sizes [2*r+2] and [2*r+4], and the sizes in bytes given to
    [malloc] ([w/8] and its multiples by 2 and 4 are never larger than
    [w]). *)
Definition driver_ints_exact (w r b : Z) : Prop :=
  int_range w /\ int_range r /\ int_range b
  /\ int_range (2 * r)
  /\ int_range (2 * r + 2) /\ int_range (2 * r + 4)
  /\ int_range ((2 * r + 2) * Z.quot w 8)
  /\ int_range ((2 * r + 4) * Z.quot w 8).

(** * Properties *)

(** Two terms that differ only in how their integer arguments are written. *)
Ltac same_modulo_arith := repeat first [reflexivity | lia | progress f_equal].

(** The four conjuncts of [word_quad], the bounds inside left alone. *)
Ltac split_quad := refine (conj _ (conj _ (conj _ _))).

(** ** The build constants *)

Lemma WORD_SZ_pos : 0 < WORD_SZ ws.
Proof. destruct ws; reflexivity. Qed.

Lemma WORD_SZ_bytes : WORD_SZ ws = 8 * sizeof_WORD ws.
Proof. destruct ws; reflexivity. Qed.

Lemma WORD_SZ_LGW : WORD_SZ ws = 2 ^ LGW ws.
Proof. destruct ws; reflexivity. Qed.

Lemma sizeof_WORD_pos : 0 < sizeof_WORD ws.
Proof. destruct ws; reflexivity. Qed.

Lemma wbytes_pos : (0 < wbytes)%nat.
Proof. unfold wbytes; destruct ws; simpl; lia. Qed.

Lemma modulus_bytes : 2 ^ WORD_SZ ws = 256 ^ Z.of_nat wbytes.
Proof. unfold wbytes; destruct ws; reflexivity. Qed.

Lemma modulus_pos : 0 < 2 ^ WORD_SZ ws.
Proof. apply Z.pow_pos_nonneg; [lia | pose proof WORD_SZ_pos; lia]. Qed.

(** ** Word arithmetic *)

Lemma to_WORD_is_WORD x : is_WORD (to_WORD x).
Proof. apply Z.mod_pos_bound, modulus_pos. Qed.

Lemma to_WORD_id x : is_WORD x -> to_WORD x = x.
Proof. intros H; apply Z.mod_small, H. Qed.

Lemma add_is_WORD x y : is_WORD (add x y).
Proof. apply to_WORD_is_WORD. Qed.

Lemma sub_is_WORD x y : is_WORD (sub x y).
Proof. apply to_WORD_is_WORD. Qed.

Lemma rotl_is_WORD x d : is_WORD (rotl x d).
Proof. apply to_WORD_is_WORD. Qed.

Lemma rotr_is_WORD x d : is_WORD (rotr x d).
Proof. apply to_WORD_is_WORD. Qed.

Lemma sub_add x k : is_WORD x -> sub (add x k) k = x.
Proof.
  intros H; unfold sub, add, to_WORD.
  rewrite Zminus_mod_idemp_l.
  replace (x + k - k) with x by lia.
  apply Z.mod_small, H.
Qed.

Lemma is_WORD_high_bits x n : is_WORD x -> WORD_SZ ws <= n -> Z.testbit x n = false.
Proof.
  intros H Hn.
  rewrite <- (to_WORD_id x H); unfold to_WORD.
  apply Z.mod_pow2_bits_high; pose proof WORD_SZ_pos; lia.
Qed.

Lemma lxor_is_WORD x y : is_WORD x -> is_WORD y -> is_WORD (Z.lxor x y).
Proof.
  intros Hx Hy.
  assert (E : Z.lxor x y = to_WORD (Z.lxor x y)).
  { apply Z.bits_inj'; intros n Hn; unfold to_WORD.
    rewrite Z.testbit_mod_pow2 by (pose proof WORD_SZ_pos; lia).
    destruct (Z.ltb_spec n (WORD_SZ ws)); [reflexivity |].
    rewrite Z.lxor_spec, !is_WORD_high_bits by assumption. reflexivity. }
  rewrite E; apply to_WORD_is_WORD.
Qed.

Lemma lxor_cancel x y : Z.lxor (Z.lxor x y) y = x.
Proof. now rewrite Z.lxor_assoc, Z.lxor_nilpotent, Z.lxor_0_r. Qed.

Lemma rotate_amount x : 0 <= x mod WORD_SZ ws < WORD_SZ ws.
Proof. apply Z.mod_pos_bound, WORD_SZ_pos. Qed.

(** Bit [n] of a left rotation by [d] is bit [n - d] of the operand, the
    index taken modulo the width. *)
Lemma rotl_spec x d n :
  is_WORD x -> 0 <= d < WORD_SZ ws -> 0 <= n ->
  Z.testbit (rotl x d) n
  = (n <? WORD_SZ ws) && Z.testbit x ((n - d) mod WORD_SZ ws).
Proof.
  intros Hx Hd Hn; unfold rotl, to_WORD.
  rewrite Z.testbit_mod_pow2 by lia.
  destruct (Z.ltb_spec n (WORD_SZ ws)) as [Hlt | Hge]; [simpl | reflexivity].
  rewrite Z.lor_spec, Z.shiftl_spec, Z.shiftr_spec by lia.
  destruct (Z.lt_ge_cases n d) as [Hnd | Hnd].
  - rewrite (Z.testbit_neg_r x (n - d)) by lia; simpl.
    f_equal. apply Z.mod_unique_pos with (q := -1); lia.
  - rewrite (is_WORD_high_bits x (n + (WORD_SZ ws - d))) by (assumption || lia).
    rewrite orb_false_r, (Z.mod_small (n - d)) by lia. reflexivity.
Qed.

Lemma rotr_spec x d n :
  is_WORD x -> 0 <= d < WORD_SZ ws -> 0 <= n ->
  Z.testbit (rotr x d) n
  = (n <? WORD_SZ ws) && Z.testbit x ((n + d) mod WORD_SZ ws).
Proof.
  intros Hx Hd Hn; unfold rotr, to_WORD.
  rewrite Z.testbit_mod_pow2 by lia.
  destruct (Z.ltb_spec n (WORD_SZ ws)) as [Hlt | Hge]; [simpl | reflexivity].
  rewrite Z.lor_spec, Z.shiftl_spec, Z.shiftr_spec by lia.
  destruct (Z.lt_ge_cases (n + d) (WORD_SZ ws)) as [Hnd | Hnd].
  - rewrite (Z.testbit_neg_r x (n - (WORD_SZ ws - d))) by lia.
    rewrite orb_false_r, (Z.mod_small (n + d)) by lia. reflexivity.
  - rewrite (is_WORD_high_bits x (n + d)) by (assumption || lia); simpl.
    f_equal. apply Z.mod_unique_pos with (q := 1); lia.
Qed.

(** Rotating right undoes rotating left by the same amount. *)
Lemma rotr_rotl x d : is_WORD x -> 0 <= d < WORD_SZ ws -> rotr (rotl x d) d = x.
Proof.
  intros Hx Hd. apply Z.bits_inj'; intros n Hn.
  rewrite rotr_spec by (apply rotl_is_WORD || assumption).
  destruct (Z.ltb_spec n (WORD_SZ ws)) as [Hlt | Hge]; simpl.
  - pose proof (Z.mod_pos_bound (n + d) (WORD_SZ ws) WORD_SZ_pos).
    rewrite rotl_spec by (assumption || lia).
    destruct (Z.ltb_spec ((n + d) mod WORD_SZ ws) (WORD_SZ ws)); [simpl | lia].
    rewrite Zminus_mod_idemp_l.
    replace (n + d - d) with n by lia.
    rewrite Z.mod_small by lia. reflexivity.
  - symmetry; apply is_WORD_high_bits; assumption.
Qed.

(** ** Bytes and byte order *)

Lemma byte_val_range b : 0 <= byte_val b < 256.
Proof.
  unfold byte_val. pose proof (Byte.to_N_bounded b). lia.
Qed.

Lemma byte_of_val b : byte_of (byte_val b) = b.
Proof.
  unfold byte_of. rewrite Z.mod_small by apply byte_val_range.
  unfold byte_val. rewrite N2Z.id, Byte.of_to_N. reflexivity.
Qed.

Lemma byte_of_congr z z' : z mod 256 = z' mod 256 -> byte_of z = byte_of z'.
Proof. unfold byte_of; intros E; now rewrite E. Qed.

Lemma byte_val_of z : byte_val (byte_of z) = z mod 256.
Proof.
  unfold byte_of, byte_val.
  pose proof (Z.mod_pos_bound z 256 eq_refl) as Hz.
  destruct (Byte.of_N (Z.to_N (z mod 256))) as [b |] eqn:E.
  - apply Byte.to_of_N in E. rewrite E. lia.
  - apply Byte.of_N_None_iff in E. lia.
Qed.

Lemma le_decode_range bs : 0 <= le_decode bs < 256 ^ Z.of_nat (length bs).
Proof.
  induction bs as [| b t IH].
  - simpl; lia.
  - cbn [le_decode length]. rewrite Nat2Z.inj_succ, Z.pow_succ_r by lia.
    pose proof (byte_val_range b). lia.
Qed.

Lemma le_encode_length n x : length (le_encode n x) = n.
Proof. revert x; induction n; intros; simpl; auto. Qed.

Lemma le_encode_decode bs : le_encode (length bs) (le_decode bs) = bs.
Proof.
  induction bs as [| b t IH]; [reflexivity |].
  cbn [le_decode length le_encode].
  pose proof (byte_val_range b) as Hb.
  f_equal.
  - rewrite <- (byte_of_val b) at 2. apply byte_of_congr.
    rewrite (Z.mul_comm 256). apply Z.mod_add. lia.
  - replace ((byte_val b + 256 * le_decode t) / 256) with (le_decode t)
      by (apply Z.div_unique_pos with (r := byte_val b); lia).
    exact IH.
Qed.

Lemma le_decode_encode n x : le_decode (le_encode n x) = x mod 256 ^ Z.of_nat n.
Proof.
  revert x; induction n as [| n IH]; intros x.
  - simpl. now rewrite Z.mod_1_r.
  - cbn [le_encode le_decode]. rewrite IH, byte_val_of.
    rewrite Nat2Z.inj_succ, Z.pow_succ_r by lia.
    rewrite Z.rem_mul_r; [reflexivity | lia | apply Z.pow_pos_nonneg; lia].
Qed.

Lemma le_decode_app l1 l2 :
  le_decode (l1 ++ l2) = le_decode l1 + 256 ^ Z.of_nat (length l1) * le_decode l2.
Proof.
  induction l1 as [| b t IH].
  - cbn [app le_decode length]. change (256 ^ Z.of_nat 0) with 1. lia.
  - cbn [app le_decode length].
    rewrite IH, Nat2Z.inj_succ, Z.pow_succ_r by lia. lia.
Qed.

Lemma le_encode_app n m x :
  le_encode (n + m) x = le_encode n x ++ le_encode m (x / 256 ^ Z.of_nat n).
Proof.
  revert x; induction n as [| n IH]; intros x.
  - simpl. now rewrite Z.div_1_r.
  - cbn [Nat.add le_encode app]. rewrite IH. do 2 f_equal.
    rewrite Nat2Z.inj_succ, Z.pow_succ_r, Z.div_div by lia. reflexivity.
Qed.

Lemma le_encode_mod n x : le_encode n (x mod 256 ^ Z.of_nat n) = le_encode n x.
Proof.
  pose proof (le_encode_decode (le_encode n x)) as H.
  rewrite le_encode_length, le_decode_encode in H. exact H.
Qed.

Lemma swap_bytes_rev n x : swap_bytes n x = le_decode (rev (le_encode n x)).
Proof.
  revert x; induction n as [| n IH]; intros x; [reflexivity |].
  cbn [swap_bytes le_encode rev].
  rewrite le_decode_app, length_rev, le_encode_length, <- IH.
  cbn [le_decode]. rewrite byte_val_of. lia.
Qed.

Lemma small_high_bits a k n : 0 <= a < 2 ^ k -> 0 <= k <= n -> Z.testbit a n = false.
Proof.
  intros Ha Hk. rewrite <- (Z.mod_small a (2 ^ k)) by assumption.
  apply Z.mod_pow2_bits_high; lia.
Qed.

(** An operand below [2^k] and one shifted left by [k] do not overlap. *)
Lemma lor_shiftl_add a b k : 0 <= a < 2 ^ k -> 0 <= k -> Z.lor a (Z.shiftl b k) = a + b * 2 ^ k.
Proof.
  intros Ha Hk.
  assert (D : Z.land a (Z.shiftl b k) = 0).
  { apply Z.bits_inj'; intros n Hn.
    rewrite Z.land_spec, Z.bits_0, Z.shiftl_spec by assumption.
    destruct (Z.lt_ge_cases n k).
    - rewrite (Z.testbit_neg_r b) by lia. apply andb_false_r.
    - rewrite (small_high_bits a k n) by lia. reflexivity. }
  rewrite <- Z.lxor_lor, <- Z.add_nocarry_lxor, Z.shiftl_mul_pow2 by assumption.
  reflexivity.
Qed.

(** On every build [bswap] reverses the bytes of a word. *)
Lemma bswap_rev x : is_WORD x -> bswap x = le_decode (rev (le_encode wbytes x)).
Proof.
  unfold is_WORD, bswap, to_WORD, builtin_bswap32, builtin_bswap64, wbytes.
  destruct ws; cbn [WORD_SZ sizeof_WORD]; intros Hx.
  - change (Z.to_nat 1) with 1%nat. cbn [le_encode rev app le_decode].
    rewrite byte_val_of. change (2 ^ 8) with 256 in Hx. rewrite Z.mod_small; lia.
  - change (Z.to_nat 2) with 2%nat. rewrite <- swap_bytes_rev.
    assert (Hq : 0 <= x / 2 ^ 8 < 2 ^ 8).
    { split; [apply Z.div_pos; lia | apply Z.div_lt_upper_bound; lia]. }
    rewrite Z.lor_comm, Z.shiftr_div_pow2 by lia.
    rewrite (lor_shiftl_add _ x 8 Hq) by lia.
    cbn [swap_bytes].
    change (256 ^ Z.of_nat 1) with 256. change (256 ^ Z.of_nat 0) with 1.
    change (2 ^ 16) with 65536 in *. change (2 ^ 8) with 256 in *.
    Z.div_mod_to_equations. lia.
  - change (Z.to_nat 4) with 4%nat. rewrite <- swap_bytes_rev.
    rewrite Z.mod_small by assumption. reflexivity.
  - change (Z.to_nat 8) with 8%nat. rewrite <- swap_bytes_rev.
    rewrite Z.mod_small by assumption. reflexivity.
  - change (Z.to_nat 16) with (8 + 8)%nat.
    rewrite le_encode_app, rev_app_distr, le_decode_app, length_rev, le_encode_length.
    rewrite <- !swap_bytes_rev.
    change (256 ^ Z.of_nat 8) with (2 ^ 64).
    rewrite Z.shiftr_div_pow2 by lia.
    assert (Hq : 0 <= x / 2 ^ 64 < 2 ^ 64).
    { split; [apply Z.div_pos; lia | apply Z.div_lt_upper_bound; lia]. }
    rewrite (Z.mod_small (x / 2 ^ 64)) by assumption.
    assert (Hs : swap_bytes 8 (x mod 2 ^ 64) = swap_bytes 8 x).
    { rewrite !swap_bytes_rev. change (2 ^ 64) with (256 ^ Z.of_nat 8).
      now rewrite le_encode_mod. }
    rewrite Hs, lor_shiftl_add; [lia | | lia].
    rewrite swap_bytes_rev.
    pose proof (le_decode_range (rev (le_encode 8 (x / 2 ^ 64)))) as R.
    rewrite length_rev, le_encode_length in R. exact R.
Qed.

(** A load undone by [bswap_if_be] reads the wire order on either host,
    and a store after [bswap_if_be] writes it. *)
Lemma bswap_if_be_decode host bs :
  length bs = wbytes -> bswap_if_be host (decode host bs) = le_decode bs.
Proof.
  intros Hl. destruct host; [reflexivity |]. cbn [bswap_if_be decode].
  assert (Hr : length (rev bs) = wbytes) by now rewrite length_rev.
  rewrite bswap_rev.
  - rewrite <- Hr, le_encode_decode, rev_involutive. reflexivity.
  - unfold is_WORD. rewrite modulus_bytes, <- Hr. apply le_decode_range.
Qed.

Lemma store_bswap_if_be host x : is_WORD x -> store host (bswap_if_be host x) = wire x.
Proof.
  intros Hx. destruct host; [reflexivity |]. unfold store, wire. cbn [bswap_if_be encode].
  rewrite bswap_rev by assumption.
  rewrite <- (le_encode_length wbytes x) at 1. rewrite <- length_rev.
  rewrite le_encode_decode, rev_involutive. reflexivity.
Qed.

Lemma wire_length x : length (wire x) = wbytes.
Proof. apply le_encode_length. Qed.

Lemma chunk_length m k :
  ((k + 1) * wbytes <= length m)%nat -> length (chunk m k) = wbytes.
Proof.
  intros H. unfold chunk. rewrite length_firstn, length_skipn. lia.
Qed.

Lemma load_wire host m i :
  0 <= i -> ((Z.to_nat i + 1) * wbytes <= length m)%nat ->
  load host m i = Some (decode host (chunk m (Z.to_nat i)))
  /\ bswap_if_be host (decode host (chunk m (Z.to_nat i))) = wire_word m (Z.to_nat i).
Proof.
  intros Hi Hm. pose proof (chunk_length m _ Hm) as Hc. unfold load.
  destruct (Z.ltb_spec i 0); [lia |]. cbn zeta.
  rewrite Hc, Nat.eqb_refl. split; [reflexivity |].
  now apply bswap_if_be_decode.
Qed.

Lemma wire_word_is_WORD m k :
  ((k + 1) * wbytes <= length m)%nat -> is_WORD (wire_word m k).
Proof.
  intros H. unfold is_WORD, wire_word.
  rewrite modulus_bytes, <- (chunk_length m k H). apply le_decode_range.
Qed.

Lemma wire_word_wire x : is_WORD x -> le_decode (wire x) = x.
Proof.
  intros Hx. unfold wire. rewrite le_decode_encode, <- modulus_bytes.
  apply Z.mod_small, Hx.
Qed.

Lemma chunk_app_here m e : length m = wbytes -> chunk (m ++ e) 0 = m.
Proof.
  intros H. unfold chunk. cbn [Nat.mul skipn].
  rewrite firstn_app, H, Nat.sub_diag, <- H, firstn_all. cbn [firstn]. apply app_nil_r.
Qed.

Lemma chunk_app_next m e k : length m = wbytes -> chunk (m ++ e) (S k) = chunk e k.
Proof.
  intros H. unfold chunk. f_equal.
  replace (S k * wbytes)%nat with (k * wbytes + length m)%nat by lia.
  rewrite <- skipn_skipn. f_equal.
  rewrite skipn_app, Nat.sub_diag, skipn_all. reflexivity.
Qed.

Lemma wire_chunk m k : length (chunk m k) = wbytes -> wire (wire_word m k) = chunk m k.
Proof.
  intros H. unfold wire, wire_word. rewrite <- H at 1. apply le_encode_decode.
Qed.

Lemma wire_word_here x e : is_WORD x -> wire_word (wire x ++ e) 0 = x.
Proof.
  intros Hx. unfold wire_word.
  rewrite chunk_app_here by apply wire_length. now apply wire_word_wire.
Qed.

Lemma wire_word_next x e k : wire_word (wire x ++ e) (S k) = wire_word e k.
Proof.
  unfold wire_word. now rewrite chunk_app_next by apply wire_length.
Qed.

Lemma wire_word_last x : is_WORD x -> wire_word (wire x) 0 = x.
Proof.
  intros Hx. rewrite <- (app_nil_r (wire x)). now apply wire_word_here.
Qed.

Lemma chunk_skipn m k : chunk m (S k) = chunk (skipn wbytes m) k.
Proof.
  unfold chunk. rewrite skipn_skipn. do 2 f_equal. lia.
Qed.

(** A buffer of [n] whole words is its chunks laid end to end. *)
Lemma chunks_concat n : forall m,
  length m = (n * wbytes)%nat -> concat (map (chunk m) (seq 0 n)) = m.
Proof.
  induction n as [| n IH]; intros m Hm.
  - destruct m; [reflexivity | discriminate].
  - cbn [seq map concat]. rewrite <- seq_shift, map_map.
    rewrite (map_ext _ (chunk (skipn wbytes m))) by (intros; apply chunk_skipn).
    rewrite IH by (rewrite length_skipn; lia).
    unfold chunk. cbn [Nat.mul skipn]. apply firstn_skipn.
Qed.

(** ** Arrays and loops *)

Lemma peek_S_at rkey i :
  0 <= i < Z.of_nat (length rkey) -> peek rkey i = Some (S_at rkey i).
Proof.
  intros H. unfold peek, S_at. destruct (Z.ltb_spec i 0); [lia |].
  apply nth_error_nth'. lia.
Qed.

Lemma deref_inc_at rkey p v :
  0 <= p < Z.of_nat (length rkey) ->
  deref_inc rkey (Cursor p v) = Some (S_at rkey p, Cursor (p + 1) (v ++ [p])).
Proof. intros H. unfold deref_inc. cbn. now rewrite peek_S_at. Qed.

Lemma deref_dec_at rkey p v :
  0 <= p < Z.of_nat (length rkey) ->
  deref_dec rkey (Cursor p v) = Some (S_at rkey p, Cursor (p - 1) (v ++ [p])).
Proof. intros H. unfold deref_dec. cbn. now rewrite peek_S_at. Qed.

Lemma deref_at rkey p v :
  0 <= p < Z.of_nat (length rkey) ->
  deref rkey (Cursor p v) = Some (S_at rkey p, Cursor p (v ++ [p])).
Proof. intros H. unfold deref. cbn. now rewrite peek_S_at. Qed.

Lemma for_loop_counter {St : Type} n i j (body : St -> option St) s :
  for_loop n i (fun _ => body) s = for_loop n j (fun _ => body) s.
Proof.
  revert i j s; induction n as [| n IH]; intros i j s; cbn; [reflexivity |].
  destruct (body s); [apply IH | reflexivity].
Qed.

Lemma for_loop_add {St : Type} a b i j (body : St -> option St) s :
  for_loop (a + b) i (fun _ => body) s
  = (s' <- for_loop a i (fun _ => body) s ;; for_loop b j (fun _ => body) s').
Proof.
  revert i j s; induction a as [| a IH]; intros i j s.
  - cbn. apply for_loop_counter.
  - cbn. destruct (body s) as [s' |]; [apply IH | reflexivity].
Qed.

(** The source unrolls its round loops four rounds at a time. *)
Lemma for_loop_nested {St : Type} n m i j (body : St -> option St) s :
  for_loop n i (fun _ => for_loop m j (fun _ => body)) s
  = for_loop (n * m) 0 (fun _ => body) s.
Proof.
  revert i s; induction n as [| n IH]; intros i s; [reflexivity |].
  cbn [for_loop Nat.mul]. rewrite (for_loop_add m (n * m) 0 0).
  rewrite (for_loop_counter m j 0).
  destruct (for_loop m 0 (fun _ => body) s) as [s' |]; [apply IH | reflexivity].
Qed.

(** ** Rounds *)

Lemma rounds_last {St : Type} n round (step : Z -> St -> St) s :
  rounds (S n) round step s = step (round + Z.of_nat n) (rounds n round step s).
Proof.
  revert round s; induction n as [| n IH]; intros round s.
  - cbn. now rewrite Z.add_0_r.
  - change (rounds (S (S n)) round step s)
      with (rounds (S n) (round + 1) step (step round s)).
    rewrite IH. cbn [rounds]. f_equal. lia.
Qed.

Lemma rounds_counter {St : Type} n a c (step : St -> St) s :
  rounds n a (fun _ => step) s = rounds n c (fun _ => step) s.
Proof. revert a c s; induction n; intros; cbn; auto. Qed.

Lemma rounds_invariant {St : Type} (Inv : St -> Prop) (step : Z -> St -> St) :
  (forall k s, Inv s -> Inv (step k s)) ->
  forall n round s, Inv s -> Inv (rounds n round step s).
Proof.
  intros Hstep n; induction n as [| n IH]; intros round s Hs; cbn; auto.
Qed.

(** Rounds undone one by one, last round first, give back the input. *)
Lemma rounds_back_rounds {St : Type} (Inv : St -> Prop) (step back : Z -> St -> St) :
  (forall k s, Inv s -> Inv (step k s)) ->
  (forall k s, Inv s -> back k (step k s) = s) ->
  forall n round s, Inv s ->
    rounds_back n (round + Z.of_nat n) back (rounds n round step s) = s.
Proof.
  intros Hstep Hback n; induction n as [| n IH]; intros round s Hs; [reflexivity |].
  rewrite rounds_last. cbn [rounds_back].
  replace (round + Z.of_nat (S n) - 1) with (round + Z.of_nat n) by lia.
  rewrite Hback by (apply rounds_invariant; assumption).
  apply IH, Hs.
Qed.

Lemma upward_app n m lo :
  upward (n + m) lo = upward n lo ++ upward m (lo + Z.of_nat n).
Proof.
  revert lo; induction n as [| n IH]; intros lo.
  - cbn. now rewrite Z.add_0_r.
  - cbn [Nat.add upward app]. rewrite IH. do 3 f_equal. lia.
Qed.

Lemma downward_app n m hi :
  downward (n + m) hi = downward n hi ++ downward m (hi - Z.of_nat n).
Proof.
  revert hi; induction n as [| n IH]; intros hi.
  - cbn. now rewrite Z.sub_0_r.
  - cbn [Nat.add downward app]. rewrite IH. do 3 f_equal. lia.
Qed.

Lemma LGW_log2 : LGW ws = Z.log2 (WORD_SZ ws).
Proof. destruct ws; reflexivity. Qed.

(** Four rounds per pass, [r / 4] passes: [r] rounds when 4 divides [r]. *)
Lemma unrolled_rounds r : valid_rounds r -> (Z.to_nat (Z.quot r 4 - 0) * Z.to_nat (4 - 0))%nat = Z.to_nat r.
Proof.
  intros [Hr H4]. pose proof (Z.quot_rem' r 4) as E. rewrite H4 in E.
  assert (0 <= Z.quot r 4) by (apply Z.quot_pos; lia). lia.
Qed.

(** ** RC5 *)

Lemma rc5_round_spec_words rkey k s : word_pair s -> word_pair (rc5_round_spec rkey k s).
Proof. destruct s as [A B]; intros _; split; apply add_is_WORD. Qed.

Lemma rc5_round_back_spec rkey k s :
  word_pair s -> rc5_round_back rkey k (rc5_round_spec rkey k s) = s.
Proof.
  destruct s as [A B]; intros [HA HB]; cbn [fst snd] in *.
  unfold rc5_round_back, rc5_round_spec.
  set (A' := add (rotl (Z.lxor A B) (B mod WORD_SZ ws)) (S_at rkey (2 * k + 2))).
  assert (HA' : is_WORD A') by apply add_is_WORD.
  rewrite sub_add by apply rotl_is_WORD.
  rewrite rotr_rotl by (apply lxor_is_WORD || apply rotate_amount; assumption).
  rewrite lxor_cancel. subst A'.
  rewrite sub_add by apply rotl_is_WORD.
  rewrite rotr_rotl by (apply lxor_is_WORD || apply rotate_amount; assumption).
  rewrite lxor_cancel. reflexivity.
Qed.

Lemma rc5_encrypt_rounds rkey n : forall round A B v i,
  0 <= round -> 2 * (round + Z.of_nat n) + 2 <= Z.of_nat (length rkey) ->
  for_loop n i (fun _ => rc5_encrypt_round rkey) (A, B, Cursor (2 * round + 2) v)
  = Some (rounds n round (rc5_round_spec rkey) (A, B),
          Cursor (2 * (round + Z.of_nat n) + 2)
                 (v ++ upward (2 * n) (2 * round + 2))).
Proof.
  induction n as [| n IH]; intros round A B v i Hr Hl.
  - cbn. now rewrite app_nil_r, Z.add_0_r.
  - cbn [for_loop]. unfold rc5_encrypt_round at 1.
    rewrite !deref_inc_at by lia.
    replace (2 * round + 2 + 1 + 1) with (2 * (round + 1) + 2) by lia.
    rewrite IH by lia.
    replace (2 * S n)%nat with (2 + 2 * n)%nat by lia.
    rewrite upward_app, app_assoc. cbn [upward rounds app rc5_round_spec].
    rewrite <- !app_assoc. cbn [app]. same_modulo_arith.
Qed.

Lemma rc5_decrypt_rounds rkey n : forall round A B v i,
  0 <= round - Z.of_nat n -> 2 * round + 2 <= Z.of_nat (length rkey) ->
  for_loop n i (fun _ => rc5_decrypt_round rkey) (A, B, Cursor (2 * round + 1) v)
  = Some (rounds_back n round (rc5_round_back rkey) (A, B),
          Cursor (2 * (round - Z.of_nat n) + 1)
                 (v ++ downward (2 * n) (2 * round + 1))).
Proof.
  induction n as [| n IH]; intros round A B v i Hr Hl.
  - cbn. now rewrite app_nil_r, Z.sub_0_r.
  - cbn [for_loop]. unfold rc5_decrypt_round at 1.
    rewrite !deref_dec_at by lia.
    replace (2 * round + 1 - 1 - 1) with (2 * (round - 1) + 1) by lia.
    rewrite IH by lia.
    replace (2 * S n)%nat with (2 + 2 * n)%nat by lia.
    rewrite downward_app, app_assoc. cbn [downward rounds_back app rc5_round_back].
    rewrite <- !app_assoc. cbn [app]. same_modulo_arith.
Qed.

Lemma rc5_encrypt_spec_words rkey r p0 p1 : word_pair (rc5_encrypt_spec rkey r p0 p1).
Proof.
  unfold rc5_encrypt_spec.
  apply rounds_invariant; [apply rc5_round_spec_words |].
  split; apply add_is_WORD.
Qed.

(** What a call of [rc5_encrypt] returns and where it reads the table. *)
Lemma rc5_encrypt_run host rkey w r pt :
  valid_rounds r -> Z.of_nat (length rkey) = 2 * r + 2 ->
  length pt = (2 * wbytes)%nat ->
  rc5_encrypt host rkey w r pt
  = Some (wire (fst (rc5_encrypt_spec rkey r (wire_word pt 0) (wire_word pt 1)))
          ++ wire (snd (rc5_encrypt_spec rkey r (wire_word pt 0) (wire_word pt 1))),
          Cursor (2 * r + 2) (upward (Z.to_nat (2 * r + 2)) 0)).
Proof.
  intros Hv Hk Hp. pose proof Hv as [Hr _]. unfold rc5_encrypt.
  destruct (load_wire host pt 0) as [E0 W0]; [lia | cbn; lia |].
  destruct (load_wire host pt 1) as [E1 W1]; [lia | cbn; lia |].
  rewrite E0, E1, W0, W1, !deref_inc_at by lia.
  unfold for_range. rewrite for_loop_nested, unrolled_rounds by assumption.
  change (0 + 1 + 1) with (2 * 0 + 2).
  rewrite rc5_encrypt_rounds by lia.
  pose proof (rc5_encrypt_spec_words rkey r (wire_word pt 0) (wire_word pt 1)) as Hw.
  unfold rc5_encrypt_spec in *.
  change (Z.to_nat 0) with 0%nat; change (Z.to_nat 1) with 1%nat.
  destruct (rounds _ _ _ _) as [A B]. destruct Hw as [HA HB]. cbn [fst snd] in *.
  rewrite !store_bswap_if_be by assumption.
  replace (Z.to_nat (2 * r + 2)) with (2 + 2 * Z.to_nat r)%nat by lia.
  rewrite upward_app. cbn [app upward]. same_modulo_arith.
Qed.

Lemma rc5_decrypt_run host rkey w r ct :
  valid_rounds r -> Z.of_nat (length rkey) = 2 * r + 2 ->
  length ct = (2 * wbytes)%nat ->
  rc5_decrypt host rkey w r ct
  = let '(A, B) := rounds_back (Z.to_nat r) r (rc5_round_back rkey)
                               (wire_word ct 0, wire_word ct 1) in
    Some (wire (sub A (S_at rkey 0)) ++ wire (sub B (S_at rkey 1)),
          Cursor 0 (downward (Z.to_nat (2 * r + 2)) (2 * r + 1))).
Proof.
  intros Hv Hk Hp. pose proof Hv as [Hr _]. unfold rc5_decrypt.
  destruct (load_wire host ct 0) as [E0 W0]; [lia | cbn; lia |].
  destruct (load_wire host ct 1) as [E1 W1]; [lia | cbn; lia |].
  rewrite E0, E1, W0, W1.
  unfold for_range. rewrite for_loop_nested, unrolled_rounds by assumption.
  rewrite rc5_decrypt_rounds by lia.
  change (Z.to_nat 0) with 0%nat; change (Z.to_nat 1) with 1%nat.
  destruct (rounds_back _ _ _ _) as [A B].
  rewrite deref_dec_at, deref_at by lia.
  rewrite !store_bswap_if_be by apply sub_is_WORD.
  replace (Z.to_nat (2 * r + 2)) with (2 * Z.to_nat r + 2)%nat by lia.
  rewrite downward_app. cbn [app downward]. rewrite <- !app_assoc. cbn [app].
  same_modulo_arith.
Qed.

(** A block of whole words is the words it holds, put on the wire in turn. *)
Lemma wire_two_words pt :
  length pt = (2 * wbytes)%nat -> wire (wire_word pt 0) ++ wire (wire_word pt 1) = pt.
Proof.
  intros H. rewrite !wire_chunk by (apply chunk_length; lia).
  unfold chunk. cbn [Nat.mul skipn]. rewrite Nat.add_0_r.
  rewrite (firstn_all2 (n := wbytes) (skipn wbytes pt))
    by (rewrite length_skipn; lia).
  apply firstn_skipn.
Qed.

(** Decryption of an encryption, on a table of the documented size. *)
Lemma rc5_decrypt_encrypt host rkey w r pt :
  valid_rounds r -> Z.of_nat (length rkey) = 2 * r + 2 ->
  length pt = (2 * wbytes)%nat ->
  exists ct walk walk',
    rc5_encrypt host rkey w r pt = Some (ct, walk)
    /\ rc5_decrypt host rkey w r ct = Some (pt, walk').
Proof.
  intros Hv Hk Hp. pose proof Hv as [Hr _].
  rewrite rc5_encrypt_run by assumption.
  pose proof (rc5_encrypt_spec_words rkey r (wire_word pt 0) (wire_word pt 1)) as Hw.
  assert (H0 : is_WORD (wire_word pt 0)) by (apply wire_word_is_WORD; lia).
  assert (H1 : is_WORD (wire_word pt 1)) by (apply wire_word_is_WORD; lia).
  remember (rc5_encrypt_spec rkey r (wire_word pt 0) (wire_word pt 1)) as X eqn:EX.
  destruct X as [A B]. destruct Hw as [HA HB]. cbn [fst snd] in *.
  do 3 eexists. split; [reflexivity |].
  rewrite rc5_decrypt_run; try assumption.
  2:{ rewrite length_app, !wire_length. lia. }
  unfold wire_word.
  rewrite chunk_app_next, chunk_app_here by apply wire_length.
  replace (chunk (wire B) 0) with (wire B)
    by (symmetry; rewrite <- (app_nil_r (wire B)) at 1; apply chunk_app_here, wire_length).
  rewrite !wire_word_wire by assumption.
  unfold rc5_encrypt_spec in EX.
  pose proof (rounds_back_rounds word_pair (rc5_round_spec rkey) (rc5_round_back rkey)
                (rc5_round_spec_words rkey) (rc5_round_back_spec rkey)
                (Z.to_nat r) 0
                (add (wire_word pt 0) (S_at rkey 0), add (wire_word pt 1) (S_at rkey 1))) as RT.
  rewrite <- EX in RT. replace (0 + Z.of_nat (Z.to_nat r)) with r in RT by lia.
  rewrite RT by (split; apply add_is_WORD).
  rewrite !sub_add by assumption.
  rewrite wire_two_words by assumption. reflexivity.
Qed.

(** ** RC6 *)

Lemma f_is_WORD x : is_WORD (f x).
Proof. apply rotl_is_WORD. Qed.

Lemma rc6_round_spec_words rkey k s : word_quad s -> word_quad (rc6_round_spec rkey k s).
Proof.
  destruct s as [[[A B] C] D]; intros (HA & HB & HC & HD).
  split_quad; assumption || apply add_is_WORD.
Qed.

Lemma rc6_round_back_words rkey k s : word_quad s -> word_quad (rc6_round_back rkey k s).
Proof.
  destruct s as [[[A B] C] D]; intros (HA & HB & HC & HD).
  split_quad; try assumption;
    apply lxor_is_WORD; apply rotr_is_WORD || apply f_is_WORD.
Qed.

Lemma rc6_round_back_spec rkey k s :
  word_quad s -> rc6_round_back rkey k (rc6_round_spec rkey k s) = s.
Proof.
  destruct s as [[[A B] C] D]; intros (HA & HB & HC & HD).
  unfold rc6_round_back, rc6_round_spec.
  rewrite !sub_add by apply rotl_is_WORD.
  rewrite !rotr_rotl
    by (apply lxor_is_WORD || apply rotate_amount; assumption || apply f_is_WORD).
  rewrite !lxor_cancel. reflexivity.
Qed.

Lemma rounds_back_invariant {St : Type} (Inv : St -> Prop) (step : Z -> St -> St) :
  (forall k s, Inv s -> Inv (step k s)) ->
  forall n round s, Inv s -> Inv (rounds_back n round step s).
Proof.
  intros Hstep n; induction n as [| n IH]; intros round s Hs; cbn; auto.
Qed.

Lemma rc6_encrypt_rounds rkey n : forall round A B C D v i,
  0 <= round -> 2 * (round + Z.of_nat n) + 2 <= Z.of_nat (length rkey) ->
  for_loop n i (fun _ => rc6_encrypt_round rkey)
           (A, B, C, D, Cursor (2 * round + 2) v)
  = Some (rounds n round (rc6_round_spec rkey) (A, B, C, D),
          Cursor (2 * (round + Z.of_nat n) + 2)
                 (v ++ upward (2 * n) (2 * round + 2))).
Proof.
  induction n as [| n IH]; intros round A B C D v i Hr Hl.
  - cbn. now rewrite app_nil_r, Z.add_0_r.
  - cbn [for_loop]. unfold rc6_encrypt_round at 1.
    rewrite !deref_inc_at by lia.
    replace (2 * round + 2 + 1 + 1) with (2 * (round + 1) + 2) by lia.
    rewrite IH by lia.
    replace (2 * S n)%nat with (2 + 2 * n)%nat by lia.
    rewrite upward_app, app_assoc. cbn [upward rounds app rc6_round_spec].
    unfold f. rewrite <- LGW_log2.
    rewrite <- !app_assoc. cbn [app]. same_modulo_arith.
Qed.

Lemma rc6_decrypt_rounds rkey n : forall round A B C D v i,
  0 <= round - Z.of_nat n -> 2 * round + 2 <= Z.of_nat (length rkey) ->
  for_loop n i (fun _ => rc6_decrypt_round rkey)
           (A, B, C, D, Cursor (2 * round + 1) v)
  = Some (rounds_back n round (rc6_round_back rkey) (A, B, C, D),
          Cursor (2 * (round - Z.of_nat n) + 1)
                 (v ++ downward (2 * n) (2 * round + 1))).
Proof.
  induction n as [| n IH]; intros round A B C D v i Hr Hl.
  - cbn. now rewrite app_nil_r, Z.sub_0_r.
  - cbn [for_loop]. unfold rc6_decrypt_round at 1.
    rewrite !deref_dec_at by lia.
    replace (2 * round + 1 - 1 - 1) with (2 * (round - 1) + 1) by lia.
    rewrite IH by lia.
    replace (2 * S n)%nat with (2 + 2 * n)%nat by lia.
    rewrite downward_app, app_assoc. cbn [downward rounds_back app rc6_round_back].
    unfold f. rewrite <- LGW_log2.
    rewrite <- !app_assoc. cbn [app]. same_modulo_arith.
Qed.

Lemma rc6_rounds_words rkey n p0 p1 p2 p3 :
  is_WORD p0 -> is_WORD p2 ->
  word_quad (rounds n 0 (rc6_round_spec rkey)
                    (p0, add p1 (S_at rkey 0), p2, add p3 (S_at rkey 1))).
Proof.
  intros H0 H2. apply rounds_invariant; [apply rc6_round_spec_words |].
  split_quad; assumption || apply add_is_WORD.
Qed.

Lemma rc6_encrypt_run host rkey w r pt :
  valid_rounds r -> Z.of_nat (length rkey) = 2 * r + 4 ->
  length pt = (4 * wbytes)%nat ->
  rc6_encrypt host rkey w r pt
  = let '(A, B, C, D) := rc6_encrypt_spec rkey r (wire_word pt 0) (wire_word pt 1)
                                          (wire_word pt 2) (wire_word pt 3) in
    Some (wire A ++ wire B ++ wire C ++ wire D,
          Cursor (2 * r + 3) (upward (Z.to_nat (2 * r + 4)) 0)).
Proof.
  intros Hv Hk Hp. pose proof Hv as [Hr _]. unfold rc6_encrypt.
  destruct (load_wire host pt 0) as [E0 W0]; [lia | cbn; lia |].
  destruct (load_wire host pt 1) as [E1 W1]; [lia | cbn; lia |].
  destruct (load_wire host pt 2) as [E2 W2]; [lia | cbn; lia |].
  destruct (load_wire host pt 3) as [E3 W3]; [lia | cbn; lia |].
  rewrite E0, E1, E2, E3, W0, W1, W2, W3, !deref_inc_at by lia.
  unfold for_range. rewrite for_loop_nested, unrolled_rounds by assumption.
  change (0 + 1 + 1) with (2 * 0 + 2).
  rewrite rc6_encrypt_rounds by lia.
  change (Z.to_nat 0) with 0%nat; change (Z.to_nat 1) with 1%nat;
    change (Z.to_nat 2) with 2%nat; change (Z.to_nat 3) with 3%nat.
  pose proof (rc6_rounds_words rkey (Z.to_nat r) (wire_word pt 0) (wire_word pt 1)
                (wire_word pt 2) (wire_word pt 3)) as Hw.
  unfold rc6_encrypt_spec.
  destruct (rounds _ _ _ _) as [[[A B] C] D].
  destruct Hw as (HA & HB & HC & HD); try (apply wire_word_is_WORD; lia).
  rewrite deref_inc_at, deref_at by lia.
  rewrite !store_bswap_if_be by (assumption || apply add_is_WORD).
  replace (Z.to_nat (2 * r + 4)) with (2 + 2 * Z.to_nat r + 2)%nat by lia.
  rewrite !upward_app. cbn [app upward]. rewrite <- !app_assoc. cbn [app].
  same_modulo_arith.
Qed.

Lemma rc6_decrypt_run host rkey w r ct :
  valid_rounds r -> Z.of_nat (length rkey) = 2 * r + 4 ->
  length ct = (4 * wbytes)%nat ->
  rc6_decrypt host rkey w r ct
  = let '(A, B, C, D) :=
      rounds_back (Z.to_nat r) r (rc6_round_back rkey)
        (sub (wire_word ct 0) (S_at rkey (2 * r + 2)), wire_word ct 1,
         sub (wire_word ct 2) (S_at rkey (2 * r + 3)), wire_word ct 3) in
    Some (wire A ++ wire (sub B (S_at rkey 0)) ++ wire C ++ wire (sub D (S_at rkey 1)),
          Cursor 0 (downward (Z.to_nat (2 * r + 4)) (2 * r + 3))).
Proof.
  intros Hv Hk Hp. pose proof Hv as [Hr _]. unfold rc6_decrypt.
  destruct (load_wire host ct 0) as [E0 W0]; [lia | cbn; lia |].
  destruct (load_wire host ct 1) as [E1 W1]; [lia | cbn; lia |].
  destruct (load_wire host ct 2) as [E2 W2]; [lia | cbn; lia |].
  destruct (load_wire host ct 3) as [E3 W3]; [lia | cbn; lia |].
  rewrite E0, E1, E2, E3, W0, W1, W2, W3, !deref_dec_at by lia.
  unfold for_range. rewrite for_loop_nested, unrolled_rounds by assumption.
  replace (2 * r + 3 - 1 - 1) with (2 * r + 1) by lia.
  rewrite rc6_decrypt_rounds by lia.
  change (Z.to_nat 0) with 0%nat; change (Z.to_nat 1) with 1%nat;
    change (Z.to_nat 2) with 2%nat; change (Z.to_nat 3) with 3%nat.
  assert (Hw : word_quad (rounds_back (Z.to_nat r) r (rc6_round_back rkey)
        (sub (wire_word ct 0) (S_at rkey (2 * r + 2)), wire_word ct 1,
         sub (wire_word ct 2) (S_at rkey (2 * r + 3)), wire_word ct 3))).
  { apply rounds_back_invariant; [apply rc6_round_back_words |].
    split_quad; apply sub_is_WORD || (apply wire_word_is_WORD; lia). }
  replace (2 * r + 3 - 1) with (2 * r + 2) by lia.
  destruct (rounds_back _ _ _ _) as [[[A B] C] D].
  destruct Hw as (HA & HB & HC & HD).
  rewrite deref_dec_at, deref_at by lia.
  rewrite !store_bswap_if_be by (assumption || apply sub_is_WORD).
  replace (Z.to_nat (2 * r + 4)) with (2 + 2 * Z.to_nat r + 2)%nat by lia.
  rewrite !downward_app. cbn [app downward]. rewrite <- !app_assoc. cbn [app].
  same_modulo_arith.
Qed.

Lemma wire_four_words pt :
  length pt = (4 * wbytes)%nat ->
  wire (wire_word pt 0) ++ wire (wire_word pt 1)
  ++ wire (wire_word pt 2) ++ wire (wire_word pt 3) = pt.
Proof.
  intros H. rewrite !wire_chunk by (apply chunk_length; lia).
  rewrite <- (chunks_concat 4 pt H) at 5. cbn [seq map concat].
  now rewrite app_nil_r.
Qed.

Lemma rc6_decrypt_encrypt host rkey w r pt :
  valid_rounds r -> Z.of_nat (length rkey) = 2 * r + 4 ->
  length pt = (4 * wbytes)%nat ->
  exists ct walk walk',
    rc6_encrypt host rkey w r pt = Some (ct, walk)
    /\ rc6_decrypt host rkey w r ct = Some (pt, walk').
Proof.
  intros Hv Hk Hp. pose proof Hv as [Hr _].
  rewrite rc6_encrypt_run by assumption.
  assert (H0 : is_WORD (wire_word pt 0)) by (apply wire_word_is_WORD; lia).
  assert (H1 : is_WORD (wire_word pt 1)) by (apply wire_word_is_WORD; lia).
  assert (H2 : is_WORD (wire_word pt 2)) by (apply wire_word_is_WORD; lia).
  assert (H3 : is_WORD (wire_word pt 3)) by (apply wire_word_is_WORD; lia).
  pose proof (rc6_rounds_words rkey (Z.to_nat r) (wire_word pt 0) (wire_word pt 1)
                (wire_word pt 2) (wire_word pt 3) H0 H2) as Hw.
  pose proof (rounds_back_rounds word_quad (rc6_round_spec rkey) (rc6_round_back rkey)
                (rc6_round_spec_words rkey) (rc6_round_back_spec rkey)
                (Z.to_nat r) 0
                (wire_word pt 0, add (wire_word pt 1) (S_at rkey 0),
                 wire_word pt 2, add (wire_word pt 3) (S_at rkey 1))) as RT.
  replace (0 + Z.of_nat (Z.to_nat r)) with r in RT by lia.
  unfold rc6_encrypt_spec.
  destruct (rounds _ _ _ _) as [[[A B] C] D].
  destruct Hw as (HA & HB & HC & HD).
  do 3 eexists. split; [reflexivity |].
  rewrite rc6_decrypt_run; try assumption.
  2:{ rewrite !length_app, !wire_length. lia. }
  rewrite !wire_word_next, !wire_word_here, wire_word_last
    by (assumption || apply add_is_WORD).
  rewrite !sub_add by assumption.
  rewrite RT by (split_quad; assumption || apply add_is_WORD).
  rewrite !sub_add by assumption.
  rewrite wire_four_words by assumption. reflexivity.
Qed.

(** ** The key schedule *)

Lemma peek_app_at {A : Type} (pre : list A) x rest :
  peek (pre ++ x :: rest) (Z.of_nat (length pre)) = Some x.
Proof.
  unfold peek. destruct (Z.ltb_spec (Z.of_nat (length pre)) 0); [lia |].
  rewrite Nat2Z.id, nth_error_app2, Nat.sub_diag by lia. reflexivity.
Qed.

Lemma poke_app_at {A : Type} (pre : list A) x rest v :
  poke (pre ++ x :: rest) (Z.of_nat (length pre)) v = Some (pre ++ v :: rest).
Proof.
  unfold poke. rewrite length_app. cbn [length].
  destruct (Z.leb_spec 0 (Z.of_nat (length pre))); [| lia].
  destruct (Z.ltb_spec (Z.of_nat (length pre)) (Z.of_nat (length pre + S (length rest))));
    [| lia].
  cbn [andb]. rewrite Nat2Z.id. do 2 f_equal.
  - rewrite firstn_app, Nat.sub_diag, firstn_all. cbn. apply app_nil_r.
  - f_equal. replace (S (length pre)) with (length pre + 1)%nat by lia.
    rewrite skipn_app, skipn_all2 by lia.
    replace (length pre + 1 - length pre)%nat with 1%nat by lia. reflexivity.
Qed.

(** Any index inside a list splits it there. *)
Lemma split_at {A : Type} (a : list A) (i : Z) :
  0 <= i < Z.of_nat (length a) ->
  exists pre x rest, a = pre ++ x :: rest /\ Z.of_nat (length pre) = i.
Proof.
  intros H. exists (firstn (Z.to_nat i) a).
  destruct (skipn (Z.to_nat i) a) as [| x rest] eqn:E.
  - apply (f_equal (@length A)) in E. rewrite length_skipn in E. cbn in E. lia.
  - exists x, rest. split.
    + rewrite <- E. symmetry; apply firstn_skipn.
    + rewrite length_firstn. lia.
Qed.

Lemma length_upd a i v : 0 <= i < Z.of_nat (length a) -> length (upd a i v) = length a.
Proof.
  intros H. unfold upd. rewrite length_app. cbn [length].
  rewrite length_firstn, length_skipn. lia.
Qed.

Lemma peek_framed a behind i :
  0 <= i < Z.of_nat (length a) -> peek (a ++ behind) i = Some (S_at a i).
Proof.
  intros H. unfold peek, S_at. destruct (Z.ltb_spec i 0); [lia |].
  rewrite nth_error_app1 by lia. apply nth_error_nth'. lia.
Qed.

Lemma poke_framed a behind i v :
  0 <= i < Z.of_nat (length a) -> poke (a ++ behind) i v = Some (upd a i v ++ behind).
Proof.
  intros H. destruct (split_at a i H) as (pre & x & rest & -> & <-).
  rewrite <- app_assoc. cbn [app]. rewrite poke_app_at.
  unfold upd. rewrite Nat2Z.id.
  rewrite firstn_app, Nat.sub_diag, firstn_all. cbn [firstn]. rewrite app_nil_r.
  replace (S (length pre)) with (length pre + 1)%nat by lia.
  rewrite skipn_app, skipn_all2 by lia.
  replace (length pre + 1 - length pre)%nat with 1%nat by lia.
  cbn [skipn app]. now rewrite <- app_assoc.
Qed.

(** The loop that fills [S] with constants. *)
Lemma fill_loop n : forall (pre : list Z) x mid behind i,
  length mid = n -> i = Z.of_nat (length pre) + 1 ->
  for_loop n i (fun i T => x <- peek T (i - 1) ;; poke T i (add x (Q ws)))
           (pre ++ x :: mid ++ behind)
  = Some (pre ++ x :: S_fill n (add x (Q ws)) ++ behind).
Proof.
  induction n as [| n IH]; intros pre x mid behind i Hm Hi.
  - destruct mid; [reflexivity | discriminate].
  - destruct mid as [| y mid]; [discriminate |]. cbn [for_loop].
    replace (i - 1) with (Z.of_nat (length pre)) by lia.
    rewrite peek_app_at.
    replace (pre ++ x :: (y :: mid) ++ behind)
      with ((pre ++ [x]) ++ y :: mid ++ behind) by (now rewrite <- app_assoc).
    replace i with (Z.of_nat (length (pre ++ [x])))
      by (rewrite length_app; cbn; lia).
    rewrite poke_app_at.
    rewrite IH; [| now inversion Hm | rewrite length_app; cbn; lia].
    rewrite <- app_assoc. reflexivity.
Qed.

Lemma length_S_fill n s : length (S_fill n s) = n.
Proof. revert s; induction n; intros; cbn; auto. Qed.

(** One pass of the mixing loop on the arrays in memory is one mixing
    iteration on their used parts. *)
Lemma mix_body_framed S_words L_words behind_S behind_L m :
  mix_ok S_words L_words m -> 0 < S_words -> 0 < L_words ->
  mix_body S_words L_words (framed behind_S behind_L m)
  = Some (framed behind_S behind_L (mix_spec S_words L_words m))
  /\ mix_ok S_words L_words (mix_spec S_words L_words m).
Proof.
  intros (HS & HL & Hi & Hj) HSw HLw.
  destruct m as [S0 L0 A B i j]; cbn [mix_S mix_L mix_i mix_j] in *.
  unfold mix_body, mix_spec, framed, mix_ok;
    cbn [mix_S mix_L mix_A mix_B mix_i mix_j].
  set (i' := if i =? S_words then 0 else i).
  set (j' := if j =? L_words then 0 else j).
  assert (Hi' : 0 <= i' < Z.of_nat (length S0))
    by (subst i'; destruct (Z.eqb_spec i S_words); lia).
  assert (Hj' : 0 <= j' < Z.of_nat (length L0))
    by (subst j'; destruct (Z.eqb_spec j L_words); lia).
  rewrite !peek_framed, !poke_framed by assumption.
  rewrite !length_upd by assumption.
  split; [reflexivity | lia].
Qed.

Lemma mix_loop_framed S_words L_words behind_S behind_L n : forall m k,
  mix_ok S_words L_words m -> 0 < S_words -> 0 < L_words ->
  for_loop n k (fun _ => mix_body S_words L_words) (framed behind_S behind_L m)
  = Some (framed behind_S behind_L
            (rounds n 0 (fun _ => mix_spec S_words L_words) m)).
Proof.
  induction n as [| n IH]; intros m k Hm HS HL; [reflexivity |].
  destruct (mix_body_framed S_words L_words behind_S behind_L m Hm HS HL) as [E Hm'].
  cbn [for_loop rounds]. rewrite E, (IH _ _ Hm' HS HL).
  do 2 f_equal. apply rounds_counter.
Qed.

Lemma L_words_of_spec b : 0 <= b -> L_words_of b = L_words_spec b.
Proof.
  intros Hb. unfold L_words_of, L_words_spec, ceil_div, max.
  destruct ws; cbn [sizeof_WORD];
    match goal with |- context [?a mod ?d =? 0] => destruct (Z.eqb_spec (a mod d) 0) end;
    match goal with |- context [?a >? ?d] => destruct (Z.gtb_spec a d) end;
    Z.div_mod_to_equations; lia.
Qed.

Lemma L_words_bounds b :
  0 <= b <= 255 ->
  1 <= L_words_of b
  /\ (L_words_of b - 1) * sizeof_WORD ws <= b <= L_words_of b * sizeof_WORD ws
  /\ L_words_of b * sizeof_WORD ws <= 256.
Proof.
  intros Hb. unfold L_words_of, max.
  destruct ws; cbn [sizeof_WORD];
    match goal with |- context [?a >? ?d] => destruct (Z.gtb_spec a d) end;
    Z.div_mod_to_equations; lia.
Qed.

Lemma firstn_app_at {A : Type} (pre rest : list A) n :
  firstn (length pre + n) (pre ++ rest) = pre ++ firstn n rest.
Proof. apply firstn_app_2. Qed.

Lemma skipn_app_at {A : Type} (pre rest : list A) n :
  skipn (length pre + n) (pre ++ rest) = skipn n rest.
Proof.
  rewrite skipn_app, skipn_all2 by lia. cbn [app]. f_equal. lia.
Qed.

Lemma firstn_app_exact {A : Type} (pre rest : list A) :
  firstn (length pre) (pre ++ rest) = pre.
Proof.
  rewrite <- (Nat.add_0_r (length pre)), firstn_app_at. cbn. apply app_nil_r.
Qed.

Lemma skipn_app_exact {A : Type} (pre rest : list A) :
  skipn (length pre) (pre ++ rest) = rest.
Proof. rewrite <- (Nat.add_0_r (length pre)) at 1. apply skipn_app_at. Qed.

(** The loop that copies the key into [L] byte by byte. *)
Lemma copy_loop (key : list byte) n : forall i (L : list byte),
  (i + n <= length key)%nat -> (i + n <= length L)%nat ->
  for_loop n (Z.of_nat i) (fun i L => c <- peek key i ;; poke L i c) L
  = Some (firstn i L ++ firstn n (skipn i key) ++ skipn (i + n) L).
Proof.
  induction n as [| n IH]; intros i L Hk HL.
  - cbn [for_loop firstn app]. rewrite Nat.add_0_r, firstn_skipn. reflexivity.
  - destruct (split_at key (Z.of_nat i)) as (kp & c & kr & -> & Ek); [lia |].
    destruct (split_at L (Z.of_nat i)) as (lp & y & lr & -> & El); [lia |].
    apply Nat2Z.inj in Ek, El. subst i. rewrite <- El in *.
    cbn [for_loop]. rewrite El at 1. rewrite peek_app_at, poke_app_at.
    replace (Z.of_nat (length lp) + 1) with (Z.of_nat (S (length lp))) by lia.
    rewrite length_app in Hk, HL. cbn [length] in Hk, HL.
    rewrite IH by (rewrite length_app; cbn [length]; lia).
    replace (S (length lp)) with (length lp + 1)%nat by lia.
    rewrite <- !Nat.add_assoc.
    rewrite !firstn_app_at, !skipn_app_at, firstn_app_exact.
    rewrite El at 1 2. rewrite skipn_app_at, skipn_app_exact.
    cbn [firstn skipn Nat.add]. rewrite <- !app_assoc. reflexivity.
Qed.

(** The loop that puts the words of [L] in little-endian reading. *)
Lemma convert_loop (g : Z -> Z) n : forall i (L : list Z),
  (i + n <= length L)%nat ->
  for_loop n (Z.of_nat i) (fun i L => x <- peek L i ;; poke L i (g x)) L
  = Some (firstn i L ++ map g (firstn n (skipn i L)) ++ skipn (i + n) L).
Proof.
  induction n as [| n IH]; intros i L HL.
  - cbn [for_loop firstn map app]. rewrite Nat.add_0_r, firstn_skipn. reflexivity.
  - destruct (split_at L (Z.of_nat i)) as (lp & y & lr & -> & El); [lia |].
    apply Nat2Z.inj in El. subst i.
    cbn [for_loop]. rewrite peek_app_at, poke_app_at.
    replace (Z.of_nat (length lp) + 1) with (Z.of_nat (S (length lp))) by lia.
    rewrite length_app in HL. cbn [length] in HL.
    rewrite IH by (rewrite length_app; cbn [length]; lia).
    replace (S (length lp)) with (length lp + 1)%nat by lia.
    rewrite <- !Nat.add_assoc.
    rewrite !firstn_app_at, !skipn_app_at, firstn_app_exact, skipn_app_exact.
    cbn [firstn skipn map Nat.add]. rewrite <- !app_assoc. reflexivity.
Qed.

Lemma L_words_nat b :
  0 <= b <= 255 ->
  (1 <= Z.to_nat (L_words_of b)
   /\ wbytes <= Z.to_nat (L_words_of b) * wbytes
   /\ Z.to_nat (L_words_of b) * wbytes - wbytes <= Z.to_nat b
   /\ Z.to_nat b <= Z.to_nat (L_words_of b) * wbytes
   /\ Z.to_nat (L_words_of b) * wbytes <= 256)%nat.
Proof.
  intros Hb. pose proof (L_words_bounds b Hb) as H. revert H.
  unfold wbytes. generalize (L_words_of b) as n.
  destruct ws; cbn [sizeof_WORD]; intros n H; lia.
Qed.

Lemma rev_repeat {A : Type} (a : A) n : rev (repeat a n) = repeat a n.
Proof.
  induction n as [| n IH]; [reflexivity |].
  cbn [repeat rev]. rewrite IH. symmetry. apply repeat_cons.
Qed.

Lemma le_encode_zero n : le_encode n 0 = repeat x00 n.
Proof. induction n as [| n IH]; [reflexivity |]. cbn [le_encode repeat]. now rewrite Zdiv_0_l, IH. Qed.

Lemma store_zero host : store host 0 = repeat x00 wbytes.
Proof.
  unfold store, encode. rewrite le_encode_zero.
  destruct host; [reflexivity | apply rev_repeat].
Qed.

Lemma chunk_app_inside p t k :
  ((k + 1) * wbytes <= length p)%nat -> chunk (p ++ t) k = chunk p k.
Proof.
  intros H. unfold chunk.
  rewrite skipn_app, firstn_app, length_skipn.
  replace (k * wbytes - length p)%nat with 0%nat by lia.
  replace (wbytes - (length p - k * wbytes))%nat with 0%nat by lia.
  cbn [skipn firstn]. apply app_nil_r.
Qed.

Lemma firstn_map_seq {A : Type} (F : nat -> A) n N :
  (n <= N)%nat -> firstn n (map F (seq 0 N)) = map F (seq 0 n).
Proof.
  intros H. replace N with (n + (N - n))%nat by lia.
  rewrite seq_app, map_app, firstn_app, length_map, length_seq, Nat.sub_diag.
  rewrite firstn_all2 by (rewrite length_map, length_seq; lia).
  cbn [firstn]. apply app_nil_r.
Qed.

(** What the array [L] holds when the mixing loop starts: the key
    material of the specification in its first [L_words] words. *)
Lemma key_words_run host junk b key :
  0 <= b <= 255 -> b <= Z.of_nat (length key) ->
  exists behind,
    key_words host junk b key = Some (key_material_spec b key ++ behind).
Proof.
  intros Hb Hk. unfold key_words, key_material_spec.
  rewrite <- L_words_of_spec by lia.
  destruct (L_words_nat b Hb) as (N1 & N5 & N2 & N3 & N4).
  pose proof (L_words_bounds b Hb) as (Z1 & _).
  set (nw := Z.to_nat (L_words_of b)) in *.
  set (nb := Z.to_nat b) in *.
  set (L0 := map junk (seq 0 256)).
  assert (HL0 : length L0 = 256%nat) by (subst L0; now rewrite length_map, length_seq).
  (* L[L_words-1] = 0 *)
  unfold store_at.
  replace (Z.to_nat (L_words_of b - 1) + 1)%nat with nw by lia.
  destruct (Z.leb_spec 0 (L_words_of b - 1)); [| lia].
  rewrite HL0. destruct (Nat.leb_spec (nw * wbytes) 256); [| lia]. cbn [andb].
  replace (Z.to_nat (L_words_of b - 1) * wbytes)%nat with (nw * wbytes - wbytes)%nat
    by (replace (Z.to_nat (L_words_of b - 1)) with (nw - 1)%nat by lia;
        rewrite Nat.mul_sub_distr_r; lia).
  rewrite store_zero.
  set (pre := firstn (nw * wbytes - wbytes) L0).
  assert (Hpre : length pre = (nw * wbytes - wbytes)%nat)
    by (subst pre; rewrite length_firstn; lia).
  set (tl := skipn (nw * wbytes) L0).
  (* the byte copy *)
  unfold for_range. replace (Z.to_nat (b - 0)) with nb by lia.
  change 0 with (Z.of_nat 0) at 1.
  rewrite copy_loop;
    [| lia | rewrite !length_app, repeat_length, Hpre; subst tl;
             rewrite length_skipn; lia].
  cbn [firstn skipn app Nat.add].
  assert (Hskip : skipn nb (pre ++ repeat x00 wbytes ++ tl)
                  = repeat x00 (nw * wbytes - nb) ++ tl).
  { replace nb with (length pre + (nb - length pre))%nat at 1 by lia.
    rewrite skipn_app_at.
    replace wbytes with ((nb - length pre) + (nw * wbytes - nb))%nat at 1 by lia.
    rewrite repeat_app, <- app_assoc.
    rewrite <- (repeat_length x00 (nb - length pre)) at 1.
    apply skipn_app_exact. }
  rewrite Hskip, app_assoc.
  set (padded := firstn nb key ++ repeat x00 (nw * wbytes - nb)).
  assert (Hpad : length padded = (nw * wbytes)%nat)
    by (subst padded; rewrite length_app, length_firstn, repeat_length; lia).
  assert (Htl : length tl = (256 - nw * wbytes)%nat)
    by (subst tl; rewrite length_skipn; lia).
  (* the words of L, its first L_words converted *)
  replace (Z.to_nat (L_words_of b - 0)) with nw by lia.
  change 0 with (Z.of_nat 0) at 1.
  assert (Hwords : (nw <= length (padded ++ tl) / wbytes)%nat).
  { rewrite length_app, Hpad, Htl.
    apply Nat.div_le_lower_bound; [pose proof wbytes_pos; lia | lia]. }
  rewrite convert_loop by (unfold words_of; rewrite length_map, length_seq; lia).
  cbn [firstn skipn app Nat.add].
  eexists. f_equal. f_equal.
  unfold words_of. rewrite firstn_map_seq, map_map by assumption.
  apply map_ext_in. intros k Hin. apply in_seq in Hin.
  assert (Hk1 : ((k + 1) * wbytes <= nw * wbytes)%nat)
    by (apply Nat.mul_le_mono_r; lia).
  rewrite chunk_app_inside by lia.
  apply bswap_if_be_decode, chunk_length. lia.
Qed.

Lemma length_key_material_spec b key :
  Z.of_nat (length (key_material_spec b key)) = L_words_spec b.
Proof.
  unfold key_material_spec. rewrite length_map, length_seq.
  unfold L_words_spec. lia.
Qed.

Lemma max_is_Zmax a b : max a b = Z.max a b.
Proof. unfold max. destruct (Z.gtb_spec a b); lia. Qed.

(** The test that opens [setup]. *)
Lemma guard_unsupported w r b :
  negb (WORD_SZ ws =? w) || (b <? 0) || (b >? 255)
  || (r <? 0) || (r >? 255) || negb (Z.rem r 4 =? 0) = true
  <-> unsupported w r b.
Proof.
  unfold unsupported.
  rewrite !orb_true_iff, !negb_true_iff, !Z.eqb_neq, !Z.ltb_lt, !Z.gtb_gt.
  intuition lia.
Qed.

Lemma setup_unsupported host junk S0 S_words w r b key :
  unsupported w r b -> setup host junk S0 S_words w r b key = Some (-1, S0).
Proof.
  intros H. apply guard_unsupported in H. unfold setup. now rewrite H.
Qed.

Lemma mix_spec_ok S_words L_words m :
  0 < S_words -> 0 < L_words ->
  mix_ok S_words L_words m -> mix_ok S_words L_words (mix_spec S_words L_words m).
Proof.
  intros HS HL Hm. apply (mix_body_framed S_words L_words [] [] m Hm HS HL).
Qed.

Lemma L_words_spec_pos b : 0 < L_words_spec b.
Proof. unfold L_words_spec. lia. Qed.

Lemma key_schedule_start_ok S_words b key :
  0 < S_words ->
  mix_ok S_words (L_words_spec b)
         (Mixer (S_fill (Z.to_nat S_words) (P ws)) (key_material_spec b key) 0 0 0 0).
Proof.
  intros HS. pose proof (L_words_spec_pos b). split_quad; cbn [mix_S mix_L mix_i mix_j].
  - rewrite length_S_fill. lia.
  - apply length_key_material_spec.
  - lia.
  - lia.
Qed.

Lemma length_key_schedule_spec S_words b key :
  0 < S_words -> Z.of_nat (length (key_schedule_spec S_words b key)) = S_words.
Proof.
  intros HS. unfold key_schedule_spec.
  apply (rounds_invariant (mix_ok S_words (L_words_spec b))).
  - intros _ m. apply mix_spec_ok; [assumption | apply L_words_spec_pos].
  - now apply key_schedule_start_ok.
Qed.

(** What an accepted call of [setup] leaves in the memory it was given:
    the table of the specification in the first [S_words] words, and
    whatever lay behind them. *)
Lemma setup_run host junk S0 behind S_words w r b key :
  ~ unsupported w r b -> b <= Z.of_nat (length key) ->
  Z.of_nat (length S0) = S_words -> 0 < S_words ->
  setup host junk (S0 ++ behind) S_words w r b key
  = Some (0, key_schedule_spec S_words b key ++ behind).
Proof.
  intros Hok Hk HS0 HS. unfold setup.
  destruct (negb (WORD_SZ ws =? w) || (b <? 0) || (b >? 255)
            || (r <? 0) || (r >? 255) || negb (Z.rem r 4 =? 0)) eqn:G.
  { apply guard_unsupported in G. contradiction. }
  assert (Hb : 0 <= b <= 255) by (unfold unsupported in Hok; lia).
  destruct (key_words_run host junk b key Hb Hk) as [behind_L E]. rewrite E.
  destruct S0 as [| s0 mid]; [cbn in HS0; lia |].
  change ((s0 :: mid) ++ behind) with ([] ++ s0 :: mid ++ behind).
  change 0 with (Z.of_nat (length (@nil Z))) at 1. rewrite poke_app_at.
  unfold for_range.
  cbn [length] in HS0.
  rewrite (fill_loop (Z.to_nat (S_words - 1)) [] (P ws) mid behind 1)
    by (cbn [length]; lia).
  rewrite max_is_Zmax, L_words_of_spec by lia.
  replace (Z.to_nat (3 * Z.max (L_words_spec b) S_words - 0))
    with (Z.to_nat (3 * Z.max (L_words_spec b) S_words)) by lia.
  change (Mixer ([] ++ P ws :: S_fill (Z.to_nat (S_words - 1)) (add (P ws) (Q ws)) ++ behind)
                (key_material_spec b key ++ behind_L) 0 0 0 0)
    with (framed behind behind_L
            (Mixer (S_fill (S (Z.to_nat (S_words - 1))) (P ws))
                   (key_material_spec b key) 0 0 0 0)).
  replace (S (Z.to_nat (S_words - 1))) with (Z.to_nat S_words) by lia.
  rewrite mix_loop_framed;
    [reflexivity | now apply key_schedule_start_ok | assumption | apply L_words_spec_pos].
Qed.

(** An accepted call never returns the failure code. *)
Lemma setup_supported_not_failure host junk S0 S_words w r b key T :
  ~ unsupported w r b -> setup host junk S0 S_words w r b key <> Some (-1, T).
Proof.
  intros Hok. unfold setup.
  destruct (negb (WORD_SZ ws =? w) || (b <? 0) || (b >? 255)
            || (r <? 0) || (r >? 255) || negb (Z.rem r 4 =? 0)) eqn:G.
  { apply guard_unsupported in G. contradiction. }
  repeat match goal with
         | |- context [match ?x with Some _ => _ | None => _ end] => destruct x
         end; discriminate.
Qed.

Lemma le_decode_zeros n : le_decode (repeat x00 n) = 0.
Proof. induction n as [| n IH]; [reflexivity |]. cbn [repeat le_decode]. rewrite IH. reflexivity. Qed.

(** The empty key: one key word, zero, whatever the key buffer holds. *)
Lemma key_material_empty key : key_material_spec 0 key = [0].
Proof.
  unfold key_material_spec.
  assert (E : Z.to_nat (L_words_spec 0) = 1%nat).
  { unfold L_words_spec, ceil_div. destruct ws; reflexivity. }
  rewrite E. cbn [seq map firstn Z.to_nat app].
  rewrite Nat.mul_1_l, Nat.sub_0_r. unfold wire_word.
  rewrite <- (app_nil_r (repeat x00 wbytes)), chunk_app_here by apply repeat_length.
  now rewrite le_decode_zeros.
Qed.

Lemma Forall_upward n : forall lo, Forall (fun i => lo <= i < lo + Z.of_nat n) (upward n lo).
Proof.
  induction n as [| n IH]; intros lo; cbn [upward]; constructor; [lia |].
  eapply Forall_impl; [| apply IH]. cbn beta. intros; lia.
Qed.

Lemma Forall_downward n : forall hi, Forall (fun i => hi - Z.of_nat n < i <= hi) (downward n hi).
Proof.
  induction n as [| n IH]; intros hi; cbn [downward]; constructor; [lia |].
  eapply Forall_impl; [| apply IH]. cbn beta. intros; lia.
Qed.

Lemma valid_supported w r b :
  w = WORD_SZ ws -> valid_rounds r -> 0 <= b <= 255 -> ~ unsupported w r b.
Proof. unfold unsupported, valid_rounds. intros; lia. Qed.

(** ** The code against plain arithmetic *)

(** [rotl] is the rotation of the specification. *)
Lemma rotl_arith x d :
  is_WORD x -> 0 <= d < WORD_SZ ws -> rotl x d = rotate_left x d.
Proof.
  intros Hx Hd. unfold rotl, rotate_left, to_WORD.
  assert (Hp : 0 < 2 ^ (WORD_SZ ws - d)) by (apply Z.pow_pos_nonneg; lia).
  assert (Ht : 0 < 2 ^ d) by (apply Z.pow_pos_nonneg; lia).
  assert (HM : 2 ^ WORD_SZ ws = 2 ^ (WORD_SZ ws - d) * 2 ^ d).
  { rewrite <- Z.pow_add_r by lia. f_equal. lia. }
  unfold is_WORD in Hx. rewrite HM in Hx |- *.
  rewrite Z.shiftr_div_pow2 by lia.
  pose proof (Z.div_mod x (2 ^ (WORD_SZ ws - d)) ltac:(lia)) as E.
  pose proof (Z.mod_pos_bound x (2 ^ (WORD_SZ ws - d)) Hp) as Hl.
  set (p := 2 ^ (WORD_SZ ws - d)) in *. set (t := 2 ^ d) in *.
  set (a := x / p) in *. set (l := x mod p) in *.
  assert (Ha : 0 <= a < t).
  { subst a. split; [apply Z.div_pos; lia | apply Z.div_lt_upper_bound; lia]. }
  rewrite Z.lor_comm, (lor_shiftl_add a x d) by (fold t; lia).
  fold t. symmetry. apply Z.mod_unique_pos with (q := a).
  - split; [nia |].
    assert (l * t <= (p - 1) * t) by (apply Z.mul_le_mono_nonneg_r; lia). lia.
  - rewrite E at 1. ring.
Qed.

Lemma mul_arith x :
  mul x (add (mul 2 x) 1) = (x * (2 * x + 1)) mod 2 ^ WORD_SZ ws.
Proof.
  unfold mul, add, to_WORD.
  now rewrite Zplus_mod_idemp_l, Zmult_mod_idemp_r.
Qed.

Lemma add3_arith x y z : add (add x y) z = (x + y + z) mod 2 ^ WORD_SZ ws.
Proof. unfold add, to_WORD. now rewrite Zplus_mod_idemp_l. Qed.

(** The rotation amount [(A + B) mod W] is the same before and after the
    sum wraps, the width dividing [2^W]. *)
Lemma amount_arith x : add x 0 mod WORD_SZ ws = x mod WORD_SZ ws.
Proof.
  unfold add, to_WORD. rewrite Z.add_0_r. apply Z.mod_mod_divide.
  exists (2 ^ (WORD_SZ ws - LGW ws)). destruct ws; reflexivity.
Qed.

Lemma f_is_f_arith x : f x = f_arith x.
Proof.
  unfold f, f_arith. rewrite mul_arith. apply rotl_arith.
  - apply Z.mod_pos_bound, modulus_pos.
  - rewrite <- LGW_log2. destruct ws; cbn; lia.
Qed.

Lemma rounds_agree {St : Type} (Inv : St -> Prop) (step step' : Z -> St -> St) :
  (forall k s, Inv s -> Inv (step k s)) ->
  (forall k s, Inv s -> step k s = step' k s) ->
  forall n round s, Inv s -> rounds n round step s = rounds n round step' s.
Proof.
  intros Hinv Heq n; induction n as [| n IH]; intros round s Hs; [reflexivity |].
  cbn [rounds]. rewrite <- Heq by assumption. apply IH, Hinv, Hs.
Qed.

Lemma rc5_round_is_arith rkey k s :
  word_pair s -> rc5_round_spec rkey k s = rc5_round_arith rkey k s.
Proof.
  destruct s as [A B]; intros [HA HB]; cbn [fst snd] in *.
  unfold rc5_round_spec, rc5_round_arith.
  rewrite (rotl_arith (Z.lxor A B)) by (apply lxor_is_WORD || apply rotate_amount; assumption).
  unfold add at 1 2 4. unfold to_WORD.
  set (A' := (rotate_left (Z.lxor A B) (B mod WORD_SZ ws)
              + S_at rkey (2 * k + 2)) mod 2 ^ WORD_SZ ws).
  assert (HA' : is_WORD A') by (apply Z.mod_pos_bound, modulus_pos).
  rewrite (rotl_arith (Z.lxor B A')) by (apply lxor_is_WORD || apply rotate_amount; assumption).
  reflexivity.
Qed.

Lemma rc5_encrypt_is_arith rkey r p0 p1 :
  rc5_encrypt_spec rkey r p0 p1 = rc5_encrypt_arith rkey r p0 p1.
Proof.
  unfold rc5_encrypt_spec, rc5_encrypt_arith.
  apply (rounds_agree word_pair).
  - apply rc5_round_spec_words.
  - apply rc5_round_is_arith.
  - split; apply add_is_WORD.
Qed.

Lemma rc6_round_is_arith rkey k s :
  word_quad s -> rc6_round_spec rkey k s = rc6_round_arith rkey k s.
Proof.
  destruct s as [[[A B] C] D]; intros (HA & HB & HC & HD).
  unfold rc6_round_spec, rc6_round_arith.
  rewrite !rotl_arith
    by (apply lxor_is_WORD || apply rotate_amount; assumption || apply f_is_WORD).
  rewrite !f_is_f_arith. reflexivity.
Qed.

Lemma rc6_encrypt_is_arith rkey r p0 p1 p2 p3 :
  is_WORD p0 -> is_WORD p2 ->
  rc6_encrypt_spec rkey r p0 p1 p2 p3 = rc6_encrypt_arith rkey r p0 p1 p2 p3.
Proof.
  intros H0 H2. unfold rc6_encrypt_spec, rc6_encrypt_arith.
  rewrite (rounds_agree word_quad (rc6_round_spec rkey) (rc6_round_arith rkey)
             (rc6_round_spec_words rkey) (rc6_round_is_arith rkey));
    [reflexivity |].
  split_quad; assumption || apply add_is_WORD.
Qed.

Lemma S_fill_is_arith n s : S_fill n s = S_fill_arith n s.
Proof. revert s; induction n as [| n IH]; intros s; cbn; [reflexivity |]. now rewrite IH. Qed.

Lemma mix_is_arith S_words L_words m :
  mix_spec S_words L_words m = mix_arith S_words L_words m.
Proof.
  unfold mix_spec, mix_arith.
  set (i := if mix_i m =? S_words then 0 else mix_i m).
  set (j := if mix_j m =? L_words then 0 else mix_j m).
  rewrite !add3_arith.
  rewrite (rotl_arith _ 3)
    by (apply Z.mod_pos_bound, modulus_pos || (destruct ws; cbn; lia)).
  set (A := rotate_left ((S_at (mix_S m) i + mix_A m + mix_B m) mod 2 ^ WORD_SZ ws) 3).
  assert (Hamt : add A (mix_B m) mod WORD_SZ ws = (A + mix_B m) mod WORD_SZ ws).
  { rewrite <- (amount_arith (A + mix_B m)). unfold add. now rewrite Z.add_0_r. }
  rewrite Hamt.
  rewrite rotl_arith
    by (apply Z.mod_pos_bound; apply modulus_pos || apply WORD_SZ_pos).
  reflexivity.
Qed.

Lemma key_schedule_is_arith S_words b key :
  key_schedule_spec S_words b key = key_schedule_arith S_words b key.
Proof.
  unfold key_schedule_spec, key_schedule_arith.
  rewrite S_fill_is_arith. f_equal.
  generalize (Mixer (S_fill_arith (Z.to_nat S_words) (P ws))
                    (key_material_spec b key) 0 0 0 0).
  intros m. apply (rounds_agree (fun _ => True)); [trivial | | trivial].
  intros _ m' _. apply mix_is_arith.
Qed.

(** * What the specification states *)

(** C1. For valid parameters (the word width of the build, [r] in [0,255]
    and divisible by 4, [b] in [0,255]), any key of [b] bytes and any block
    (2 words for RC5, 4 for RC6), the table that setup produces decrypts the
    encryption of the block back to the block. *)
Theorem round_trip host junk rkey5 rkey6 w r b key pt5 pt6 :
  w = WORD_SZ ws -> valid_rounds r -> 0 <= b <= 255 ->
  b <= Z.of_nat (length key) ->
  Z.of_nat (length rkey5) = 2 * r + 2 -> Z.of_nat (length rkey6) = 2 * r + 4 ->
  length pt5 = (2 * wbytes)%nat -> length pt6 = (4 * wbytes)%nat ->
  (exists T ct walk walk',
      rc5_setup host junk rkey5 w r b key = Some (0, T)
      /\ rc5_encrypt host T w r pt5 = Some (ct, walk)
      /\ rc5_decrypt host T w r ct = Some (pt5, walk'))
  /\ (exists T ct walk walk',
      rc6_setup host junk rkey6 w r b key = Some (0, T)
      /\ rc6_encrypt host T w r pt6 = Some (ct, walk)
      /\ rc6_decrypt host T w r ct = Some (pt6, walk')).
Proof.
  intros Hw Hv Hb Hk H5 H6 Hp5 Hp6. pose proof Hv as [Hr _].
  pose proof (valid_supported w r b Hw Hv Hb) as Hok.
  split.
  - pose proof (setup_run host junk rkey5 [] (2 * r + 2) w r b key Hok Hk H5) as E.
    rewrite !app_nil_r in E.
    destruct (rc5_decrypt_encrypt host (key_schedule_spec (2 * r + 2) b key) w r pt5)
      as (ct & walk & walk' & He & Hd);
      [assumption | apply length_key_schedule_spec; lia | assumption |].
    exists (key_schedule_spec (2 * r + 2) b key), ct, walk, walk'.
    split; [apply E; lia | split; assumption].
  - pose proof (setup_run host junk rkey6 [] (2 * r + 4) w r b key Hok Hk H6) as E.
    rewrite !app_nil_r in E.
    destruct (rc6_decrypt_encrypt host (key_schedule_spec (2 * r + 4) b key) w r pt6)
      as (ct & walk & walk' & He & Hd);
      [assumption | apply length_key_schedule_spec; lia | assumption |].
    exists (key_schedule_spec (2 * r + 4) b key), ct, walk, walk'.
    split; [apply E; lia | split; assumption].
Qed.

(** C2. Setup, through [rc5_setup] or [rc6_setup], returns the failure
    code exactly when [w] is not the word width of the build, or [b] or [r]
    lies outside [0,255], or [r] is not divisible by 4; on every other input
    it succeeds (the caller having supplied a table of the documented size
    and a key buffer of [b] bytes). *)
Theorem setup_fails_iff_unsupported host junk rkey w r b key :
  (rc5_setup host junk rkey w r b key = Some (-1, rkey) <-> unsupported w r b)
  /\ (rc6_setup host junk rkey w r b key = Some (-1, rkey) <-> unsupported w r b)
  /\ (~ unsupported w r b -> b <= Z.of_nat (length key) ->
      (Z.of_nat (length rkey) = 2 * r + 2 ->
       exists T, rc5_setup host junk rkey w r b key = Some (0, T))
      /\ (Z.of_nat (length rkey) = 2 * r + 4 ->
          exists T, rc6_setup host junk rkey w r b key = Some (0, T))).
Proof.
  assert (D : unsupported w r b \/ ~ unsupported w r b).
  { destruct (negb (WORD_SZ ws =? w) || (b <? 0) || (b >? 255)
              || (r <? 0) || (r >? 255) || negb (Z.rem r 4 =? 0)) eqn:G.
    - left. now apply guard_unsupported.
    - right. intros U. apply guard_unsupported in U. congruence. }
  unfold rc5_setup, rc6_setup. split; [| split].
  - split; [| apply setup_unsupported].
    intros E. destruct D as [U | U]; [exact U |].
    now apply setup_supported_not_failure in E.
  - split; [| apply setup_unsupported].
    intros E. destruct D as [U | U]; [exact U |].
    now apply setup_supported_not_failure in E.
  - intros Hok Hk.
    assert (Hr : 0 <= r) by (unfold unsupported in Hok; lia).
    split; intros HS; eexists;
      rewrite <- (app_nil_r rkey); apply setup_run; assumption || lia.
Qed.

(** C3. A call of setup that fails leaves every word of the caller's
    table as it was. *)
Theorem setup_failure_leaves_table host junk rkey w r b key T :
  rc5_setup host junk rkey w r b key = Some (-1, T)
  \/ rc6_setup host junk rkey w r b key = Some (-1, T) ->
  T = rkey.
Proof.
  unfold rc5_setup, rc6_setup, setup.
  destruct (negb (WORD_SZ ws =? w) || (b <? 0) || (b >? 255)
            || (r <? 0) || (r >? 255) || negb (Z.rem r 4 =? 0)).
  - intros [E | E]; now inversion E.
  - intros [E | E]; exfalso; revert E;
      repeat match goal with
             | |- context [match ?x with Some _ => _ | None => _ end] => destruct x
             end; discriminate.
Qed.

(** C4. For valid parameters and any key, setup fills the table with
    [S[0] = P], [S[i] = S[i-1] + Q] (wraparound add), then runs exactly
    [3 * max(L_words, S_words)] mixing iterations from [A = B = 0],
    [i = j = 0], the cursors wrapping at [S_words] and [L_words], each
    iteration doing [A = S[i] = rotateLeft(S[i] + A + B, 3)] and then
    [B = L[j] = rotateLeft(L[j] + A + B, (A + B) mod W)]; RC5 and RC6 share the
    routine and differ in the table size, [2r+2] and [2r+4].  The right-hand
    side is [key_schedule_arith], in which sums are integer sums modulo
    [2^WORD_SZ] and [rotateLeft] is [rotate_left]. *)
Theorem setup_key_schedule host junk rkey w r b key :
  w = WORD_SZ ws -> valid_rounds r -> 0 <= b <= 255 ->
  b <= Z.of_nat (length key) ->
  (Z.of_nat (length rkey) = 2 * r + 2 ->
   rc5_setup host junk rkey w r b key
   = Some (0, key_schedule_arith (2 * r + 2) b key))
  /\ (Z.of_nat (length rkey) = 2 * r + 4 ->
      rc6_setup host junk rkey w r b key
      = Some (0, key_schedule_arith (2 * r + 4) b key)).
Proof.
  intros Hw Hv Hb Hk. pose proof Hv as [Hr _].
  pose proof (valid_supported w r b Hw Hv Hb) as Hok.
  unfold rc5_setup, rc6_setup.
  split; intros HS; rewrite <- (app_nil_r rkey);
    rewrite setup_run by (assumption || lia);
    now rewrite app_nil_r, key_schedule_is_arith.
Qed.

(** C5. With valid parameters the key material [L] is
    [max(1, ceil(b / wordBytes))] words: the [b] key bytes packed least
    significant byte first, the rest of the last word zero.  With [b = 0] it
    is the single word zero, and the table does not depend on what the key
    buffer holds. *)
Theorem key_material_packing host junk b key :
  0 <= b <= 255 -> b <= Z.of_nat (length key) ->
  (exists behind,
      key_words host junk b key = Some (key_material_spec b key ++ behind))
  /\ L_words_of b = Z.max 1 (ceil_div b (sizeof_WORD ws))
  /\ Z.of_nat (length (key_material_spec b key)) = L_words_of b
  /\ (b = 0 ->
      key_material_spec b key = [0]
      /\ forall host' junk' key' rkey S_words w r,
          Z.of_nat (length rkey) = S_words -> 0 < S_words ->
          setup host junk rkey S_words w r b key
          = setup host' junk' rkey S_words w r b key').
Proof.
  intros Hb Hk. split; [| split; [| split]].
  - now apply key_words_run.
  - rewrite L_words_of_spec by lia. reflexivity.
  - rewrite length_key_material_spec. symmetry. apply L_words_of_spec. lia.
  - intros ->. split; [apply key_material_empty |].
    intros host' junk' key' rkey S_words w r HS Hpos.
    destruct (negb (WORD_SZ ws =? w) || (0 <? 0) || (0 >? 255)
              || (r <? 0) || (r >? 255) || negb (Z.rem r 4 =? 0)) eqn:G.
    + apply guard_unsupported in G. now rewrite !setup_unsupported.
    + assert (Hok : ~ unsupported w r 0).
      { intros U. apply guard_unsupported in U. congruence. }
      rewrite <- (app_nil_r rkey).
      rewrite !setup_run by (assumption || lia).
      unfold key_schedule_spec. now rewrite !key_material_empty.
Qed.

(** C6. On a table of [2r+2] words and a block of two words [p0], [p1],
    [rc5_encrypt] starts from [A = p0 + S[0]], [B = p1 + S[1]], runs exactly
    [r] rounds, round [k] doing
    [A = rotateLeft(A xor B, B mod W) + S[2k+2]] then
    [B = rotateLeft(B xor A, A mod W) + S[2k+3]], reads the subkeys in
    increasing index order, and outputs [(A, B)]; with [r = 0] the output is
    [(p0 + S[0], p1 + S[1])].  The right-hand side is [rc5_encrypt_arith]:
    integer sums modulo [2^WORD_SZ] and [rotate_left]. *)
Theorem rc5_encrypt_rounds_by_index host rkey w r pt :
  valid_rounds r -> Z.of_nat (length rkey) = 2 * r + 2 ->
  length pt = (2 * wbytes)%nat ->
  (exists A B,
      rc5_encrypt_arith rkey r (wire_word pt 0) (wire_word pt 1) = (A, B)
      /\ rc5_encrypt host rkey w r pt
         = Some (wire A ++ wire B,
                 Cursor (2 * r + 2) (upward (Z.to_nat (2 * r + 2)) 0)))
  /\ (r = 0 ->
      exists walk,
        rc5_encrypt host rkey w r pt
        = Some (wire ((wire_word pt 0 + S_at rkey 0) mod 2 ^ WORD_SZ ws)
                ++ wire ((wire_word pt 1 + S_at rkey 1) mod 2 ^ WORD_SZ ws),
                walk)).
Proof.
  intros Hv Hk Hp. rewrite rc5_encrypt_run, rc5_encrypt_is_arith by assumption.
  split.
  - destruct (rc5_encrypt_arith rkey r (wire_word pt 0) (wire_word pt 1)) as [A B].
    exists A, B. split; reflexivity.
  - intros ->. eexists. reflexivity.
Qed.

(** C7. On a table of [2r+4] words and a block of four words,
    [rc6_encrypt] starts from [B = p1 + S[0]], [D = p3 + S[1]], [A = p0],
    [C = p2], runs exactly [r] rounds, each computing
    [t = rotateLeft(B * (2B + 1), log2 W)],
    [u = rotateLeft(D * (2D + 1), log2 W)],
    [A = rotateLeft(A xor t, u mod W) + S[2k+2]],
    [C = rotateLeft(C xor u, t mod W) + S[2k+3]] and then turning [(A,B,C,D)]
    into [(B,C,D,A)]; it ends with [A = A + S[2r+2]], [C = C + S[2r+3]] and
    outputs [(A, B, C, D)].  The right-hand side is [rc6_encrypt_arith]:
    integer sums and products modulo [2^WORD_SZ], [rotate_left] and
    [Z.log2]. *)
Theorem rc6_encrypt_rounds_by_index host rkey w r pt :
  valid_rounds r -> Z.of_nat (length rkey) = 2 * r + 4 ->
  length pt = (4 * wbytes)%nat ->
  exists A B C D,
    rc6_encrypt_arith rkey r (wire_word pt 0) (wire_word pt 1)
                      (wire_word pt 2) (wire_word pt 3) = (A, B, C, D)
    /\ rc6_encrypt host rkey w r pt
       = Some (wire A ++ wire B ++ wire C ++ wire D,
               Cursor (2 * r + 3) (upward (Z.to_nat (2 * r + 4)) 0)).
Proof.
  intros Hv Hk Hp. rewrite rc6_encrypt_run by assumption.
  rewrite rc6_encrypt_is_arith by (apply wire_word_is_WORD; lia).
  destruct (rc6_encrypt_arith rkey r (wire_word pt 0) (wire_word pt 1)
                              (wire_word pt 2) (wire_word pt 3)) as [[[A B] C] D].
  exists A, B, C, D. split; reflexivity.
Qed.

(** C8. On a table of 4 words, [rc6_encrypt] with [r = 0] outputs
    [(p0 + S[2], p1 + S[0], p2 + S[3], p3 + S[1])], the sums taken modulo
    [2^WORD_SZ]: positions 1 and 3 get the two opening additions, positions 0
    and 2 the two closing ones. *)
Theorem rc6_encrypt_zero_rounds host rkey w pt :
  length rkey = 4%nat -> length pt = (4 * wbytes)%nat ->
  exists walk,
    rc6_encrypt host rkey w 0 pt
    = Some (wire ((wire_word pt 0 + S_at rkey 2) mod 2 ^ WORD_SZ ws)
            ++ wire ((wire_word pt 1 + S_at rkey 0) mod 2 ^ WORD_SZ ws)
            ++ wire ((wire_word pt 2 + S_at rkey 3) mod 2 ^ WORD_SZ ws)
            ++ wire ((wire_word pt 3 + S_at rkey 1) mod 2 ^ WORD_SZ ws), walk).
Proof.
  intros Hk Hp.
  rewrite rc6_encrypt_run; [| split; [lia | reflexivity] | lia | assumption].
  rewrite rc6_encrypt_is_arith by (apply wire_word_is_WORD; lia).
  eexists. reflexivity.
Qed.

(** C9. For valid parameters, any key bytes and any block bytes, setup
    followed by encryption gives the same ciphertext bytes on a big-endian
    host, where [bswap_if_be] swaps the bytes of every word coming in and
    going out, as on a little-endian host, where it does nothing. *)
Theorem endianness_independence junk junk' rkey5 rkey6 w r b key pt5 pt6 :
  w = WORD_SZ ws -> valid_rounds r -> 0 <= b <= 255 ->
  b <= Z.of_nat (length key) ->
  Z.of_nat (length rkey5) = 2 * r + 2 -> Z.of_nat (length rkey6) = 2 * r + 4 ->
  length pt5 = (2 * wbytes)%nat -> length pt6 = (4 * wbytes)%nat ->
  (exists T T' ct walk walk',
      rc5_setup BigEndian junk rkey5 w r b key = Some (0, T)
      /\ rc5_setup LittleEndian junk' rkey5 w r b key = Some (0, T')
      /\ rc5_encrypt BigEndian T w r pt5 = Some (ct, walk)
      /\ rc5_encrypt LittleEndian T' w r pt5 = Some (ct, walk'))
  /\ (exists T T' ct walk walk',
      rc6_setup BigEndian junk rkey6 w r b key = Some (0, T)
      /\ rc6_setup LittleEndian junk' rkey6 w r b key = Some (0, T')
      /\ rc6_encrypt BigEndian T w r pt6 = Some (ct, walk)
      /\ rc6_encrypt LittleEndian T' w r pt6 = Some (ct, walk')).
Proof.
  intros Hw Hv Hb Hk H5 H6 Hp5 Hp6. pose proof Hv as [Hr _].
  pose proof (valid_supported w r b Hw Hv Hb) as Hok.
  unfold rc5_setup, rc6_setup.
  rewrite <- (app_nil_r rkey5), <- (app_nil_r rkey6).
  rewrite !setup_run by (assumption || lia). rewrite !app_nil_r.
  pose proof (length_key_schedule_spec (2 * r + 2) b key) as L5.
  pose proof (length_key_schedule_spec (2 * r + 4) b key) as L6.
  split.
  - exists (key_schedule_spec (2 * r + 2) b key), (key_schedule_spec (2 * r + 2) b key).
    rewrite !rc5_encrypt_run by (assumption || lia).
    do 3 eexists. repeat split; reflexivity.
  - exists (key_schedule_spec (2 * r + 4) b key), (key_schedule_spec (2 * r + 4) b key).
    rewrite !rc6_encrypt_run by (assumption || lia).
    destruct (rc6_encrypt_spec _ _ _ _ _ _) as [[[A B] C] D].
    do 3 eexists. repeat split; reflexivity.
Qed.

(** C10. Under the documented preconditions every access to the table is
    inside it: setup writes words [0 .. S_words-1] only; [rc5_encrypt] and
    [rc6_encrypt] read upward from index 0, to [2r+1] and [2r+3];
    [rc5_decrypt] starts at [2r+1] and [rc6_decrypt] at [2r+3], and each
    reads downward to index 0 and stops there. *)
Theorem table_accesses_in_bounds host junk rkey5 rkey6 behind w r b key blk5 blk6 :
  w = WORD_SZ ws -> valid_rounds r -> 0 <= b <= 255 ->
  b <= Z.of_nat (length key) ->
  Z.of_nat (length rkey5) = 2 * r + 2 -> Z.of_nat (length rkey6) = 2 * r + 4 ->
  length blk5 = (2 * wbytes)%nat -> length blk6 = (4 * wbytes)%nat ->
  (exists T5 T6,
      rc5_setup host junk (rkey5 ++ behind) w r b key = Some (0, T5 ++ behind)
      /\ length T5 = length rkey5
      /\ rc6_setup host junk (rkey6 ++ behind) w r b key = Some (0, T6 ++ behind)
      /\ length T6 = length rkey6)
  /\ (exists out5 out6 back5 back6,
      rc5_encrypt host rkey5 w r blk5
      = Some (out5, Cursor (2 * r + 2) (upward (Z.to_nat (2 * r + 2)) 0))
      /\ rc6_encrypt host rkey6 w r blk6
         = Some (out6, Cursor (2 * r + 3) (upward (Z.to_nat (2 * r + 4)) 0))
      /\ rc5_decrypt host rkey5 w r blk5
         = Some (back5, Cursor 0 (downward (Z.to_nat (2 * r + 2)) (2 * r + 1)))
      /\ rc6_decrypt host rkey6 w r blk6
         = Some (back6, Cursor 0 (downward (Z.to_nat (2 * r + 4)) (2 * r + 3))))
  /\ Forall (fun i => 0 <= i < Z.of_nat (length rkey5))
            (upward (Z.to_nat (2 * r + 2)) 0
             ++ downward (Z.to_nat (2 * r + 2)) (2 * r + 1))
  /\ Forall (fun i => 0 <= i < Z.of_nat (length rkey6))
            (upward (Z.to_nat (2 * r + 4)) 0
             ++ downward (Z.to_nat (2 * r + 4)) (2 * r + 3)).
Proof.
  intros Hw Hv Hb Hk H5 H6 Hp5 Hp6. pose proof Hv as [Hr _].
  pose proof (valid_supported w r b Hw Hv Hb) as Hok.
  split; [| split; [| split]].
  - exists (key_schedule_spec (2 * r + 2) b key), (key_schedule_spec (2 * r + 4) b key).
    unfold rc5_setup, rc6_setup.
    rewrite !setup_run by (assumption || lia).
    pose proof (length_key_schedule_spec (2 * r + 2) b key).
    pose proof (length_key_schedule_spec (2 * r + 4) b key).
    repeat split; lia.
  - rewrite rc5_encrypt_run, rc6_encrypt_run, rc5_decrypt_run, rc6_decrypt_run
      by assumption.
    destruct (rc6_encrypt_spec _ _ _ _ _ _) as [[[A B] C] D].
    destruct (rounds_back _ _ (rc5_round_back rkey5) _) as [A5 B5].
    destruct (rounds_back _ _ (rc6_round_back rkey6) _) as [[[A6 B6] C6] D6].
    do 4 eexists. repeat split; reflexivity.
  - apply Forall_app. split.
    + eapply Forall_impl; [| apply Forall_upward]. cbn beta. intros; lia.
    + eapply Forall_impl; [| apply Forall_downward]. cbn beta. intros; lia.
  - apply Forall_app. split.
    + eapply Forall_impl; [| apply Forall_upward]. cbn beta. intros; lia.
    + eapply Forall_impl; [| apply Forall_downward]. cbn beta. intros; lia.
Qed.

(** * Further properties of the code *)

(** ** Rotations and byte swaps *)

Lemma add_sub x k : is_WORD x -> add (sub x k) k = x.
Proof.
  intros H; unfold sub, add, to_WORD.
  rewrite Zplus_mod_idemp_l.
  replace (x - k + k) with x by lia.
  apply Z.mod_small, H.
Qed.

Lemma rotl_rotr x d : is_WORD x -> 0 <= d < WORD_SZ ws -> rotl (rotr x d) d = x.
Proof.
  intros Hx Hd. apply Z.bits_inj'; intros n Hn.
  rewrite rotl_spec by (apply rotr_is_WORD || assumption).
  destruct (Z.ltb_spec n (WORD_SZ ws)) as [Hlt | Hge]; simpl.
  - pose proof (Z.mod_pos_bound (n - d) (WORD_SZ ws) WORD_SZ_pos).
    rewrite rotr_spec by (assumption || lia).
    destruct (Z.ltb_spec ((n - d) mod WORD_SZ ws) (WORD_SZ ws)); [simpl | lia].
    rewrite Zplus_mod_idemp_l.
    replace (n - d + d) with n by lia.
    rewrite Z.mod_small by lia. reflexivity.
  - symmetry; apply is_WORD_high_bits; assumption.
Qed.

(** X1. [rotl] and [rotr] rotate: [rotl x d] carries bit [n] of a word to
    position [(n + d) mod WORD_SZ], [rotr x d] brings the bit at
    [(n + d) mod WORD_SZ] down to [n], and both return words. *)
Theorem rotations_move_bits x d n :
  is_WORD x -> 0 <= d < WORD_SZ ws -> 0 <= n < WORD_SZ ws ->
  Z.testbit (rotl x d) ((n + d) mod WORD_SZ ws) = Z.testbit x n
  /\ Z.testbit (rotr x d) n = Z.testbit x ((n + d) mod WORD_SZ ws)
  /\ is_WORD (rotl x d) /\ is_WORD (rotr x d).
Proof.
  intros Hx Hd Hn.
  pose proof (Z.mod_pos_bound (n + d) (WORD_SZ ws) WORD_SZ_pos) as Hm.
  split; [| split; [| split; apply to_WORD_is_WORD]].
  - rewrite rotl_spec by (assumption || lia).
    destruct (Z.ltb_spec ((n + d) mod WORD_SZ ws) (WORD_SZ ws)); [simpl | lia].
    rewrite Zminus_mod_idemp_l.
    replace (n + d - d) with n by lia.
    now rewrite Z.mod_small by lia.
  - rewrite rotr_spec by (assumption || lia).
    destruct (Z.ltb_spec n (WORD_SZ ws)); [reflexivity | lia].
Qed.

(** X2. On words and amounts below the width each rotation undoes the
    other, and a rotation by 0, where the C expression shifts by the whole
    width, returns its operand. *)
Theorem rotations_inverse x d :
  is_WORD x -> 0 <= d < WORD_SZ ws ->
  rotr (rotl x d) d = x /\ rotl (rotr x d) d = x
  /\ rotl x 0 = x /\ rotr x 0 = x.
Proof.
  intros Hx Hd. pose proof WORD_SZ_pos as Hw.
  split; [now apply rotr_rotl | split; [now apply rotl_rotr |]].
  split; apply Z.bits_inj'; intros n Hn.
  - rewrite rotl_spec by (assumption || lia). rewrite Z.sub_0_r.
    destruct (Z.ltb_spec n (WORD_SZ ws)); simpl.
    + now rewrite Z.mod_small by lia.
    + symmetry. now apply is_WORD_high_bits.
  - rewrite rotr_spec by (assumption || lia). rewrite Z.add_0_r.
    destruct (Z.ltb_spec n (WORD_SZ ws)); simpl.
    + now rewrite Z.mod_small by lia.
    + symmetry. now apply is_WORD_high_bits.
Qed.

(** X3. On every one of the five builds [bswap] reverses the bytes of a
    word: the result is a word whose bytes, least significant first, are
    those of the operand most significant first; swapping twice gives the
    operand back. *)
Theorem bswap_reverses_bytes x :
  is_WORD x ->
  le_encode wbytes (bswap x) = rev (le_encode wbytes x)
  /\ is_WORD (bswap x)
  /\ bswap (bswap x) = x.
Proof.
  intros Hx.
  assert (Hlen : length (rev (le_encode wbytes x)) = wbytes)
    by now rewrite length_rev, le_encode_length.
  assert (Hb : is_WORD (bswap x)).
  { rewrite bswap_rev by assumption. unfold is_WORD.
    pose proof (le_decode_range (rev (le_encode wbytes x))) as R.
    rewrite Hlen, <- modulus_bytes in R. exact R. }
  assert (He : le_encode wbytes (bswap x) = rev (le_encode wbytes x)).
  { rewrite bswap_rev by assumption.
    pose proof (le_encode_decode (rev (le_encode wbytes x))) as R.
    rewrite Hlen in R. exact R. }
  split; [exact He | split; [exact Hb |]].
  rewrite (bswap_rev (bswap x)) by assumption.
  rewrite He, rev_involutive, le_decode_encode, <- modulus_bytes.
  apply Z.mod_small, Hx.
Qed.

(** X4. [bswap_if_be] makes the wire little-endian on either host: a word
    loaded from memory and passed through it has the value of its bytes read
    least significant first, and a word passed through it and stored lies in
    memory least significant byte first. *)
Theorem bswap_if_be_wire_order host bs x :
  length bs = wbytes -> is_WORD x ->
  bswap_if_be host (decode host bs) = le_decode bs
  /\ store host (bswap_if_be host x) = le_encode wbytes x
  /\ bswap_if_be host (decode host (store host (bswap_if_be host x))) = x.
Proof.
  intros Hl Hx.
  split; [now apply bswap_if_be_decode | split; [now apply store_bswap_if_be |]].
  rewrite store_bswap_if_be by assumption.
  rewrite bswap_if_be_decode by apply wire_length.
  now apply wire_word_wire.
Qed.

(** ** Encryption after decryption *)

Lemma rounds_rounds_back {St : Type} (Inv : St -> Prop) (step back : Z -> St -> St) :
  (forall k s, Inv s -> Inv (back k s)) ->
  (forall k s, Inv s -> step k (back k s) = s) ->
  forall n round s, Inv s ->
    rounds n round step (rounds_back n (round + Z.of_nat n) back s) = s.
Proof.
  intros Hback Hstep n; induction n as [| n IH]; intros round s Hs; [reflexivity |].
  rewrite rounds_last. cbn [rounds_back].
  replace (round + Z.of_nat (S n) - 1) with (round + Z.of_nat n) by lia.
  rewrite IH by (apply Hback; assumption).
  apply Hstep, Hs.
Qed.

Lemma rc5_round_back_words rkey k s : word_pair s -> word_pair (rc5_round_back rkey k s).
Proof.
  destruct s as [A B]; intros [HA HB]; cbn [fst snd] in *.
  unfold rc5_round_back.
  assert (HB' : is_WORD (Z.lxor (rotr (sub B (S_at rkey (2 * k + 3))) (A mod WORD_SZ ws)) A))
    by (apply lxor_is_WORD; [apply rotr_is_WORD | assumption]).
  split; cbn [fst snd]; [| exact HB'].
  apply lxor_is_WORD; [apply rotr_is_WORD | exact HB'].
Qed.

Lemma rc5_round_spec_back rkey k s :
  word_pair s -> rc5_round_spec rkey k (rc5_round_back rkey k s) = s.
Proof.
  destruct s as [A B]; intros [HA HB]; cbn [fst snd] in *.
  unfold rc5_round_back, rc5_round_spec.
  set (B0 := Z.lxor (rotr (sub B (S_at rkey (2 * k + 3))) (A mod WORD_SZ ws)) A).
  rewrite lxor_cancel.
  rewrite rotl_rotr by (apply sub_is_WORD || apply rotate_amount).
  rewrite add_sub by assumption.
  subst B0. rewrite lxor_cancel.
  rewrite rotl_rotr by (apply sub_is_WORD || apply rotate_amount).
  rewrite add_sub by assumption. reflexivity.
Qed.

Lemma rc6_round_spec_back rkey k s :
  word_quad s -> rc6_round_spec rkey k (rc6_round_back rkey k s) = s.
Proof.
  destruct s as [[[A B] C] D]; intros (HA & HB & HC & HD).
  unfold rc6_round_back, rc6_round_spec.
  rewrite !lxor_cancel.
  rewrite !rotl_rotr by (apply sub_is_WORD || apply rotate_amount).
  rewrite !add_sub by assumption. reflexivity.
Qed.

(** X5. [rc5_encrypt] undoes [rc5_decrypt]: on a table of [2r+2] words,
    whatever it holds, decrypting any block of two words and encrypting the
    result gives the block back.  With the round trip in the other direction,
    the two functions are inverse bijections of the blocks. *)
Theorem rc5_encrypt_decrypt host rkey w r ct :
  valid_rounds r -> Z.of_nat (length rkey) = 2 * r + 2 ->
  length ct = (2 * wbytes)%nat ->
  exists pt walk walk',
    rc5_decrypt host rkey w r ct = Some (pt, walk)
    /\ rc5_encrypt host rkey w r pt = Some (ct, walk').
Proof.
  intros Hv Hk Hc. pose proof Hv as [Hr _].
  rewrite rc5_decrypt_run by assumption.
  assert (H0 : is_WORD (wire_word ct 0)) by (apply wire_word_is_WORD; lia).
  assert (H1 : is_WORD (wire_word ct 1)) by (apply wire_word_is_WORD; lia).
  assert (Hw : word_pair (rounds_back (Z.to_nat r) r (rc5_round_back rkey)
                                      (wire_word ct 0, wire_word ct 1))).
  { apply rounds_back_invariant; [apply rc5_round_back_words | now split]. }
  pose proof (rounds_rounds_back word_pair (rc5_round_spec rkey) (rc5_round_back rkey)
                (rc5_round_back_words rkey) (rc5_round_spec_back rkey)
                (Z.to_nat r) 0 (wire_word ct 0, wire_word ct 1)) as RT.
  replace (0 + Z.of_nat (Z.to_nat r)) with r in RT by lia.
  destruct (rounds_back _ _ _ _) as [A B]. destruct Hw as [HA HB]. cbn [fst snd] in *.
  do 3 eexists. split; [reflexivity |].
  rewrite rc5_encrypt_run; try assumption.
  2:{ rewrite length_app, !wire_length. lia. }
  rewrite wire_word_next, wire_word_here, wire_word_last by apply sub_is_WORD.
  unfold rc5_encrypt_spec. rewrite !add_sub by assumption.
  rewrite RT by now split. cbn [fst snd].
  rewrite wire_two_words by assumption. reflexivity.
Qed.

(** X6. [rc6_encrypt] undoes [rc6_decrypt]: on a table of [2r+4] words,
    whatever it holds, decrypting any block of four words and encrypting the
    result gives the block back. *)
Theorem rc6_encrypt_decrypt host rkey w r ct :
  valid_rounds r -> Z.of_nat (length rkey) = 2 * r + 4 ->
  length ct = (4 * wbytes)%nat ->
  exists pt walk walk',
    rc6_decrypt host rkey w r ct = Some (pt, walk)
    /\ rc6_encrypt host rkey w r pt = Some (ct, walk').
Proof.
  intros Hv Hk Hc. pose proof Hv as [Hr _].
  rewrite rc6_decrypt_run by assumption.
  assert (H0 : is_WORD (wire_word ct 0)) by (apply wire_word_is_WORD; lia).
  assert (H1 : is_WORD (wire_word ct 1)) by (apply wire_word_is_WORD; lia).
  assert (H2 : is_WORD (wire_word ct 2)) by (apply wire_word_is_WORD; lia).
  assert (H3 : is_WORD (wire_word ct 3)) by (apply wire_word_is_WORD; lia).
  assert (Hs : word_quad (sub (wire_word ct 0) (S_at rkey (2 * r + 2)), wire_word ct 1,
                          sub (wire_word ct 2) (S_at rkey (2 * r + 3)), wire_word ct 3))
    by (split_quad; assumption || apply sub_is_WORD).
  pose proof (rounds_back_invariant word_quad (rc6_round_back rkey)
                (rc6_round_back_words rkey) (Z.to_nat r) r _ Hs) as Hw.
  pose proof (rounds_rounds_back word_quad (rc6_round_spec rkey) (rc6_round_back rkey)
                (rc6_round_back_words rkey) (rc6_round_spec_back rkey)
                (Z.to_nat r) 0 _ Hs) as RT.
  replace (0 + Z.of_nat (Z.to_nat r)) with r in RT by lia.
  destruct (rounds_back _ _ _ _) as [[[A B] C] D].
  destruct Hw as (HA & HB & HC & HD).
  do 3 eexists. split; [reflexivity |].
  rewrite rc6_encrypt_run; try assumption.
  2:{ rewrite !length_app, !wire_length. lia. }
  rewrite !wire_word_next, !wire_word_here, wire_word_last
    by (assumption || apply sub_is_WORD).
  unfold rc6_encrypt_spec. rewrite !add_sub by assumption.
  rewrite RT. rewrite !add_sub by assumption.
  rewrite wire_four_words by assumption. reflexivity.
Qed.

(** ** What the table depends on *)

Lemma key_schedule_spec_prefix S_words b key key' :
  firstn (Z.to_nat b) key = firstn (Z.to_nat b) key' ->
  key_schedule_spec S_words b key = key_schedule_spec S_words b key'.
Proof.
  intros E. unfold key_schedule_spec, key_material_spec. now rewrite E.
Qed.

(** X7. An accepted call of setup computes its table from the table size,
    [b] and the first [b] key bytes alone: what the table held before, what
    the stack held where [L] is placed, the byte order of the host and the
    key buffer beyond its first [b] bytes make no difference. *)
Theorem setup_ignores_unwritten_memory
    host host' junk junk' rkey rkey' w r b key key' :
  ~ unsupported w r b ->
  b <= Z.of_nat (length key) -> b <= Z.of_nat (length key') ->
  firstn (Z.to_nat b) key = firstn (Z.to_nat b) key' ->
  length rkey = length rkey' ->
  (Z.of_nat (length rkey) = 2 * r + 2 ->
   rc5_setup host junk rkey w r b key = rc5_setup host' junk' rkey' w r b key')
  /\ (Z.of_nat (length rkey) = 2 * r + 4 ->
      rc6_setup host junk rkey w r b key = rc6_setup host' junk' rkey' w r b key').
Proof.
  intros Hok Hk Hk' Hpre Hlen.
  assert (Hr : 0 <= r) by (unfold unsupported in Hok; lia).
  unfold rc5_setup, rc6_setup.
  split; intros HS;
    rewrite <- (app_nil_r rkey), <- (app_nil_r rkey');
    rewrite !setup_run by (assumption || lia);
    now rewrite (key_schedule_spec_prefix _ b key key' Hpre).
Qed.

Lemma key_schedule_spec_zero_extended S_words b b' key key' :
  0 <= b <= b' -> b' <= 255 -> L_words_of b = L_words_of b' ->
  firstn (Z.to_nat b') key' = firstn (Z.to_nat b) key ++ repeat x00 (Z.to_nat (b' - b)) ->
  key_schedule_spec S_words b key = key_schedule_spec S_words b' key'.
Proof.
  intros Hb Hb' HL E.
  assert (HLs : L_words_spec b = L_words_spec b')
    by (rewrite <- !L_words_of_spec by lia; exact HL).
  unfold key_schedule_spec, key_material_spec. rewrite <- HLs, E.
  do 4 f_equal. rewrite <- app_assoc, <- repeat_app. do 2 f_equal.
  destruct (L_words_nat b') as (_ & _ & _ & N3 & _); [lia |].
  f_equal. rewrite HLs, <- (L_words_of_spec b') by lia. lia.
Qed.

(** X8. Keys that differ by trailing zero bytes inside the last key word
    are equivalent: when [b] and [b'] give the same number of key words and
    the longer key is the shorter one followed by zero bytes, setup builds
    the same table for both. *)
Theorem zero_extended_key_same_table host junk rkey w r b b' key key' :
  ~ unsupported w r b -> b <= b' <= 255 -> L_words_of b = L_words_of b' ->
  b <= Z.of_nat (length key) -> b' <= Z.of_nat (length key') ->
  firstn (Z.to_nat b') key' = firstn (Z.to_nat b) key ++ repeat x00 (Z.to_nat (b' - b)) ->
  (Z.of_nat (length rkey) = 2 * r + 2 ->
   rc5_setup host junk rkey w r b key = rc5_setup host junk rkey w r b' key')
  /\ (Z.of_nat (length rkey) = 2 * r + 4 ->
      rc6_setup host junk rkey w r b key = rc6_setup host junk rkey w r b' key').
Proof.
  intros Hok Hbb HL Hk Hk' E.
  assert (Hok' : ~ unsupported w r b') by (unfold unsupported in *; lia).
  assert (Hr : 0 <= r /\ 0 <= b) by (unfold unsupported in Hok; lia).
  unfold rc5_setup, rc6_setup.
  split; intros HS; rewrite <- (app_nil_r rkey);
    rewrite !setup_run by (assumption || lia);
    now rewrite (key_schedule_spec_zero_extended _ b b' key key') by (assumption || lia).
Qed.

(** ** Round counts that are not multiples of four *)

Lemma unrolled_rounds_any r :
  0 <= r ->
  (Z.to_nat (Z.quot r 4 - 0) * Z.to_nat (4 - 0))%nat = Z.to_nat (4 * Z.quot r 4)
  /\ 0 <= 4 * Z.quot r 4 <= r.
Proof.
  intros Hr. pose proof (Z.quot_rem' r 4) as E.
  assert (0 <= Z.quot r 4) by (apply Z.quot_pos; lia).
  assert (0 <= Z.rem r 4 < 4) by (apply Z.rem_bound_pos; lia).
  lia.
Qed.

(** X9. The encryption loops pass four rounds at a time, so a round count
    between 0 and 255 is rounded down to a multiple of four: with
    [r4 = 4 * (r / 4)], [rc5_encrypt] and [rc6_encrypt] compute the [r4]-round
    cipher, read the subkeys [0 .. 2*r4+1] (RC5) or [0 .. 2*r4+3] (RC6) and
    no other, and need no more table than that. *)
Theorem encrypt_rounds_in_fours host rkey w r pt :
  0 <= r <= 255 ->
  (2 * (4 * Z.quot r 4) + 2 <= Z.of_nat (length rkey) ->
   length pt = (2 * wbytes)%nat ->
   rc5_encrypt host rkey w r pt
   = Some (wire (fst (rc5_encrypt_spec rkey (4 * Z.quot r 4)
                                       (wire_word pt 0) (wire_word pt 1)))
           ++ wire (snd (rc5_encrypt_spec rkey (4 * Z.quot r 4)
                                          (wire_word pt 0) (wire_word pt 1))),
           Cursor (2 * (4 * Z.quot r 4) + 2)
                  (upward (Z.to_nat (2 * (4 * Z.quot r 4) + 2)) 0)))
  /\ (2 * (4 * Z.quot r 4) + 4 <= Z.of_nat (length rkey) ->
      length pt = (4 * wbytes)%nat ->
      rc6_encrypt host rkey w r pt
      = let '(A, B, C, D) :=
          rc6_encrypt_spec rkey (4 * Z.quot r 4) (wire_word pt 0) (wire_word pt 1)
                           (wire_word pt 2) (wire_word pt 3) in
        Some (wire A ++ wire B ++ wire C ++ wire D,
              Cursor (2 * (4 * Z.quot r 4) + 3)
                     (upward (Z.to_nat (2 * (4 * Z.quot r 4) + 4)) 0))).
Proof.
  intros Hr. destruct (unrolled_rounds_any r) as [Hn Hq]; [lia |].
  set (r4 := 4 * Z.quot r 4) in *.
  split; intros Hk Hp.
  - unfold rc5_encrypt.
    destruct (load_wire host pt 0) as [E0 W0]; [lia | cbn; lia |].
    destruct (load_wire host pt 1) as [E1 W1]; [lia | cbn; lia |].
    rewrite E0, E1, W0, W1, !deref_inc_at by lia.
    unfold for_range. rewrite for_loop_nested, Hn.
    change (0 + 1 + 1) with (2 * 0 + 2).
    rewrite rc5_encrypt_rounds by lia.
    pose proof (rc5_encrypt_spec_words rkey r4 (wire_word pt 0) (wire_word pt 1)) as Hw.
    unfold rc5_encrypt_spec in *.
    change (Z.to_nat 0) with 0%nat; change (Z.to_nat 1) with 1%nat.
    destruct (rounds _ _ _ _) as [A B]. destruct Hw as [HA HB]. cbn [fst snd] in *.
    rewrite !store_bswap_if_be by assumption.
    replace (Z.to_nat (2 * r4 + 2)) with (2 + 2 * Z.to_nat r4)%nat by lia.
    rewrite upward_app. cbn [app upward]. same_modulo_arith.
  - unfold rc6_encrypt.
    destruct (load_wire host pt 0) as [E0 W0]; [lia | cbn; lia |].
    destruct (load_wire host pt 1) as [E1 W1]; [lia | cbn; lia |].
    destruct (load_wire host pt 2) as [E2 W2]; [lia | cbn; lia |].
    destruct (load_wire host pt 3) as [E3 W3]; [lia | cbn; lia |].
    rewrite E0, E1, E2, E3, W0, W1, W2, W3, !deref_inc_at by lia.
    unfold for_range. rewrite for_loop_nested, Hn.
    change (0 + 1 + 1) with (2 * 0 + 2).
    rewrite rc6_encrypt_rounds by lia.
    change (Z.to_nat 0) with 0%nat; change (Z.to_nat 1) with 1%nat;
      change (Z.to_nat 2) with 2%nat; change (Z.to_nat 3) with 3%nat.
    pose proof (rc6_rounds_words rkey (Z.to_nat r4) (wire_word pt 0) (wire_word pt 1)
                  (wire_word pt 2) (wire_word pt 3)) as Hw.
    unfold rc6_encrypt_spec.
    destruct (rounds _ _ _ _) as [[[A B] C] D].
    destruct Hw as (HA & HB & HC & HD); try (apply wire_word_is_WORD; lia).
    rewrite deref_inc_at, deref_at by lia.
    rewrite !store_bswap_if_be by (assumption || apply add_is_WORD).
    replace (Z.to_nat (2 * r4 + 4)) with (2 + 2 * Z.to_nat r4 + 2)%nat by lia.
    rewrite !upward_app. cbn [app upward]. rewrite <- !app_assoc. cbn [app].
    same_modulo_arith.
Qed.

(** X10. The decryption functions start their pointer from [r] but run
    [r4 = 4 * (r / 4)] rounds only: for a round count between 0 and 255 they
    undo the rounds numbered [r-1] down to [r - r4] and end on the subkeys
    [2*(r - r4) + 1] and [2*(r - r4)], with the pointer left at index
    [2*(r - r4)]; that is index 0, and the whitening subkeys of encryption,
    exactly when 4 divides [r]. *)
Theorem decrypt_rounds_in_fours host rkey w r ct :
  0 <= r <= 255 ->
  (2 * r + 2 <= Z.of_nat (length rkey) -> length ct = (2 * wbytes)%nat ->
   rc5_decrypt host rkey w r ct
   = let '(A, B) := rounds_back (Z.to_nat (4 * Z.quot r 4)) r (rc5_round_back rkey)
                                (wire_word ct 0, wire_word ct 1) in
     Some (wire (sub A (S_at rkey (2 * (r - 4 * Z.quot r 4))))
           ++ wire (sub B (S_at rkey (2 * (r - 4 * Z.quot r 4) + 1))),
           Cursor (2 * (r - 4 * Z.quot r 4))
                  (downward (Z.to_nat (2 * (4 * Z.quot r 4) + 2)) (2 * r + 1))))
  /\ (2 * r + 4 <= Z.of_nat (length rkey) -> length ct = (4 * wbytes)%nat ->
      rc6_decrypt host rkey w r ct
      = let '(A, B, C, D) :=
          rounds_back (Z.to_nat (4 * Z.quot r 4)) r (rc6_round_back rkey)
            (sub (wire_word ct 0) (S_at rkey (2 * r + 2)), wire_word ct 1,
             sub (wire_word ct 2) (S_at rkey (2 * r + 3)), wire_word ct 3) in
        Some (wire A ++ wire (sub B (S_at rkey (2 * (r - 4 * Z.quot r 4))))
              ++ wire C ++ wire (sub D (S_at rkey (2 * (r - 4 * Z.quot r 4) + 1))),
              Cursor (2 * (r - 4 * Z.quot r 4))
                     (downward (Z.to_nat (2 * (4 * Z.quot r 4) + 4)) (2 * r + 3))))
  /\ (2 * (r - 4 * Z.quot r 4) = 0 <-> Z.rem r 4 = 0).
Proof.
  intros Hr. destruct (unrolled_rounds_any r) as [Hn Hq]; [lia |].
  pose proof (Z.quot_rem' r 4) as Hrem.
  set (r4 := 4 * Z.quot r 4) in *.
  split; [| split; [| lia]]; intros Hk Hp.
  - unfold rc5_decrypt.
    destruct (load_wire host ct 0) as [E0 W0]; [lia | cbn; lia |].
    destruct (load_wire host ct 1) as [E1 W1]; [lia | cbn; lia |].
    rewrite E0, E1, W0, W1.
    unfold for_range. rewrite for_loop_nested, Hn.
    rewrite rc5_decrypt_rounds by lia.
    change (Z.to_nat 0) with 0%nat; change (Z.to_nat 1) with 1%nat.
    destruct (rounds_back _ _ _ _) as [A B].
    rewrite deref_dec_at, deref_at by lia.
    rewrite !store_bswap_if_be by apply sub_is_WORD.
    replace (Z.to_nat (2 * r4 + 2)) with (2 * Z.to_nat r4 + 2)%nat by lia.
    rewrite downward_app. cbn [app downward]. rewrite <- !app_assoc. cbn [app].
    same_modulo_arith.
  - unfold rc6_decrypt.
    destruct (load_wire host ct 0) as [E0 W0]; [lia | cbn; lia |].
    destruct (load_wire host ct 1) as [E1 W1]; [lia | cbn; lia |].
    destruct (load_wire host ct 2) as [E2 W2]; [lia | cbn; lia |].
    destruct (load_wire host ct 3) as [E3 W3]; [lia | cbn; lia |].
    rewrite E0, E1, E2, E3, W0, W1, W2, W3, !deref_dec_at by lia.
    unfold for_range. rewrite for_loop_nested, Hn.
    replace (2 * r + 3 - 1 - 1) with (2 * r + 1) by lia.
    rewrite rc6_decrypt_rounds by lia.
    change (Z.to_nat 0) with 0%nat; change (Z.to_nat 1) with 1%nat;
      change (Z.to_nat 2) with 2%nat; change (Z.to_nat 3) with 3%nat.
    assert (Hw : word_quad (rounds_back (Z.to_nat r4) r (rc6_round_back rkey)
          (sub (wire_word ct 0) (S_at rkey (2 * r + 2)), wire_word ct 1,
           sub (wire_word ct 2) (S_at rkey (2 * r + 3)), wire_word ct 3))).
    { apply rounds_back_invariant; [apply rc6_round_back_words |].
      split_quad; apply sub_is_WORD || (apply wire_word_is_WORD; lia). }
    replace (2 * r + 3 - 1) with (2 * r + 2) by lia.
    destruct (rounds_back _ _ _ _) as [[[A B] C] D].
    destruct Hw as (HA & HB & HC & HD).
    rewrite deref_dec_at, deref_at by lia.
    rewrite !store_bswap_if_be by (assumption || apply sub_is_WORD).
    replace (Z.to_nat (2 * r4 + 4)) with (2 + 2 * Z.to_nat r4 + 2)%nat by lia.
    rewrite !downward_app. cbn [app downward]. rewrite <- !app_assoc. cbn [app].
    same_modulo_arith.
Qed.

(** ** Tables shorter than documented *)

Lemma peek_outside {A : Type} (a : list A) i :
  Z.of_nat (length a) <= i -> peek a i = None.
Proof.
  intros H. unfold peek. destruct (Z.ltb_spec i 0); [reflexivity |].
  apply nth_error_None. lia.
Qed.

Lemma deref_inc_outside rkey p v :
  Z.of_nat (length rkey) <= p -> deref_inc rkey (Cursor p v) = None.
Proof. intros H. unfold deref_inc. cbn. now rewrite peek_outside. Qed.

Lemma deref_dec_outside rkey p v :
  Z.of_nat (length rkey) <= p -> deref_dec rkey (Cursor p v) = None.
Proof. intros H. unfold deref_dec. cbn. now rewrite peek_outside. Qed.

Lemma deref_outside rkey p v :
  Z.of_nat (length rkey) <= p -> deref rkey (Cursor p v) = None.
Proof. intros H. unfold deref. cbn. now rewrite peek_outside. Qed.

(** Where a walk in steps of two leaves a table that is too short. *)
Lemma last_whole_round (len r : Z) :
  2 <= len < 2 * r + 2 ->
  exists m : nat, (m < Z.to_nat r)%nat
                  /\ 2 * Z.of_nat m + 2 <= len < 2 * Z.of_nat m + 4.
Proof.
  intros H. exists (Z.to_nat ((len - 2) / 2)).
  pose proof (Z.div_mod (len - 2) 2 ltac:(lia)).
  pose proof (Z.mod_pos_bound (len - 2) 2 ltac:(lia)).
  assert (0 <= (len - 2) / 2) by (apply Z.div_pos; lia).
  lia.
Qed.

Lemma rc5_encrypt_rounds_short rkey n m A B v i :
  (m < n)%nat ->
  2 * Z.of_nat m + 2 <= Z.of_nat (length rkey) < 2 * Z.of_nat m + 4 ->
  for_loop n i (fun _ => rc5_encrypt_round rkey) (A, B, Cursor (2 * 0 + 2) v) = None.
Proof.
  intros Hm HL. replace n with (m + S (n - m - 1))%nat by lia.
  rewrite (for_loop_add m _ i i), rc5_encrypt_rounds by lia.
  destruct (rounds m 0 (rc5_round_spec rkey) (A, B)) as [A' B'].
  cbn [for_loop]. unfold rc5_encrypt_round at 1.
  destruct (Z.lt_ge_cases (2 * (0 + Z.of_nat m) + 2) (Z.of_nat (length rkey))).
  - rewrite deref_inc_at, deref_inc_outside by lia. reflexivity.
  - rewrite deref_inc_outside by lia. reflexivity.
Qed.

Lemma rc6_encrypt_rounds_short rkey n m A B C D v i :
  (m < n)%nat ->
  2 * Z.of_nat m + 2 <= Z.of_nat (length rkey) < 2 * Z.of_nat m + 4 ->
  for_loop n i (fun _ => rc6_encrypt_round rkey) (A, B, C, D, Cursor (2 * 0 + 2) v)
  = None.
Proof.
  intros Hm HL. replace n with (m + S (n - m - 1))%nat by lia.
  rewrite (for_loop_add m _ i i), rc6_encrypt_rounds by lia.
  destruct (rounds m 0 (rc6_round_spec rkey) (A, B, C, D)) as [[[A' B'] C'] D'].
  cbn [for_loop]. unfold rc6_encrypt_round at 1.
  destruct (Z.lt_ge_cases (2 * (0 + Z.of_nat m) + 2) (Z.of_nat (length rkey))).
  - rewrite deref_inc_at, deref_inc_outside by lia. reflexivity.
  - rewrite deref_inc_outside by lia. reflexivity.
Qed.

(** X11. None of the four block functions checks the size of the table:
    given a table shorter than [2r+2] words (RC5) or [2r+4] words (RC6), each
    of them dereferences its pointer beyond the last word of the table. *)
Theorem block_functions_trust_table_size host rkey w r blk :
  valid_rounds r ->
  (Z.of_nat (length rkey) < 2 * r + 2 ->
   rc5_encrypt host rkey w r blk = None /\ rc5_decrypt host rkey w r blk = None)
  /\ (Z.of_nat (length rkey) < 2 * r + 4 ->
      rc6_encrypt host rkey w r blk = None /\ rc6_decrypt host rkey w r blk = None).
Proof.
  intros Hv. pose proof Hv as [Hr _]. pose proof (unrolled_rounds r Hv) as Hn.
  split; intros HL; split.
  - unfold rc5_encrypt.
    destruct (load host blk 0); [| reflexivity].
    destruct (Z.lt_ge_cases 0 (Z.of_nat (length rkey)));
      [rewrite deref_inc_at by lia | now rewrite deref_inc_outside by lia].
    destruct (load host blk 1); [| reflexivity].
    destruct (Z.lt_ge_cases 1 (Z.of_nat (length rkey)));
      [rewrite deref_inc_at by lia | now rewrite deref_inc_outside by lia].
    unfold for_range. rewrite for_loop_nested, Hn.
    destruct (last_whole_round (Z.of_nat (length rkey)) r) as (m & Hm & Hm2); [lia |].
    change (0 + 1 + 1) with (2 * 0 + 2).
    now rewrite (rc5_encrypt_rounds_short rkey (Z.to_nat r) m).
  - unfold rc5_decrypt.
    destruct (load host blk 1); [| reflexivity].
    destruct (load host blk 0); [| reflexivity].
    unfold for_range. rewrite for_loop_nested, Hn.
    destruct (Z.to_nat r) as [| n]; cbn [for_loop].
    + now rewrite deref_dec_outside by lia.
    + unfold rc5_decrypt_round at 1. now rewrite deref_dec_outside by lia.
  - unfold rc6_encrypt.
    destruct (load host blk 0); [| reflexivity].
    destruct (load host blk 1); [| reflexivity].
    destruct (Z.lt_ge_cases 0 (Z.of_nat (length rkey)));
      [rewrite deref_inc_at by lia | now rewrite deref_inc_outside by lia].
    destruct (load host blk 2); [| reflexivity].
    destruct (load host blk 3); [| reflexivity].
    destruct (Z.lt_ge_cases 1 (Z.of_nat (length rkey)));
      [rewrite deref_inc_at by lia | now rewrite deref_inc_outside by lia].
    unfold for_range. rewrite for_loop_nested, Hn.
    change (0 + 1 + 1) with (2 * 0 + 2).
    destruct (Z.lt_ge_cases (Z.of_nat (length rkey)) (2 * r + 2)) as [Hs | Hs].
    + destruct (last_whole_round (Z.of_nat (length rkey)) r) as (m & Hm & Hm2); [lia |].
      now rewrite (rc6_encrypt_rounds_short rkey (Z.to_nat r) m).
    + rewrite rc6_encrypt_rounds by lia.
      destruct (rounds _ _ _ _) as [[[A B] C] D].
      destruct (Z.lt_ge_cases (2 * (0 + Z.of_nat (Z.to_nat r)) + 2)
                              (Z.of_nat (length rkey))).
      * rewrite deref_inc_at, deref_outside by lia. reflexivity.
      * rewrite deref_inc_outside by lia. reflexivity.
  - unfold rc6_decrypt.
    destruct (load host blk 3); [| reflexivity].
    destruct (load host blk 2); [| reflexivity].
    now rewrite deref_dec_outside by lia.
Qed.

Lemma poke_outside {A : Type} (a : list A) i v :
  Z.of_nat (length a) <= i -> poke a i v = None.
Proof.
  intros H. unfold poke.
  destruct (Z.ltb_spec i (Z.of_nat (length a))); [lia |].
  now rewrite andb_false_r.
Qed.

Lemma for_loop_split {St : Type} a b i (body : Z -> St -> option St) s :
  for_loop (a + b) i body s
  = (s' <- for_loop a i body s ;; for_loop b (i + Z.of_nat a) body s').
Proof.
  revert i s; induction a as [| a IH]; intros i s.
  - cbn. now rewrite Z.add_0_r.
  - cbn [Nat.add for_loop]. destruct (body i s) as [s' |]; [| reflexivity].
    rewrite IH. replace (i + 1 + Z.of_nat a) with (i + Z.of_nat (S a)) by lia.
    reflexivity.
Qed.

Lemma fill_loop_short n : forall (pre : list Z) x mid i,
  (length mid < n)%nat -> i = Z.of_nat (length pre) + 1 ->
  for_loop n i (fun i T => x <- peek T (i - 1) ;; poke T i (add x (Q ws)))
           (pre ++ x :: mid)
  = None.
Proof.
  induction n as [| n IH]; intros pre x mid i Hm Hi; [lia |].
  cbn [for_loop].
  replace (i - 1) with (Z.of_nat (length pre)) by lia.
  rewrite peek_app_at.
  destruct mid as [| y mid].
  - rewrite poke_outside; [reflexivity |]. rewrite length_app. cbn [length]. lia.
  - replace (pre ++ x :: y :: mid) with ((pre ++ [x]) ++ y :: mid)
      by (now rewrite <- app_assoc).
    replace i with (Z.of_nat (length (pre ++ [x])))
      by (rewrite length_app; cbn; lia).
    rewrite poke_app_at.
    apply IH; [cbn [length] in Hm; lia | rewrite length_app; cbn; lia].
Qed.

(** X12. An accepted call of setup trusts its caller for both buffers: with
    a table shorter than [2r+2] words ([rc5_setup]) or [2r+4] words
    ([rc6_setup]) it stores beyond the end of the table, and with a key
    buffer shorter than [b] bytes it reads beyond the end of the key. *)
Theorem setup_trusts_buffer_sizes host junk rkey w r b key :
  ~ unsupported w r b ->
  (Z.of_nat (length rkey) < 2 * r + 2 ->
   rc5_setup host junk rkey w r b key = None)
  /\ (Z.of_nat (length rkey) < 2 * r + 4 ->
      rc6_setup host junk rkey w r b key = None)
  /\ (Z.of_nat (length key) < b ->
      rc5_setup host junk rkey w r b key = None
      /\ rc6_setup host junk rkey w r b key = None).
Proof.
  intros Hok.
  assert (Hb : 0 <= b <= 255 /\ 0 <= r) by (unfold unsupported in Hok; lia).
  assert (G : negb (WORD_SZ ws =? w) || (b <? 0) || (b >? 255)
              || (r <? 0) || (r >? 255) || negb (Z.rem r 4 =? 0) = false).
  { destruct (_ || _) eqn:G; [| reflexivity].
    apply guard_unsupported in G. contradiction. }
  assert (Short : forall S_words, Z.of_nat (length rkey) < S_words ->
                    setup host junk rkey S_words w r b key = None).
  { intros S_words HS. unfold setup. rewrite G.
    destruct (key_words host junk b key); [| reflexivity].
    destruct rkey as [| s0 mid]; [reflexivity |].
    change (s0 :: mid) with ([] ++ s0 :: mid).
    change 0 with (Z.of_nat (length (@nil Z))) at 1. rewrite poke_app_at.
    unfold for_range. rewrite fill_loop_short; [reflexivity | | reflexivity].
    cbn [length app] in HS. lia. }
  assert (NoKey : Z.of_nat (length key) < b -> key_words host junk b key = None).
  { intros Hk. unfold key_words.
    set (L0 := map junk (seq 0 256)).
    assert (HL0 : length L0 = 256%nat) by (subst L0; now rewrite length_map, length_seq).
    clearbody L0.
    destruct (store_at host L0 (L_words_of b - 1) 0) as [L1 |] eqn:E1; [| reflexivity].
    assert (HL1 : length L1 = 256%nat).
    { unfold store_at in E1.
      destruct (_ && _) eqn:C; [| discriminate]. injection E1 as <-.
      apply andb_prop in C. destruct C as [_ C]. apply Nat.leb_le in C.
      rewrite !length_app, length_firstn, length_skipn.
      unfold store, encode. destruct host; rewrite ?length_rev, le_encode_length; lia. }
    unfold for_range.
    replace (Z.to_nat (b - 0)) with (length key + S (Z.to_nat b - length key - 1))%nat by lia.
    rewrite for_loop_split. change 0 with (Z.of_nat 0) at 1.
    rewrite copy_loop by lia.
    cbn [for_loop]. rewrite peek_outside by lia. reflexivity. }
  unfold rc5_setup, rc6_setup.
  split; [apply Short | split; [apply Short |]].
  intros Hk. unfold setup. rewrite G, (NoKey Hk). split; reflexivity.
Qed.

(** ** The driver *)

Lemma length_ramp n : length (ramp n) = n.
Proof. unfold ramp. now rewrite length_map, length_seq. Qed.

Lemma pbuf_loop (p : list byte) n : forall i out,
  (i + n <= length p)%nat ->
  for_loop n (Z.of_nat i)
           (fun i out => c <- peek p i ;; Some (out ++ [printf_02X c])) out
  = Some (out ++ map printf_02X (firstn n (skipn i p))).
Proof.
  induction n as [| n IH]; intros i out Hp.
  - cbn. now rewrite app_nil_r.
  - destruct (split_at p (Z.of_nat i)) as (pre & c & rest & -> & Ei); [lia |].
    apply Nat2Z.inj in Ei. subst i.
    cbn [for_loop]. rewrite peek_app_at.
    replace (Z.of_nat (length pre) + 1) with (Z.of_nat (S (length pre))) by lia.
    rewrite length_app in Hp. cbn [length] in Hp.
    rewrite IH by (rewrite length_app; cbn [length]; lia).
    replace (S (length pre)) with (length pre + 1)%nat by lia.
    rewrite skipn_app_at, skipn_app_exact. cbn [skipn firstn map].
    rewrite <- app_assoc. reflexivity.
Qed.

Lemma pbuf_run p len s :
  len <= Z.of_nat (length p) ->
  pbuf p len s
  = Some (match s with Some label => [label] | None => [] end
          ++ map printf_02X (firstn (Z.to_nat len) p) ++ [newline]).
Proof.
  intros H. unfold pbuf, for_range. rewrite Z.sub_0_r.
  change 0 with (Z.of_nat 0). rewrite pbuf_loop by lia. cbn [skipn].
  now rewrite <- app_assoc.
Qed.

Lemma pbuf_whole p s :
  pbuf p (Z.of_nat (length p)) s
  = Some (match s with Some label => [label] | None => [] end
          ++ map printf_02X p ++ [newline]).
Proof. rewrite pbuf_run by lia. now rewrite Nat2Z.id, firstn_all. Qed.

Lemma printf_02X_value c :
  match printf_02X c with
  | String d1 (String d2 EmptyString) => 16 * hex_value d1 + hex_value d2
  | _ => -1
  end = byte_val c.
Proof. destruct c; reflexivity. Qed.

Lemma printf_02X_injective c c' : printf_02X c = printf_02X c' -> c = c'.
Proof.
  intros E. rewrite <- (byte_of_val c), <- (byte_of_val c').
  rewrite <- (printf_02X_value c), <- (printf_02X_value c'), E. reflexivity.
Qed.

(** X13. [pbuf] writes its label, unless that is the null pointer, then two
    upper-case hexadecimal digits for each of the first [len] bytes and a
    newline; a [len] that is zero or negative prints no byte, a [len] beyond
    the buffer reads past its end, and the digits printed determine the
    bytes. *)
Theorem pbuf_prints_hex p p' len s :
  (len <= Z.of_nat (length p) ->
   pbuf p len s
   = Some (match s with Some label => [label] | None => [] end
           ++ map printf_02X (firstn (Z.to_nat len) p) ++ [newline]))
  /\ (Z.of_nat (length p) < len -> pbuf p len s = None)
  /\ (map printf_02X p = map printf_02X p' -> p = p').
Proof.
  split; [apply pbuf_run | split].
  - intros H. unfold pbuf, for_range.
    replace (Z.to_nat (len - 0)) with (length p + S (Z.to_nat len - length p - 1))%nat
      by lia.
    rewrite for_loop_split. change 0 with (Z.of_nat 0).
    rewrite pbuf_loop by lia.
    cbn [for_loop]. rewrite peek_outside by lia. reflexivity.
  - revert p'. induction p as [| c p IH]; intros [| c' p'] E; try discriminate.
    + reflexivity.
    + pose proof (f_equal (hd EmptyString) E) as Ec.
      pose proof (f_equal (@tl string) E) as Ep. cbn [map hd tl] in Ec, Ep.
      f_equal; [now apply printf_02X_injective | now apply IH].
Qed.

Lemma driver_word_bytes w : w = WORD_SZ ws -> Z.quot w 8 = sizeof_WORD ws.
Proof. intros ->. destruct ws; reflexivity. Qed.

Lemma driver_table_words n :
  0 <= n -> (Z.to_nat (n * sizeof_WORD ws) / wbytes)%nat = Z.to_nat n.
Proof.
  intros Hn. pose proof sizeof_WORD_pos. pose proof wbytes_pos.
  rewrite Z2Nat.inj_mul by lia. fold wbytes. apply Nat.div_mul. lia.
Qed.

Lemma driver_block_bytes k : 0 <= k -> Z.to_nat (k * sizeof_WORD ws) = (Z.to_nat k * wbytes)%nat.
Proof. intros Hk. pose proof sizeof_WORD_pos. now rewrite Z2Nat.inj_mul by lia. Qed.

Lemma overwrite_whole buf out : length out = length buf -> overwrite buf out = out.
Proof.
  intros H. unfold overwrite. rewrite H, skipn_all. apply app_nil_r.
Qed.

Lemma rc5_encrypt_some host rkey w r pt :
  valid_rounds r -> Z.of_nat (length rkey) = 2 * r + 2 ->
  length pt = (2 * wbytes)%nat ->
  exists ct walk walk',
    rc5_encrypt host rkey w r pt = Some (ct, walk)
    /\ length ct = (2 * wbytes)%nat
    /\ rc5_decrypt host rkey w r ct = Some (pt, walk').
Proof.
  intros Hv Hk Hp.
  destruct (rc5_decrypt_encrypt host rkey w r pt Hv Hk Hp) as (ct & walk & walk' & He & Hd).
  exists ct, walk, walk'. split; [exact He | split; [| exact Hd]].
  rewrite rc5_encrypt_run in He by assumption. injection He as <- _.
  rewrite length_app, !wire_length. lia.
Qed.

Lemma rc6_encrypt_some host rkey w r pt :
  valid_rounds r -> Z.of_nat (length rkey) = 2 * r + 4 ->
  length pt = (4 * wbytes)%nat ->
  exists ct walk walk',
    rc6_encrypt host rkey w r pt = Some (ct, walk)
    /\ length ct = (4 * wbytes)%nat
    /\ rc6_decrypt host rkey w r ct = Some (pt, walk').
Proof.
  intros Hv Hk Hp.
  destruct (rc6_decrypt_encrypt host rkey w r pt Hv Hk Hp) as (ct & walk & walk' & He & Hd).
  exists ct, walk, walk'. split; [exact He | split; [| exact Hd]].
  rewrite rc6_encrypt_run in He by assumption.
  destruct (rc6_encrypt_spec _ _ _ _ _ _) as [[[A B] C] D]. injection He as <- _.
  rewrite !length_app, !wire_length. lia.
Qed.

(** What [print_vector5] and [print_vector6] write for parameters the
    build supports. *)
Lemma print_vector5_run host junk heap w r b :
  w = WORD_SZ ws -> valid_rounds r -> 0 <= b <= 255 ->
  exists T ct walk,
    rc5_setup host junk (map heap (seq 0 (Z.to_nat (2 * r + 2)))) w r b
              (ramp (Z.to_nat b)) = Some (0, T)
    /\ rc5_encrypt host T w r (ramp (2 * wbytes)) = Some (ct, walk)
    /\ print_vector5 host junk heap w r b
       = Some (vector_lines "RC5-" w r b (ramp (Z.to_nat b)) (ramp (2 * wbytes)) ct).
Proof.
  intros Hw Hv Hb. pose proof Hv as [Hr _].
  pose proof (valid_supported w r b Hw Hv Hb) as Hok.
  set (rkey0 := map heap (seq 0 (Z.to_nat (2 * r + 2)))).
  assert (Hk0 : Z.of_nat (length rkey0) = 2 * r + 2)
    by (subst rkey0; rewrite length_map, length_seq; lia).
  pose proof (setup_run host junk rkey0 [] (2 * r + 2) w r b (ramp (Z.to_nat b)) Hok) as ES.
  rewrite !app_nil_r, length_ramp in ES.
  specialize (ES ltac:(lia) Hk0 ltac:(lia)).
  set (T := key_schedule_spec (2 * r + 2) b (ramp (Z.to_nat b))) in *.
  destruct (rc5_encrypt_some host T w r (ramp (2 * wbytes))) as (ct & walk & walk' & He & Hl & Hd);
    [assumption | apply length_key_schedule_spec; lia | apply length_ramp |].
  exists T, ct, walk. split; [exact ES | split; [exact He |]].
  unfold print_vector5.
  rewrite (driver_word_bytes w Hw), driver_table_words by lia.
  rewrite (driver_block_bytes 2) by lia. change (Z.to_nat 2) with 2%nat.
  fold rkey0. unfold rc5_setup in ES |- *. rewrite ES. cbn [Z.eqb negb].
  rewrite He, (overwrite_whole _ ct) by (now rewrite length_ramp).
  rewrite Hd, (overwrite_whole ct) by (now rewrite length_ramp).
  assert (Hbpb : 2 * sizeof_WORD ws = Z.of_nat (2 * wbytes))
    by (unfold wbytes; pose proof sizeof_WORD_pos; lia).
  rewrite Hbpb.
  rewrite !pbuf_run by (rewrite ?length_ramp, ?Hl; lia).
  rewrite !firstn_all2 by (rewrite ?length_ramp, ?Hl; lia).
  unfold vector_lines. cbn [app].
  repeat (rewrite <- app_assoc; cbn [app]). reflexivity.
Qed.

Lemma print_vector6_run host junk heap w r b :
  w = WORD_SZ ws -> valid_rounds r -> 0 <= b <= 255 ->
  exists T ct walk,
    rc6_setup host junk (map heap (seq 0 (Z.to_nat (2 * r + 4)))) w r b
              (ramp (Z.to_nat b)) = Some (0, T)
    /\ rc6_encrypt host T w r (ramp (4 * wbytes)) = Some (ct, walk)
    /\ print_vector6 host junk heap w r b
       = Some (vector_lines "RC6-" w r b (ramp (Z.to_nat b)) (ramp (4 * wbytes)) ct).
Proof.
  intros Hw Hv Hb. pose proof Hv as [Hr _].
  pose proof (valid_supported w r b Hw Hv Hb) as Hok.
  set (rkey0 := map heap (seq 0 (Z.to_nat (2 * r + 4)))).
  assert (Hk0 : Z.of_nat (length rkey0) = 2 * r + 4)
    by (subst rkey0; rewrite length_map, length_seq; lia).
  pose proof (setup_run host junk rkey0 [] (2 * r + 4) w r b (ramp (Z.to_nat b)) Hok) as ES.
  rewrite !app_nil_r, length_ramp in ES.
  specialize (ES ltac:(lia) Hk0 ltac:(lia)).
  set (T := key_schedule_spec (2 * r + 4) b (ramp (Z.to_nat b))) in *.
  destruct (rc6_encrypt_some host T w r (ramp (4 * wbytes))) as (ct & walk & walk' & He & Hl & Hd);
    [assumption | apply length_key_schedule_spec; lia | apply length_ramp |].
  exists T, ct, walk. split; [exact ES | split; [exact He |]].
  unfold print_vector6.
  rewrite (driver_word_bytes w Hw), driver_table_words by lia.
  rewrite (driver_block_bytes 4) by lia. change (Z.to_nat 4) with 4%nat.
  fold rkey0. unfold rc6_setup in ES |- *. rewrite ES. cbn [Z.eqb negb].
  rewrite He, (overwrite_whole _ ct) by (now rewrite length_ramp).
  rewrite Hd, (overwrite_whole ct) by (now rewrite length_ramp).
  assert (Hbpb : 4 * sizeof_WORD ws = Z.of_nat (4 * wbytes))
    by (unfold wbytes; pose proof sizeof_WORD_pos; lia).
  rewrite Hbpb.
  rewrite !pbuf_run by (rewrite ?length_ramp, ?Hl; lia).
  rewrite !firstn_all2 by (rewrite ?length_ramp, ?Hl; lia).
  unfold vector_lines. cbn [app].
  repeat (rewrite <- app_assoc; cbn [app]). reflexivity.
Qed.

(** X14. For parameters the build supports, [print_vector5] and
    [print_vector6] write five lines: the header, the key bytes
    [0, 1, 2, ...], the block bytes [0, 1, 2, ...], the block as [rc5_encrypt]
    or [rc6_encrypt] leaves it under the table of setup, and the block again
    as the decryption recovers it; no [Unsupported] line is written. *)
Theorem print_vector_shows_round_trip host junk heap w r b :
  w = WORD_SZ ws -> valid_rounds r -> 0 <= b <= 255 ->
  (exists T ct walk,
      rc5_setup host junk (map heap (seq 0 (Z.to_nat (2 * r + 2)))) w r b
                (ramp (Z.to_nat b)) = Some (0, T)
      /\ rc5_encrypt host T w r (ramp (2 * wbytes)) = Some (ct, walk)
      /\ print_vector5 host junk heap w r b
         = Some (vector_lines "RC5-" w r b (ramp (Z.to_nat b)) (ramp (2 * wbytes)) ct))
  /\ (exists T ct walk,
      rc6_setup host junk (map heap (seq 0 (Z.to_nat (2 * r + 4)))) w r b
                (ramp (Z.to_nat b)) = Some (0, T)
      /\ rc6_encrypt host T w r (ramp (4 * wbytes)) = Some (ct, walk)
      /\ print_vector6 host junk heap w r b
         = Some (vector_lines "RC6-" w r b (ramp (Z.to_nat b)) (ramp (4 * wbytes)) ct)).
Proof.
  intros Hw Hv Hb. split.
  - now apply print_vector5_run.
  - now apply print_vector6_run.
Qed.

Lemma load_inside host m i x :
  load host m i = Some x -> ((Z.to_nat i + 1) * wbytes <= length m)%nat.
Proof.
  unfold load. destruct (i <? 0); [discriminate |]. cbn zeta.
  destruct (Nat.eqb_spec (length (chunk m (Z.to_nat i))) wbytes) as [E |];
    [| discriminate].
  intros _. unfold chunk in E. rewrite length_firstn, length_skipn in E.
  pose proof wbytes_pos. lia.
Qed.

Lemma length_store host x : length (store host x) = wbytes.
Proof.
  unfold store, encode. destruct host; rewrite ?length_rev; apply le_encode_length.
Qed.

Lemma rc5_decrypt_in_place host rkey w r buf pt walk :
  rc5_decrypt host rkey w r buf = Some (pt, walk) ->
  length (overwrite buf pt) = length buf.
Proof.
  unfold rc5_decrypt. destruct (load host buf 1) as [c1 |] eqn:E1; [| discriminate].
  apply load_inside in E1. change (Z.to_nat 1) with 1%nat in E1.
  destruct (load host buf 0); [| discriminate].
  destruct (for_range _ _ _ _) as [[[A B] sp] |]; [| discriminate].
  destruct (deref_dec rkey sp) as [[k sp'] |]; [| discriminate].
  destruct (deref rkey sp') as [[k' sp''] |]; [| discriminate].
  intros H. injection H as <- _. unfold overwrite.
  rewrite !length_app, length_skipn, ?length_app, !length_store. lia.
Qed.

Lemma rc6_decrypt_in_place host rkey w r buf pt walk :
  rc6_decrypt host rkey w r buf = Some (pt, walk) ->
  length (overwrite buf pt) = length buf.
Proof.
  unfold rc6_decrypt. destruct (load host buf 3) as [c3 |] eqn:E3; [| discriminate].
  apply load_inside in E3. change (Z.to_nat 3) with 3%nat in E3.
  destruct (load host buf 2); [| discriminate].
  destruct (deref_dec rkey _) as [[k sp] |]; [| discriminate].
  destruct (load host buf 1); [| discriminate].
  destruct (load host buf 0); [| discriminate].
  destruct (deref_dec rkey sp) as [[k0 sp0] |]; [| discriminate].
  destruct (for_range _ _ _ _) as [[[[[A B] C] D] sp1] |]; [| discriminate].
  destruct (deref_dec rkey sp1) as [[k1 sp2] |]; [| discriminate].
  destruct (deref rkey sp2) as [[k2 sp3] |]; [| discriminate].
  intros H. injection H as <- _. unfold overwrite.
  rewrite !length_app, length_skipn, ?length_app, !length_store. lia.
Qed.

(** X15. When setup rejects the parameters, [print_vector5] and
    [print_vector6] write the [Unsupported] line, skip the encryption, so
    that the [Block output] line repeats the input block, and still call the
    decryption on the table that setup never wrote: the last line is what
    that call makes of the block and of the contents of the heap.  This
    is stated for parameters with which no [int] of the run overflows. *)
Theorem print_vector_rejected host junk heap w r b :
  driver_ints_exact w r b -> unsupported w r b ->
  print_vector5 host junk heap w r b
  = ('(pt, _) <- rc5_decrypt host
                   (map heap (seq 0 (Z.to_nat ((2 * r + 2) * Z.quot w 8) / wbytes)))
                   w r (ramp (Z.to_nat (2 * Z.quot w 8))) ;;
     Some (rejected_lines "RC5-" w r b (ramp (Z.to_nat b))
             (ramp (Z.to_nat (2 * Z.quot w 8)))
             (overwrite (ramp (Z.to_nat (2 * Z.quot w 8))) pt)))
  /\ print_vector6 host junk heap w r b
     = ('(pt, _) <- rc6_decrypt host
                      (map heap (seq 0 (Z.to_nat ((2 * r + 4) * Z.quot w 8) / wbytes)))
                      w r (ramp (Z.to_nat (4 * Z.quot w 8))) ;;
        Some (rejected_lines "RC6-" w r b (ramp (Z.to_nat b))
                (ramp (Z.to_nat (4 * Z.quot w 8)))
                (overwrite (ramp (Z.to_nat (4 * Z.quot w 8))) pt))).
Proof.
  intros _ U. split.
  - unfold print_vector5, rc5_setup.
    rewrite (setup_unsupported _ _ _ _ _ _ _ _ U). cbn [Z.eqb negb].
    rewrite !pbuf_run by (rewrite length_ramp; lia).
    rewrite !firstn_all2 by (rewrite length_ramp; lia).
    destruct (rc5_decrypt _ _ _ _ _) as [[pt walk] |] eqn:Ed; [| reflexivity].
    apply rc5_decrypt_in_place in Ed.
    rewrite pbuf_run by (rewrite Ed, length_ramp; lia).
    rewrite firstn_all2 by (rewrite Ed, length_ramp; lia).
    unfold rejected_lines. cbn [app].
    repeat (rewrite <- app_assoc; cbn [app]). reflexivity.
  - unfold print_vector6, rc6_setup.
    rewrite (setup_unsupported _ _ _ _ _ _ _ _ U). cbn [Z.eqb negb].
    rewrite !pbuf_run by (rewrite length_ramp; lia).
    rewrite !firstn_all2 by (rewrite length_ramp; lia).
    destruct (rc6_decrypt _ _ _ _ _) as [[pt walk] |] eqn:Ed; [| reflexivity].
    apply rc6_decrypt_in_place in Ed.
    rewrite pbuf_run by (rewrite Ed, length_ramp; lia).
    rewrite firstn_all2 by (rewrite Ed, length_ramp; lia).
    unfold rejected_lines. cbn [app].
    repeat (rewrite <- app_assoc; cbn [app]). reflexivity.
Qed.

(** X16. In the build with [WORD_SZ] 64, the one the source sets, [main]
    returns 0 after writing its four vectors; each is accepted by setup and
    ends with the line that repeats its input block. *)
Theorem main_prints_four_round_trips host junk heap :
  WORD_SZ ws = 64 ->
  exists c1 c2 c3 c4,
    main host junk heap
    = Some (vector_lines "RC5-" 64 16 16 (ramp 16) (ramp 16) c1
            ++ vector_lines "RC6-" 64 20 16 (ramp 16) (ramp 32) c2
            ++ vector_lines "RC5-" 64 252 255 (ramp 255) (ramp 16) c3
            ++ vector_lines "RC6-" 64 252 255 (ramp 255) (ramp 32) c4, 0).
Proof.
  intros H64.
  assert (Hwb : wbytes = 8%nat) by (unfold wbytes; destruct ws; try discriminate; reflexivity).
  assert (V16 : valid_rounds 16) by (split; [lia | reflexivity]).
  assert (V20 : valid_rounds 20) by (split; [lia | reflexivity]).
  assert (V252 : valid_rounds 252) by (split; [lia | reflexivity]).
  destruct (print_vector5_run host (junk 0%nat) (heap 0%nat) 64 16 16)
    as (_ & c1 & _ & _ & _ & E1); [congruence | assumption | lia |].
  destruct (print_vector6_run host (junk 1%nat) (heap 1%nat) 64 20 16)
    as (_ & c2 & _ & _ & _ & E2); [congruence | assumption | lia |].
  destruct (print_vector5_run host (junk 2%nat) (heap 2%nat) 64 252 255)
    as (_ & c3 & _ & _ & _ & E3); [congruence | assumption | lia |].
  destruct (print_vector6_run host (junk 3%nat) (heap 3%nat) 64 252 255)
    as (_ & c4 & _ & _ & _ & E4); [congruence | assumption | lia |].
  rewrite Hwb in E1, E2, E3, E4.
  exists c1, c2, c3, c4. unfold main. rewrite E1, E2, E3, E4. reflexivity.
Qed.

End Engine.

(** * Instances on sample inputs *)

Lemma round_trip_witness :
  (64 = WORD_SZ W64 /\ valid_rounds 4 /\ 0 <= 3 <= 255
   /\ 3 <= Z.of_nat (length (ramp 3))
   /\ Z.of_nat (length (blank 10)) = 2 * 4 + 2
   /\ Z.of_nat (length (blank 12)) = 2 * 4 + 4
   /\ length (ramp 16) = (2 * wbytes W64)%nat
   /\ length (ramp 32) = (4 * wbytes W64)%nat)
  /\ ((exists T ct walk walk',
          rc5_setup W64 BigEndian stack_ff (blank 10) 64 4 3 (ramp 3) = Some (0, T)
          /\ rc5_encrypt W64 BigEndian T 64 4 (ramp 16) = Some (ct, walk)
          /\ rc5_decrypt W64 BigEndian T 64 4 ct = Some (ramp 16, walk'))
      /\ (exists T ct walk walk',
          rc6_setup W64 BigEndian stack_ff (blank 12) 64 4 3 (ramp 3) = Some (0, T)
          /\ rc6_encrypt W64 BigEndian T 64 4 (ramp 32) = Some (ct, walk)
          /\ rc6_decrypt W64 BigEndian T 64 4 ct = Some (ramp 32, walk'))).
Proof.
  assert (Hv : valid_rounds 4) by (split; [lia | reflexivity]).
  split.
  - repeat split; try reflexivity; try apply Hv; cbn; lia.
  - apply (round_trip W64 BigEndian stack_ff (blank 10) (blank 12) 64 4 3
                      (ramp 3) (ramp 16) (ramp 32));
      try reflexivity; try exact Hv; cbn; lia.
Defined.

Lemma setup_fails_iff_unsupported_witness :
  (~ unsupported W64 64 4 3 /\ 3 <= Z.of_nat (length (ramp 3))
   /\ Z.of_nat (length (blank 10)) = 2 * 4 + 2)
  /\ (exists T, rc5_setup W64 LittleEndian stack_ff (blank 10) 64 4 3 (ramp 3)
                = Some (0, T))
  /\ (unsupported W64 64 5 3
      /\ rc6_setup W64 LittleEndian stack_ff (blank 10) 64 5 3 (ramp 3)
         = Some (-1, blank 10)).
Proof.
  assert (Hok : ~ unsupported W64 64 4 3) by (unfold unsupported; cbn; lia).
  assert (Hbad : unsupported W64 64 5 3) by (unfold unsupported; cbn; lia).
  split; [| split].
  - split; [exact Hok | split; [cbn; lia | reflexivity]].
  - apply (setup_fails_iff_unsupported W64 LittleEndian stack_ff (blank 10) 64 4 3 (ramp 3));
      [exact Hok | cbn; lia | reflexivity].
  - split; [exact Hbad |].
    apply (setup_fails_iff_unsupported W64 LittleEndian stack_ff (blank 10) 64 5 3 (ramp 3)).
    exact Hbad.
Defined.

Lemma setup_failure_leaves_table_witness :
  (rc5_setup W64 LittleEndian stack_ff [1; 2; 3; 4] 64 1 3 (ramp 3) = Some (-1, [1; 2; 3; 4])
   \/ rc6_setup W64 LittleEndian stack_ff [1; 2; 3; 4] 64 1 3 (ramp 3) = Some (-1, [1; 2; 3; 4]))
  /\ [1; 2; 3; 4] = [1; 2; 3; 4].
Proof.
  assert (H : rc5_setup W64 LittleEndian stack_ff [1; 2; 3; 4] 64 1 3 (ramp 3)
              = Some (-1, [1; 2; 3; 4])
              \/ rc6_setup W64 LittleEndian stack_ff [1; 2; 3; 4] 64 1 3 (ramp 3)
                 = Some (-1, [1; 2; 3; 4])) by (left; reflexivity).
  split; [exact H |].
  exact (setup_failure_leaves_table W64 LittleEndian stack_ff [1; 2; 3; 4] 64 1 3
                                    (ramp 3) [1; 2; 3; 4] H).
Defined.

Lemma setup_key_schedule_witness :
  (64 = WORD_SZ W64 /\ valid_rounds 4 /\ 0 <= 3 <= 255
   /\ 3 <= Z.of_nat (length (ramp 3))
   /\ Z.of_nat (length (blank 10)) = 2 * 4 + 2)
  /\ rc5_setup W64 LittleEndian stack_ff (blank 10) 64 4 3 (ramp 3)
     = Some (0, key_schedule_arith W64 (2 * 4 + 2) 3 (ramp 3)).
Proof.
  assert (Hv : valid_rounds 4) by (split; [lia | reflexivity]).
  split.
  - repeat split; try reflexivity; try apply Hv; cbn; lia.
  - apply (setup_key_schedule W64 LittleEndian stack_ff (blank 10) 64 4 3 (ramp 3));
      try reflexivity; try exact Hv; cbn; lia.
Defined.

Lemma key_material_packing_witness :
  (0 <= 3 <= 255 /\ 3 <= Z.of_nat (length (ramp 3)))
  /\ (exists behind,
         key_words W64 BigEndian stack_ff 3 (ramp 3)
         = Some (key_material_spec W64 3 (ramp 3) ++ behind))
  /\ key_material_spec W64 3 (ramp 3) = [0x020100].
Proof.
  split; [cbn; lia | split; [| reflexivity]].
  apply (key_material_packing W64 BigEndian stack_ff 3 (ramp 3)); cbn; lia.
Defined.

Lemma rc5_encrypt_rounds_by_index_witness :
  (valid_rounds 4 /\ Z.of_nat (length (blank 10)) = 2 * 4 + 2
   /\ length (ramp 16) = (2 * wbytes W64)%nat)
  /\ exists A B,
      rc5_encrypt_arith W64 (blank 10) 4 (wire_word W64 (ramp 16) 0)
                       (wire_word W64 (ramp 16) 1) = (A, B)
      /\ rc5_encrypt W64 BigEndian (blank 10) 64 4 (ramp 16)
         = Some (wire W64 A ++ wire W64 B,
                 Cursor (2 * 4 + 2) (upward (Z.to_nat (2 * 4 + 2)) 0)).
Proof.
  assert (Hv : valid_rounds 4) by (split; [lia | reflexivity]).
  split.
  - repeat split; try reflexivity; apply Hv.
  - apply (rc5_encrypt_rounds_by_index W64 BigEndian (blank 10) 64 4 (ramp 16));
      try reflexivity; exact Hv.
Defined.

Lemma rc6_encrypt_rounds_by_index_witness :
  (valid_rounds 4 /\ Z.of_nat (length (blank 12)) = 2 * 4 + 4
   /\ length (ramp 32) = (4 * wbytes W64)%nat)
  /\ exists A B C D,
      rc6_encrypt_arith W64 (blank 12) 4 (wire_word W64 (ramp 32) 0)
                       (wire_word W64 (ramp 32) 1) (wire_word W64 (ramp 32) 2)
                       (wire_word W64 (ramp 32) 3) = (A, B, C, D)
      /\ rc6_encrypt W64 BigEndian (blank 12) 64 4 (ramp 32)
         = Some (wire W64 A ++ wire W64 B ++ wire W64 C ++ wire W64 D,
                 Cursor (2 * 4 + 3) (upward (Z.to_nat (2 * 4 + 4)) 0)).
Proof.
  assert (Hv : valid_rounds 4) by (split; [lia | reflexivity]).
  split.
  - repeat split; try reflexivity; apply Hv.
  - apply (rc6_encrypt_rounds_by_index W64 BigEndian (blank 12) 64 4 (ramp 32));
      try reflexivity; exact Hv.
Defined.

Lemma rc6_encrypt_zero_rounds_witness :
  (length [10; 20; 30; 40] = 4%nat /\ length (ramp 32) = (4 * wbytes W64)%nat)
  /\ exists walk,
      rc6_encrypt W64 LittleEndian [10; 20; 30; 40] 64 0 (ramp 32)
      = Some (wire W64 ((wire_word W64 (ramp 32) 0 + S_at [10; 20; 30; 40] 2)
                        mod 2 ^ WORD_SZ W64)
              ++ wire W64 ((wire_word W64 (ramp 32) 1 + S_at [10; 20; 30; 40] 0)
                           mod 2 ^ WORD_SZ W64)
              ++ wire W64 ((wire_word W64 (ramp 32) 2 + S_at [10; 20; 30; 40] 3)
                           mod 2 ^ WORD_SZ W64)
              ++ wire W64 ((wire_word W64 (ramp 32) 3 + S_at [10; 20; 30; 40] 1)
                           mod 2 ^ WORD_SZ W64),
              walk).
Proof.
  split; [split; reflexivity |].
  apply (rc6_encrypt_zero_rounds W64 LittleEndian [10; 20; 30; 40] 64 (ramp 32));
    reflexivity.
Defined.

Lemma endianness_independence_witness :
  (64 = WORD_SZ W64 /\ valid_rounds 4 /\ 0 <= 3 <= 255
   /\ 3 <= Z.of_nat (length (ramp 3))
   /\ Z.of_nat (length (blank 10)) = 2 * 4 + 2
   /\ Z.of_nat (length (blank 12)) = 2 * 4 + 4
   /\ length (ramp 16) = (2 * wbytes W64)%nat
   /\ length (ramp 32) = (4 * wbytes W64)%nat)
  /\ ((exists T T' ct walk walk',
          rc5_setup W64 BigEndian stack_ff (blank 10) 64 4 3 (ramp 3) = Some (0, T)
          /\ rc5_setup W64 LittleEndian (fun _ => x00) (blank 10) 64 4 3 (ramp 3) = Some (0, T')
          /\ rc5_encrypt W64 BigEndian T 64 4 (ramp 16) = Some (ct, walk)
          /\ rc5_encrypt W64 LittleEndian T' 64 4 (ramp 16) = Some (ct, walk'))
      /\ (exists T T' ct walk walk',
          rc6_setup W64 BigEndian stack_ff (blank 12) 64 4 3 (ramp 3) = Some (0, T)
          /\ rc6_setup W64 LittleEndian (fun _ => x00) (blank 12) 64 4 3 (ramp 3) = Some (0, T')
          /\ rc6_encrypt W64 BigEndian T 64 4 (ramp 32) = Some (ct, walk)
          /\ rc6_encrypt W64 LittleEndian T' 64 4 (ramp 32) = Some (ct, walk'))).
Proof.
  assert (Hv : valid_rounds 4) by (split; [lia | reflexivity]).
  split.
  - repeat split; try reflexivity; try apply Hv; cbn; lia.
  - apply (endianness_independence W64 stack_ff (fun _ => x00) (blank 10) (blank 12)
                                   64 4 3 (ramp 3) (ramp 16) (ramp 32));
      try reflexivity; try exact Hv; cbn; lia.
Defined.

Lemma table_accesses_in_bounds_witness :
  (64 = WORD_SZ W64 /\ valid_rounds 4 /\ 0 <= 3 <= 255
   /\ 3 <= Z.of_nat (length (ramp 3))
   /\ Z.of_nat (length (blank 10)) = 2 * 4 + 2
   /\ Z.of_nat (length (blank 12)) = 2 * 4 + 4
   /\ length (ramp 16) = (2 * wbytes W64)%nat
   /\ length (ramp 32) = (4 * wbytes W64)%nat)
  /\ exists out5 back5,
      rc5_encrypt W64 LittleEndian (blank 10) 64 4 (ramp 16)
      = Some (out5, Cursor (2 * 4 + 2) (upward (Z.to_nat (2 * 4 + 2)) 0))
      /\ rc5_decrypt W64 LittleEndian (blank 10) 64 4 (ramp 16)
         = Some (back5, Cursor 0 (downward (Z.to_nat (2 * 4 + 2)) (2 * 4 + 1))).
Proof.
  assert (Hv : valid_rounds 4) by (split; [lia | reflexivity]).
  split.
  - repeat split; try reflexivity; try apply Hv; cbn; lia.
  - destruct (table_accesses_in_bounds W64 LittleEndian stack_ff (blank 10) (blank 12)
                [7; 7] 64 4 3 (ramp 3) (ramp 16) (ramp 32))
      as (_ & (out5 & out6 & back5 & back6 & E5 & _ & D5 & _) & _);
      try reflexivity; try exact Hv; try (cbn; lia).
    exists out5, back5. split; assumption.
Defined.

(** * Published vectors and the driver's scenarios *)

(** RC5-32/12/16 on the zero key and block, from the RC5 paper. *)
Example rc5_32_12_16_zero_vector :
  ('(_, T) <- rc5_setup W32 LittleEndian stack_ff (blank 26) 32 12 16 (repeat x00 16) ;;
   '(ct, _) <- rc5_encrypt W32 LittleEndian T 32 12 (repeat x00 8) ;;
   Some ct)
  = Some (map byte_of [0x21; 0xA5; 0xDB; 0xEE; 0x15; 0x4B; 0x8F; 0x6D]).
Proof. vm_compute. reflexivity. Qed.

(** RC6-32/20/16 on the zero key and block, from the RC6 submission. *)
Example rc6_32_20_16_zero_vector :
  ('(_, T) <- rc6_setup W32 BigEndian stack_ff (blank 44) 32 20 16 (repeat x00 16) ;;
   '(ct, _) <- rc6_encrypt W32 BigEndian T 32 20 (repeat x00 16) ;;
   Some ct)
  = Some (map byte_of [0x8f; 0xc3; 0xa5; 0x36; 0x56; 0xb1; 0xf7; 0x78;
                       0xc1; 0x29; 0xdf; 0x4e; 0x98; 0x48; 0xa4; 0x1e]).
Proof. vm_compute. reflexivity. Qed.

(** The driver's first two calls: RC5-64/16/16 and RC6-64/20/16 on the
    byte ramps, encrypted and then decrypted. *)
Example print_vector5_64_16_16 :
  ('(_, T) <- rc5_setup W64 LittleEndian stack_ff (blank 34) 64 16 16 (ramp 16) ;;
   '(ct, _) <- rc5_encrypt W64 LittleEndian T 64 16 (ramp 16) ;;
   '(pt, _) <- rc5_decrypt W64 LittleEndian T 64 16 ct ;;
   Some pt)
  = Some (ramp 16).
Proof. vm_compute. reflexivity. Qed.

Example print_vector6_64_20_16 :
  ('(_, T) <- rc6_setup W64 LittleEndian stack_ff (blank 44) 64 20 16 (ramp 16) ;;
   '(ct, _) <- rc6_encrypt W64 LittleEndian T 64 20 (ramp 32) ;;
   '(pt, _) <- rc6_decrypt W64 LittleEndian T 64 20 ct ;;
   Some pt)
  = Some (ramp 32).
Proof. vm_compute. reflexivity. Qed.

(** The round loops pass four rounds at a time: asked for two rounds,
    [rc5_encrypt] runs none and reads two subkeys only. *)
Example rc5_encrypt_two_rounds_asked :
  rc5_encrypt W8 LittleEndian [1; 2; 3; 4; 5; 6] 8 2 [x10; x20]
  = Some ([x11; x22], Cursor 2 [0; 1]).
Proof. vm_compute. reflexivity. Qed.

(** * Further instances on sample inputs *)

Lemma rotations_move_bits_witness :
  (is_WORD W64 5 /\ 0 <= 62 < WORD_SZ W64 /\ 0 <= 2 < WORD_SZ W64)
  /\ Z.testbit (rotl W64 5 62) ((2 + 62) mod WORD_SZ W64) = Z.testbit 5 2.
Proof.
  assert (H : is_WORD W64 5 /\ 0 <= 62 < WORD_SZ W64 /\ 0 <= 2 < WORD_SZ W64)
    by (unfold is_WORD; cbn; lia).
  split; [exact H |]. destruct H as (Hx & Hd & Hn).
  exact (proj1 (rotations_move_bits W64 5 62 2 Hx Hd Hn)).
Defined.

Lemma rotations_inverse_witness :
  (is_WORD W64 5 /\ 0 <= 62 < WORD_SZ W64)
  /\ rotr W64 (rotl W64 5 62) 62 = 5 /\ rotl W64 (rotr W64 5 62) 62 = 5.
Proof.
  assert (H : is_WORD W64 5 /\ 0 <= 62 < WORD_SZ W64) by (unfold is_WORD; cbn; lia).
  split; [exact H |]. destruct H as (Hx & Hd).
  destruct (rotations_inverse W64 5 62 Hx Hd) as (H1 & H2 & _).
  split; assumption.
Defined.

Lemma bswap_reverses_bytes_witness :
  is_WORD W128 0x0102
  /\ le_encode (wbytes W128) (bswap W128 0x0102)
     = rev (le_encode (wbytes W128) 0x0102)
  /\ bswap W128 (bswap W128 0x0102) = 0x0102.
Proof.
  assert (H : is_WORD W128 0x0102) by (unfold is_WORD; cbn; lia).
  split; [exact H |].
  destruct (bswap_reverses_bytes W128 0x0102 H) as (H1 & _ & H2).
  split; assumption.
Defined.

Lemma bswap_if_be_wire_order_witness :
  (length [x01; x02; x03; x04] = wbytes W32 /\ is_WORD W32 0x0a0b0c0d)
  /\ bswap_if_be W32 BigEndian (decode BigEndian [x01; x02; x03; x04])
     = le_decode [x01; x02; x03; x04]
  /\ store W32 BigEndian (bswap_if_be W32 BigEndian 0x0a0b0c0d)
     = le_encode (wbytes W32) 0x0a0b0c0d.
Proof.
  assert (H : length [x01; x02; x03; x04] = wbytes W32 /\ is_WORD W32 0x0a0b0c0d)
    by (split; [reflexivity | unfold is_WORD; cbn; lia]).
  split; [exact H |]. destruct H as (Hl & Hx).
  destruct (bswap_if_be_wire_order W32 BigEndian [x01; x02; x03; x04] 0x0a0b0c0d Hl Hx)
    as (H1 & H2 & _).
  split; assumption.
Defined.

Lemma rc5_encrypt_decrypt_witness :
  (valid_rounds 4 /\ Z.of_nat (length (blank 10)) = 2 * 4 + 2
   /\ length (ramp 16) = (2 * wbytes W64)%nat)
  /\ exists pt walk walk',
      rc5_decrypt W64 BigEndian (blank 10) 64 4 (ramp 16) = Some (pt, walk)
      /\ rc5_encrypt W64 BigEndian (blank 10) 64 4 pt = Some (ramp 16, walk').
Proof.
  assert (Hv : valid_rounds 4) by (split; [lia | reflexivity]).
  split; [split; [exact Hv | split; reflexivity] |].
  apply (rc5_encrypt_decrypt W64 BigEndian (blank 10) 64 4 (ramp 16));
    [exact Hv | reflexivity | reflexivity].
Defined.

Lemma rc6_encrypt_decrypt_witness :
  (valid_rounds 4 /\ Z.of_nat (length (blank 12)) = 2 * 4 + 4
   /\ length (ramp 32) = (4 * wbytes W64)%nat)
  /\ exists pt walk walk',
      rc6_decrypt W64 BigEndian (blank 12) 64 4 (ramp 32) = Some (pt, walk)
      /\ rc6_encrypt W64 BigEndian (blank 12) 64 4 pt = Some (ramp 32, walk').
Proof.
  assert (Hv : valid_rounds 4) by (split; [lia | reflexivity]).
  split; [split; [exact Hv | split; reflexivity] |].
  apply (rc6_encrypt_decrypt W64 BigEndian (blank 12) 64 4 (ramp 32));
    [exact Hv | reflexivity | reflexivity].
Defined.

Lemma setup_ignores_unwritten_memory_witness :
  (~ unsupported W64 64 4 3
   /\ 3 <= Z.of_nat (length (ramp 3)) /\ 3 <= Z.of_nat (length (ramp 3 ++ [xff]))
   /\ firstn (Z.to_nat 3) (ramp 3) = firstn (Z.to_nat 3) (ramp 3 ++ [xff])
   /\ length (blank 10) = length (repeat 7 10)
   /\ Z.of_nat (length (blank 10)) = 2 * 4 + 2)
  /\ rc5_setup W64 LittleEndian stack_ff (blank 10) 64 4 3 (ramp 3)
     = rc5_setup W64 BigEndian (fun _ => x00) (repeat 7 10) 64 4 3 (ramp 3 ++ [xff]).
Proof.
  assert (Hok : ~ unsupported W64 64 4 3) by (unfold unsupported; cbn; lia).
  split.
  - split; [exact Hok |]. repeat split; try reflexivity; cbn; lia.
  - apply (setup_ignores_unwritten_memory W64 LittleEndian BigEndian stack_ff
             (fun _ => x00) (blank 10) (repeat 7 10) 64 4 3 (ramp 3) (ramp 3 ++ [xff]));
      try reflexivity; try exact Hok; cbn; lia.
Defined.

Lemma zero_extended_key_same_table_witness :
  (~ unsupported W64 64 4 3 /\ 3 <= 5 <= 255
   /\ L_words_of W64 3 = L_words_of W64 5
   /\ 3 <= Z.of_nat (length (ramp 3))
   /\ 5 <= Z.of_nat (length (ramp 3 ++ [x00; x00]))
   /\ firstn (Z.to_nat 5) (ramp 3 ++ [x00; x00])
      = firstn (Z.to_nat 3) (ramp 3) ++ repeat x00 (Z.to_nat (5 - 3))
   /\ Z.of_nat (length (blank 12)) = 2 * 4 + 4)
  /\ rc6_setup W64 LittleEndian stack_ff (blank 12) 64 4 3 (ramp 3)
     = rc6_setup W64 LittleEndian stack_ff (blank 12) 64 4 5 (ramp 3 ++ [x00; x00]).
Proof.
  assert (Hok : ~ unsupported W64 64 4 3) by (unfold unsupported; cbn; lia).
  split.
  - split; [exact Hok |]. repeat split; try reflexivity; cbn; lia.
  - apply (zero_extended_key_same_table W64 LittleEndian stack_ff (blank 12) 64 4 3 5
             (ramp 3) (ramp 3 ++ [x00; x00]));
      try reflexivity; try exact Hok; cbn; lia.
Defined.

Lemma encrypt_rounds_in_fours_witness :
  (0 <= 6 <= 255 /\ 2 * (4 * Z.quot 6 4) + 2 <= Z.of_nat (length (blank 14))
   /\ length (ramp 16) = (2 * wbytes W64)%nat)
  /\ rc5_encrypt W64 LittleEndian (blank 14) 64 6 (ramp 16)
     = Some (wire W64 (fst (rc5_encrypt_spec W64 (blank 14) (4 * Z.quot 6 4)
                              (wire_word W64 (ramp 16) 0) (wire_word W64 (ramp 16) 1)))
             ++ wire W64 (snd (rc5_encrypt_spec W64 (blank 14) (4 * Z.quot 6 4)
                                 (wire_word W64 (ramp 16) 0) (wire_word W64 (ramp 16) 1))),
             Cursor (2 * (4 * Z.quot 6 4) + 2)
                    (upward (Z.to_nat (2 * (4 * Z.quot 6 4) + 2)) 0)).
Proof.
  split; [repeat split; try reflexivity; cbn; lia |].
  apply (encrypt_rounds_in_fours W64 LittleEndian (blank 14) 64 6 (ramp 16));
    try reflexivity; cbn; lia.
Defined.

Lemma decrypt_rounds_in_fours_witness :
  0 <= 6 <= 255
  /\ (2 * (6 - 4 * Z.quot 6 4) = 0 <-> Z.rem 6 4 = 0).
Proof.
  assert (H : 0 <= 6 <= 255) by lia.
  split; [exact H |].
  exact (proj2 (proj2 (decrypt_rounds_in_fours W64 LittleEndian (blank 14) 64 6
                                               (ramp 16) H))).
Defined.

Lemma block_functions_trust_table_size_witness :
  (valid_rounds 4 /\ Z.of_nat (length (blank 9)) < 2 * 4 + 2)
  /\ rc5_encrypt W64 LittleEndian (blank 9) 64 4 (ramp 16) = None
  /\ rc5_decrypt W64 LittleEndian (blank 9) 64 4 (ramp 16) = None.
Proof.
  assert (Hv : valid_rounds 4) by (split; [lia | reflexivity]).
  assert (Hs : Z.of_nat (length (blank 9)) < 2 * 4 + 2) by (cbn; lia).
  split; [split; assumption |].
  exact (proj1 (block_functions_trust_table_size W64 LittleEndian (blank 9) 64 4
                                                 (ramp 16) Hv) Hs).
Defined.

Lemma setup_trusts_buffer_sizes_witness :
  (~ unsupported W64 64 4 3 /\ Z.of_nat (length (blank 9)) < 2 * 4 + 2
   /\ Z.of_nat (length (ramp 2)) < 3)
  /\ rc5_setup W64 LittleEndian stack_ff (blank 9) 64 4 3 (ramp 3) = None
  /\ rc6_setup W64 LittleEndian stack_ff (blank 12) 64 4 3 (ramp 2) = None.
Proof.
  assert (Hok : ~ unsupported W64 64 4 3) by (unfold unsupported; cbn; lia).
  assert (Hs : Z.of_nat (length (blank 9)) < 2 * 4 + 2) by (cbn; lia).
  assert (Hk : Z.of_nat (length (ramp 2)) < 3) by (cbn; lia).
  split; [split; [exact Hok | split; assumption] |].
  split.
  - exact (proj1 (setup_trusts_buffer_sizes W64 LittleEndian stack_ff (blank 9) 64 4 3
                                            (ramp 3) Hok) Hs).
  - exact (proj2 (proj2 (proj2 (setup_trusts_buffer_sizes W64 LittleEndian stack_ff
                                  (blank 12) 64 4 3 (ramp 2) Hok)) Hk)).
Defined.

Lemma pbuf_prints_hex_witness :
  (2 <= Z.of_nat (length [x01; xab]) /\ Z.of_nat (length [x01; xab]) < 3)
  /\ pbuf [x01; xab] 2 (Some "Key: "%string)
     = Some ([("Key: ")%string]
             ++ map printf_02X (firstn (Z.to_nat 2) [x01; xab]) ++ [newline])
  /\ pbuf [x01; xab] 3 None = None.
Proof.
  assert (H : 2 <= Z.of_nat (length [x01; xab]) /\ Z.of_nat (length [x01; xab]) < 3)
    by (cbn; lia).
  split; [exact H |]. destruct H as (H2 & H3). split.
  - exact (proj1 (pbuf_prints_hex [x01; xab] [] 2 (Some "Key: "%string)) H2).
  - exact (proj1 (proj2 (pbuf_prints_hex [x01; xab] [] 3 None)) H3).
Defined.

Lemma print_vector_shows_round_trip_witness :
  (64 = WORD_SZ W64 /\ valid_rounds 4 /\ 0 <= 3 <= 255)
  /\ exists T ct walk,
      rc5_setup W64 LittleEndian stack_ff
                (map (fun _ => 5) (seq 0 (Z.to_nat (2 * 4 + 2)))) 64 4 3
                (ramp (Z.to_nat 3)) = Some (0, T)
      /\ rc5_encrypt W64 LittleEndian T 64 4 (ramp (2 * wbytes W64)) = Some (ct, walk)
      /\ print_vector5 W64 LittleEndian stack_ff (fun _ => 5) 64 4 3
         = Some (vector_lines "RC5-" 64 4 3 (ramp (Z.to_nat 3))
                              (ramp (2 * wbytes W64)) ct).
Proof.
  assert (Hv : valid_rounds 4) by (split; [lia | reflexivity]).
  split; [split; [reflexivity | split; [exact Hv | lia]] |].
  exact (proj1 (print_vector_shows_round_trip W64 LittleEndian stack_ff (fun _ => 5)
                  64 4 3 eq_refl Hv ltac:(lia))).
Defined.

Lemma print_vector_rejected_witness :
  (driver_ints_exact 64 5 3 /\ unsupported W64 64 5 3)
  /\ print_vector5 W64 LittleEndian stack_ff (fun _ => 5) 64 5 3
     = ('(pt, _) <- rc5_decrypt W64 LittleEndian
                      (map (fun _ => 5)
                           (seq 0 (Z.to_nat ((2 * 5 + 2) * Z.quot 64 8) / wbytes W64)))
                      64 5 (ramp (Z.to_nat (2 * Z.quot 64 8))) ;;
        Some (rejected_lines "RC5-" 64 5 3 (ramp (Z.to_nat 3))
                (ramp (Z.to_nat (2 * Z.quot 64 8)))
                (overwrite (ramp (Z.to_nat (2 * Z.quot 64 8))) pt))).
Proof.
  assert (U : unsupported W64 64 5 3) by (unfold unsupported; cbn; lia).
  assert (I : driver_ints_exact 64 5 3)
    by (unfold driver_ints_exact, int_range; cbn; lia).
  split; [split; assumption |].
  exact (proj1 (print_vector_rejected W64 LittleEndian stack_ff (fun _ => 5) 64 5 3 I U)).
Defined.

Lemma main_prints_four_round_trips_witness :
  WORD_SZ W64 = 64
  /\ exists c1 c2 c3 c4,
      main W64 LittleEndian (fun _ => stack_ff) (fun _ _ => 5)
      = Some (vector_lines "RC5-" 64 16 16 (ramp 16) (ramp 16) c1
              ++ vector_lines "RC6-" 64 20 16 (ramp 16) (ramp 32) c2
              ++ vector_lines "RC5-" 64 252 255 (ramp 255) (ramp 16) c3
              ++ vector_lines "RC6-" 64 252 255 (ramp 255) (ramp 32) c4, 0).
Proof.
  split; [reflexivity |].
  exact (main_prints_four_round_trips W64 LittleEndian (fun _ => stack_ff)
                                      (fun _ _ => 5) eq_refl).
Defined.
